(** * AnimationGroup: a shallow embedding of src/AnimationGroup.js

    The component measures keyed children at three points of an update
    (starting, real, ending), plans a translation per key, and drives the
    transforms through two animation frames and a transitionend listener.

    Modelling conventions.
    - A JavaScript object used as a dictionary is an association list in
      insertion order ([Obj]); [for (key in o)] walks its keys in that order.
      The keys of children are never integer-like, so no reordering occurs.
    - Pixel coordinates are integers; [undefined] and [NaN] are kept because
      the code reads fields of the empty object [{}].
    - A method is a function from the world (instance fields, node styles,
      scheduled callbacks, effect log) to an outcome that either completes or
      throws, keeping the effects made so far.
    - The child mappings are objects in a store, so that [this.children] and
      [this.state.children] can be one object.
    - Closures are data: the cancel closure of a key, the two frame
      callbacks of an update, the transitionend listener of a key.
    - Every node is an element (it has a style), and writing a style
      property stores the string written.

    The file has two parts: the definitions (the program, a small host to
    run it on, and the vocabulary of the properties), then the facts. *)

From Stdlib Require Import List String ZArith Bool Lia DecimalString.
Import ListNotations.

Set Implicit Arguments.

(** ** JavaScript objects as ordered dictionaries *)

Module Obj.
Section Dict.
Variable V : Type.

Definition t := list (string * V).

Definition empty : t := [].

Fixpoint get (k : string) (o : t) : option V :=
  match o with
  | [] => None
  | (k', v) :: o' => if String.eqb k k' then Some v else get k o'
  end.

(** [o[k] = v]: an own property keeps its place, a new one goes last. *)
Fixpoint set (k : string) (v : V) (o : t) : t :=
  match o with
  | [] => [(k, v)]
  | (k', v') :: o' =>
      if String.eqb k k' then (k, v) :: o' else (k', v') :: set k v o'
  end.

(** [delete o[k]] *)
Fixpoint del (k : string) (o : t) : t :=
  match o with
  | [] => []
  | (k', v') :: o' =>
      if String.eqb k k' then del k o' else (k', v') :: del k o'
  end.

Definition keys (o : t) : list string := map fst o.

Definition has (k : string) (o : t) : bool :=
  match get k o with Some _ => true | None => false end.
End Dict.
End Obj.

Arguments Obj.empty {V}.

(** ** Numbers as the planner sees them *)

Module JS.
Inductive value := Undefined | NaN | Num (z : Z).

(** [!v] *)
Definition falsy (v : value) : bool :=
  match v with
  | Undefined | NaN => true
  | Num z => Z.eqb z 0
  end.

(** [a !== b] *)
Definition strictNeq (a b : value) : bool :=
  match a, b with
  | Undefined, Undefined => false
  | Num x, Num y => negb (Z.eqb x y)
  | _, _ => true
  end.

(** [a * b] and [a - b]: anything but two numbers gives [NaN]. *)
Definition mul (a b : value) : value :=
  match a, b with
  | Num x, Num y => Num (x * y)
  | _, _ => NaN
  end.

Definition sub (a b : value) : value :=
  match a, b with
  | Num x, Num y => Num (x - y)
  | _, _ => NaN
  end.

(** The text a template literal inserts for [v]. *)
Definition toString (v : value) : string :=
  match v with
  | Undefined => "undefined"
  | NaN => "NaN"
  | Num z => NilZero.string_of_int (Z.to_int z)
  end.
End JS.

(** ** Geometry snapshots *)

(** What [domNode ? domNode.getBoundingClientRect() : {}] evaluates to. *)
Inductive Rect :=
| EmptyObject
| DOMRect (l t w h : Z).

Definition r_left (r : Rect) : JS.value :=
  match r with EmptyObject => JS.Undefined | DOMRect l _ _ _ => JS.Num l end.
Definition r_top (r : Rect) : JS.value :=
  match r with EmptyObject => JS.Undefined | DOMRect _ t _ _ => JS.Num t end.
Definition r_width (r : Rect) : JS.value :=
  match r with EmptyObject => JS.Undefined | DOMRect _ _ w _ => JS.Num w end.
Definition r_height (r : Rect) : JS.value :=
  match r with EmptyObject => JS.Undefined | DOMRect _ _ _ h => JS.Num h end.

(** ** The animation planner (componentDidUpdate, "Calculating the animations") *)

Record Keyframe := { transform : string }.

(** [animations[key]] is the two-element array of keyframes. *)
Definition Descriptor := (Keyframe * Keyframe)%type.
Definition startTransform (d : Descriptor) : string := transform (fst d).
Definition endTransform (d : Descriptor) : string := transform (snd d).

Definition translate (dx dy : JS.value) : string :=
  ("translate(" ++ JS.toString dx ++ "px, " ++ JS.toString dy ++ "px)")%string.

(** [(!snap.height && !snap.width)] *)
Definition offStage (snap : Rect) : bool :=
  JS.falsy (r_height snap) && JS.falsy (r_width snap).

(** The pair bound to [[startLeft, startTop]] (resp. [[endLeft, endTop]]). *)
Definition resolve (snap real : Rect) : JS.value * JS.value :=
  if offStage snap
  then (JS.mul (r_width real) (JS.Num (-1)), r_top real)
  else (r_left snap, r_top snap).

Definition planKey (first real last : Rect) : option Descriptor :=
  let '(startLeft, startTop) := resolve first real in
  let '(endLeft, endTop) := resolve last real in
  if JS.strictNeq startLeft endLeft || JS.strictNeq startTop endTop ||
     JS.strictNeq endLeft (r_left real) || JS.strictNeq endTop (r_top real)
  then Some
         ({| transform := translate (JS.sub startLeft (r_left real))
                                    (JS.sub startTop (r_top real)) |},
          {| transform := translate (JS.sub endLeft (r_left real))
                                    (JS.sub endTop (r_top real)) |})
  else None.

(** The loop over [this.children]; [None] is the TypeError raised when a
    snapshot of the key is missing ([first.height] of [undefined]). *)
Fixpoint calcAnimations (ks : list string)
    (startingPositions realPositions endingPositions : Obj.t Rect)
    (animations : Obj.t Descriptor) : option (Obj.t Descriptor) :=
  match ks with
  | [] => Some animations
  | key :: ks' =>
      match Obj.get key startingPositions, Obj.get key realPositions,
            Obj.get key endingPositions with
      | Some first, Some real, Some last =>
          calcAnimations ks' startingPositions realPositions endingPositions
            (match planKey first real last with
             | Some d => Obj.set key d animations
             | None => animations
             end)
      | _, _, _ => None
      end
  end.

(** ** Children, refs and props *)

(** A ref callback: the owner's own, the component's tracking callback
    [(r) => { this.childRefs[key] = r; }], or two of them chained. *)
Inductive RefFn :=
| OwnerFn (id : nat)
| TrackFn (key : string)
| Chained (f g : RefFn).

Inductive Ref :=
| RefNull
| RefString (name : string)
| RefCallback (f : RefFn).

(** A React element; [el_id] is its object identity, which is all that
    [factoryChild === child] looks at. *)
Record Element := {
  el_id : nat;
  el_type : string;
  el_key : string;
  el_ref : Ref
}.

(** A value of a child mapping; [None] is a falsy entry. *)
Definition Child := option Element.

Definition sameElement (a b : Element) : bool := Nat.eqb (el_id a) (el_id b).

(** [typeof child.ref !== 'string'] *)
Definition isCallbackRef (child : Element) : bool :=
  match el_ref child with RefString _ => false | _ => true end.

(** The chain-function package: null arguments are dropped, and a single
    remaining function is returned as it is. *)
Definition chain (a : Ref) (b : RefFn) : RefFn :=
  match a with
  | RefCallback f => Chained f b
  | _ => b
  end.

(** The arguments of [React.cloneElement(factoryChild, { key, ref })]. *)
Record Cloned := {
  c_source : Element;
  c_key : string;
  c_ref : RefFn
}.

Inductive PropValue :=
| PComponent (tag : string)
| PChildFactory (f : Element -> Element)
| PChildren (cs : list Element)
| POther (payload : string).

(** A props object: its identity (for [===]) and its own properties. *)
Record Props := {
  props_id : nat;
  fields : Obj.t PropValue
}.

Definition sameProps (a b : Props) : bool := Nat.eqb (props_id a) (props_id b).

Definition propChildren (p : Props) : option (list Element) :=
  match Obj.get "children" (fields p) with
  | Some (PChildren cs) => Some cs
  | _ => None
  end.

(** The arguments of [React.createElement(this.props.component, props,
    childrenToRender)]. *)
Record Rendered := {
  out_type : option PropValue;
  out_props : Obj.t PropValue;
  out_children : list Cloned
}.

(** ** The rendering surface and the instance *)

Definition NodeId := nat.
Definition Addr := nat.

Inductive StyleProp := Display | Transform | Transition.

Definition stylePropEqb (p q : StyleProp) : bool :=
  match p, q with
  | Display, Display | Transform, Transform | Transition, Transition => true
  | _, _ => false
  end.

(** Inline styles of every node: [node.style[p]]. *)
Definition Styles := NodeId -> StyleProp -> string.

Definition writeStyle (n : NodeId) (p : StyleProp) (v : string) (st : Styles) : Styles :=
  fun n' p' => if Nat.eqb n' n && stylePropEqb p' p then v else st n' p'.

(** The cancel closure registered for [key] in [this.animations]. *)
Inductive Cancel := CancelFor (key : string).

(** The two callbacks given to [requestAnimationFrame]; each closes over the
    local [animations] of its update. *)
Inductive Callback :=
| ArmTransitions (animations : Obj.t Descriptor)
| RunTransitions (animations : Obj.t Descriptor).

(** The transitionend listener closes over [key]. *)
Inductive Listener := OnTransitionEnd (key : string).

(** What a method does to the outside, in the order it does it.
    [CancelInvoked] marks a call of a registered cancel closure. *)
Inductive Event :=
| Warned (msg : string)
| Measured (n : NodeId)
| StyleWritten (n : NodeId) (p : StyleProp) (v : string)
| CancelInvoked (key : string)
| SetStateCalled (children : option Addr)
| FrameRequested (cb : Callback)
| ListenerAdded (n : NodeId) (l : Listener).

(** The collaborators the component is written against: the child-mapping
    utilities it imports from ./utils/ChildMapping (not among the sources at
    hand, so taken as they come), the framework's node lookup and the layout
    engine. [getChildMapping] may give back a falsy value;
    [mergeChildMappings] always makes a new object. *)
Class Host := {
  Instance_ : Type;
  Surface : Type;
  getChildMapping : option (list Element) -> option (Obj.t Child);
  mergeChildMappings : option (Obj.t Child) -> option (Obj.t Child) -> Obj.t Child;
  findDOMNode : Surface -> Instance_ -> option NodeId;
  getBoundingClientRect : Surface -> Styles -> NodeId -> Rect
}.

Section Component.
Context {host : Host}.

(** The instance fields, the store of child-mapping objects they point
    into, and the rendering surface. [children], [leavingKeys] and
    [realPositions] are undefined until first assigned. *)
Record World := {
  props : Props;
  stateChildren : option Addr;
  pendingState : option (option Addr);
  childRefs : Obj.t (option Instance_);
  children : option Addr;
  animations : Obj.t Cancel;
  startingPositions : Obj.t Rect;
  realPositions : option (Obj.t Rect);
  endingPositions : Obj.t Rect;
  domNodes : Obj.t (option NodeId);
  leavingKeys : option (Obj.t bool);
  store : list (Obj.t Child);
  surface : Surface;
  styles : Styles;
  listeners : list (NodeId * Listener);
  frames : list Callback;
  log : list Event
}.

Definition set_props v (w : World) : World :=
  {| props := v;
     stateChildren := stateChildren w;
     pendingState := pendingState w;
     childRefs := childRefs w;
     children := children w;
     animations := animations w;
     startingPositions := startingPositions w;
     realPositions := realPositions w;
     endingPositions := endingPositions w;
     domNodes := domNodes w;
     leavingKeys := leavingKeys w;
     store := store w;
     surface := surface w;
     styles := styles w;
     listeners := listeners w;
     frames := frames w;
     log := log w |}.

Definition set_stateChildren v (w : World) : World :=
  {| props := props w;
     stateChildren := v;
     pendingState := pendingState w;
     childRefs := childRefs w;
     children := children w;
     animations := animations w;
     startingPositions := startingPositions w;
     realPositions := realPositions w;
     endingPositions := endingPositions w;
     domNodes := domNodes w;
     leavingKeys := leavingKeys w;
     store := store w;
     surface := surface w;
     styles := styles w;
     listeners := listeners w;
     frames := frames w;
     log := log w |}.

Definition set_pendingState v (w : World) : World :=
  {| props := props w;
     stateChildren := stateChildren w;
     pendingState := v;
     childRefs := childRefs w;
     children := children w;
     animations := animations w;
     startingPositions := startingPositions w;
     realPositions := realPositions w;
     endingPositions := endingPositions w;
     domNodes := domNodes w;
     leavingKeys := leavingKeys w;
     store := store w;
     surface := surface w;
     styles := styles w;
     listeners := listeners w;
     frames := frames w;
     log := log w |}.

Definition set_childRefs v (w : World) : World :=
  {| props := props w;
     stateChildren := stateChildren w;
     pendingState := pendingState w;
     childRefs := v;
     children := children w;
     animations := animations w;
     startingPositions := startingPositions w;
     realPositions := realPositions w;
     endingPositions := endingPositions w;
     domNodes := domNodes w;
     leavingKeys := leavingKeys w;
     store := store w;
     surface := surface w;
     styles := styles w;
     listeners := listeners w;
     frames := frames w;
     log := log w |}.

Definition set_children v (w : World) : World :=
  {| props := props w;
     stateChildren := stateChildren w;
     pendingState := pendingState w;
     childRefs := childRefs w;
     children := v;
     animations := animations w;
     startingPositions := startingPositions w;
     realPositions := realPositions w;
     endingPositions := endingPositions w;
     domNodes := domNodes w;
     leavingKeys := leavingKeys w;
     store := store w;
     surface := surface w;
     styles := styles w;
     listeners := listeners w;
     frames := frames w;
     log := log w |}.

Definition set_animations v (w : World) : World :=
  {| props := props w;
     stateChildren := stateChildren w;
     pendingState := pendingState w;
     childRefs := childRefs w;
     children := children w;
     animations := v;
     startingPositions := startingPositions w;
     realPositions := realPositions w;
     endingPositions := endingPositions w;
     domNodes := domNodes w;
     leavingKeys := leavingKeys w;
     store := store w;
     surface := surface w;
     styles := styles w;
     listeners := listeners w;
     frames := frames w;
     log := log w |}.

Definition set_startingPositions v (w : World) : World :=
  {| props := props w;
     stateChildren := stateChildren w;
     pendingState := pendingState w;
     childRefs := childRefs w;
     children := children w;
     animations := animations w;
     startingPositions := v;
     realPositions := realPositions w;
     endingPositions := endingPositions w;
     domNodes := domNodes w;
     leavingKeys := leavingKeys w;
     store := store w;
     surface := surface w;
     styles := styles w;
     listeners := listeners w;
     frames := frames w;
     log := log w |}.

Definition set_realPositions v (w : World) : World :=
  {| props := props w;
     stateChildren := stateChildren w;
     pendingState := pendingState w;
     childRefs := childRefs w;
     children := children w;
     animations := animations w;
     startingPositions := startingPositions w;
     realPositions := v;
     endingPositions := endingPositions w;
     domNodes := domNodes w;
     leavingKeys := leavingKeys w;
     store := store w;
     surface := surface w;
     styles := styles w;
     listeners := listeners w;
     frames := frames w;
     log := log w |}.

Definition set_endingPositions v (w : World) : World :=
  {| props := props w;
     stateChildren := stateChildren w;
     pendingState := pendingState w;
     childRefs := childRefs w;
     children := children w;
     animations := animations w;
     startingPositions := startingPositions w;
     realPositions := realPositions w;
     endingPositions := v;
     domNodes := domNodes w;
     leavingKeys := leavingKeys w;
     store := store w;
     surface := surface w;
     styles := styles w;
     listeners := listeners w;
     frames := frames w;
     log := log w |}.

Definition set_domNodes v (w : World) : World :=
  {| props := props w;
     stateChildren := stateChildren w;
     pendingState := pendingState w;
     childRefs := childRefs w;
     children := children w;
     animations := animations w;
     startingPositions := startingPositions w;
     realPositions := realPositions w;
     endingPositions := endingPositions w;
     domNodes := v;
     leavingKeys := leavingKeys w;
     store := store w;
     surface := surface w;
     styles := styles w;
     listeners := listeners w;
     frames := frames w;
     log := log w |}.

Definition set_leavingKeys v (w : World) : World :=
  {| props := props w;
     stateChildren := stateChildren w;
     pendingState := pendingState w;
     childRefs := childRefs w;
     children := children w;
     animations := animations w;
     startingPositions := startingPositions w;
     realPositions := realPositions w;
     endingPositions := endingPositions w;
     domNodes := domNodes w;
     leavingKeys := v;
     store := store w;
     surface := surface w;
     styles := styles w;
     listeners := listeners w;
     frames := frames w;
     log := log w |}.

Definition set_store v (w : World) : World :=
  {| props := props w;
     stateChildren := stateChildren w;
     pendingState := pendingState w;
     childRefs := childRefs w;
     children := children w;
     animations := animations w;
     startingPositions := startingPositions w;
     realPositions := realPositions w;
     endingPositions := endingPositions w;
     domNodes := domNodes w;
     leavingKeys := leavingKeys w;
     store := v;
     surface := surface w;
     styles := styles w;
     listeners := listeners w;
     frames := frames w;
     log := log w |}.

Definition set_surface v (w : World) : World :=
  {| props := props w;
     stateChildren := stateChildren w;
     pendingState := pendingState w;
     childRefs := childRefs w;
     children := children w;
     animations := animations w;
     startingPositions := startingPositions w;
     realPositions := realPositions w;
     endingPositions := endingPositions w;
     domNodes := domNodes w;
     leavingKeys := leavingKeys w;
     store := store w;
     surface := v;
     styles := styles w;
     listeners := listeners w;
     frames := frames w;
     log := log w |}.

Definition set_styles v (w : World) : World :=
  {| props := props w;
     stateChildren := stateChildren w;
     pendingState := pendingState w;
     childRefs := childRefs w;
     children := children w;
     animations := animations w;
     startingPositions := startingPositions w;
     realPositions := realPositions w;
     endingPositions := endingPositions w;
     domNodes := domNodes w;
     leavingKeys := leavingKeys w;
     store := store w;
     surface := surface w;
     styles := v;
     listeners := listeners w;
     frames := frames w;
     log := log w |}.

Definition set_listeners v (w : World) : World :=
  {| props := props w;
     stateChildren := stateChildren w;
     pendingState := pendingState w;
     childRefs := childRefs w;
     children := children w;
     animations := animations w;
     startingPositions := startingPositions w;
     realPositions := realPositions w;
     endingPositions := endingPositions w;
     domNodes := domNodes w;
     leavingKeys := leavingKeys w;
     store := store w;
     surface := surface w;
     styles := styles w;
     listeners := v;
     frames := frames w;
     log := log w |}.

Definition set_frames v (w : World) : World :=
  {| props := props w;
     stateChildren := stateChildren w;
     pendingState := pendingState w;
     childRefs := childRefs w;
     children := children w;
     animations := animations w;
     startingPositions := startingPositions w;
     realPositions := realPositions w;
     endingPositions := endingPositions w;
     domNodes := domNodes w;
     leavingKeys := leavingKeys w;
     store := store w;
     surface := surface w;
     styles := styles w;
     listeners := listeners w;
     frames := v;
     log := log w |}.

Definition set_log v (w : World) : World :=
  {| props := props w;
     stateChildren := stateChildren w;
     pendingState := pendingState w;
     childRefs := childRefs w;
     children := children w;
     animations := animations w;
     startingPositions := startingPositions w;
     realPositions := realPositions w;
     endingPositions := endingPositions w;
     domNodes := domNodes w;
     leavingKeys := leavingKeys w;
     store := store w;
     surface := surface w;
     styles := styles w;
     listeners := listeners w;
     frames := frames w;
     log := v |}.

(** The mapping object at an address, and the one [this.children] and
    [this.state.children] denote (none when undefined). *)
Definition deref (a : Addr) (w : World) : Obj.t Child := nth a (store w) Obj.empty.

Definition mappingOf (r : option Addr) (w : World) : option (Obj.t Child) :=
  match r with Some a => Some (deref a w) | None => None end.

Fixpoint replaceAt {A} (i : nat) (x : A) (l : list A) : list A :=
  match l, i with
  | [], _ => []
  | _ :: l', O => x :: l'
  | y :: l', S i' => y :: replaceAt i' x l'
  end.

(** ** Outcomes: a method returns or throws, and its effects stay *)

Inductive Outcome (A : Type) :=
| Returned (a : A) (w : World)
| Thrown (w : World).
Arguments Thrown {A} w.

Definition M (A : Type) := World -> Outcome A.

Definition ret {A} (a : A) : M A := fun w => Returned a w.
Definition throw {A} : M A := fun w => Thrown w.
Definition bind {A B} (m : M A) (k : A -> M B) : M B :=
  fun w => match m w with
           | Returned a w' => k a w'
           | Thrown w' => Thrown w'
           end.
Definition worldOf {A} (o : Outcome A) : World :=
  match o with Returned _ w => w | Thrown w => w end.

Definition returns {A} (o : Outcome A) : bool :=
  match o with Returned _ _ => true | Thrown _ => false end.

Definition gets {A} (f : World -> A) : M A := fun w => Returned (f w) w.
Definition modify (f : World -> World) : M unit := fun w => Returned tt (f w).

Local Notation "x <- m ;; k" := (bind m (fun x => k))
  (at level 61, m at next level, right associativity).
Local Notation "m ;; k" := (bind m (fun _ => k))
  (at level 61, right associativity).

Definition emit (e : Event) : M unit := modify (fun w => set_log (log w ++ [e]) w).

(** [for (let key in o)] over the keys [o] had when the loop began. *)
Fixpoint forEach (ks : list string) (body : string -> M unit) : M unit :=
  match ks with
  | [] => ret tt
  | k :: ks' => body k ;; forEach ks' body
  end.

(** ** Primitive effects *)

Definition requestAnimationFrame (cb : Callback) : M unit :=
  emit (FrameRequested cb) ;;
  modify (fun w => set_frames (frames w ++ [cb]) w).

Definition addEventListener (n : NodeId) (l : Listener) : M unit :=
  emit (ListenerAdded n l) ;;
  modify (fun w => set_listeners (listeners w ++ [(n, l)]) w).

(** [this.setState({ children })]: the framework queues the new state and
    re-renders. *)
Definition setState (c : option Addr) : M unit :=
  emit (SetStateCalled c) ;;
  modify (set_pendingState (Some c)).

(** The warning package (development build): reports when the condition
    is false, and goes on. *)
Definition warning (cond : bool) (msg : string) : M unit :=
  if cond then ret tt else emit (Warned msg).

(** [node.style[p] = v] *)
Definition setStyle (n : NodeId) (p : StyleProp) (v : string) : M unit :=
  emit (StyleWritten n p v) ;;
  modify (fun w => set_styles (writeStyle n p v (styles w)) w).

(** [node.getBoundingClientRect()] *)
Definition measure (n : NodeId) : M Rect :=
  emit (Measured n) ;;
  gets (fun w => getBoundingClientRect (surface w) (styles w) n).

(** [this.domNodes[key]] where a node is needed: a property access on
    [null] or [undefined] throws. *)
Definition nodeOf (key : string) : M NodeId :=
  d <- gets (fun w => Obj.get key (domNodes w)) ;;
  match d with
  | Some (Some n) => ret n
  | _ => throw
  end.

(** [domNode ? domNode.getBoundingClientRect() : {}] for [this.domNodes[key]] *)
Definition snapshot (key : string) : M Rect :=
  d <- gets (fun w => Obj.get key (domNodes w)) ;;
  match d with
  | Some (Some n) => measure n
  | _ => ret EmptyObject
  end.

(** Keys of [this.children]; a for-in over [undefined] has none. *)
Definition childrenKeys (w : World) : list string :=
  match children w with
  | Some a => Obj.keys (deref a w)
  | None => []
  end.

(** [ReactDom.findDOMNode(this.childRefs[key])]; null for a missing or
    null ref. *)
Definition resolveNode (key : string) (w : World) : option NodeId :=
  match Obj.get key (childRefs w) with
  | Some (Some i) => findDOMNode (surface w) i
  | _ => None
  end.

(** ** The methods of AnimationGroup *)

Definition updateDomNodes : M unit :=
  ks <- gets childrenKeys ;;
  forEach ks (fun key =>
    modify (fun w => set_domNodes (Obj.set key (resolveNode key w) (domNodes w)) w)).

(** The closure stored in [this.animations[key]]. *)
Definition callCancel (c : Cancel) : M unit :=
  let 'CancelFor key := c in
  emit (CancelInvoked key) ;;
  n <- nodeOf key ;;
  setStyle n Transition "" ;;
  n' <- nodeOf key ;;
  setStyle n' Transform "" ;;
  modify (fun w => set_animations (Obj.del key (animations w)) w).

(** [this.animations[key]()] for a key still registered; a property deleted
    before the for-in reaches it is not visited. *)
Definition invokeRegistered (key : string) : M unit :=
  c <- gets (fun w => Obj.get key (animations w)) ;;
  match c with
  | Some c => callCancel c
  | None => ret tt
  end.

(** [for (let key in this.animations) this.animations[key]();] *)
Definition cancelAll : M unit :=
  ks <- gets (fun w => Obj.keys (animations w)) ;;
  forEach ks invokeRegistered.

Definition construct (p : Props) (sf : Surface) (st : Styles) : World :=
  let mapping := getChildMapping (propChildren p) in
  {| props := p;
     stateChildren := match mapping with Some _ => Some 0 | None => None end;
     pendingState := None;
     childRefs := Obj.empty;
     children := None;
     animations := Obj.empty;
     startingPositions := Obj.empty;
     realPositions := None;
     endingPositions := Obj.empty;
     domNodes := Obj.empty;
     leavingKeys := None;
     store := match mapping with Some m => [m] | None => [] end;
     surface := sf;
     styles := st;
     listeners := [];
     frames := [];
     log := [] |}.

Definition componentWillMount : M unit :=
  modify (set_animations Obj.empty) ;;
  modify (set_startingPositions Obj.empty) ;;
  modify (set_endingPositions Obj.empty) ;;
  modify (set_domNodes Obj.empty).

Definition componentDidMount : M unit := updateDomNodes.

(** A fresh mapping object. *)
Definition alloc (m : Obj.t Child) : M Addr :=
  a <- gets (fun w => List.length (store w)) ;;
  modify (fun w => set_store (store w ++ [m]) w) ;;
  ret a.

Definition truthy (c : option Child) : bool :=
  match c with Some (Some _) => true | _ => false end.

Definition componentWillReceiveProps (nextProps : Props) : M unit :=
  let nextChildMapping := getChildMapping (propChildren nextProps) in
  prevChildMapping <- gets (fun w => mappingOf (stateChildren w) w) ;;
  a <- alloc (mergeChildMappings prevChildMapping nextChildMapping) ;;
  modify (set_children (Some a)) ;;
  setState (Some a) ;;
  modify (set_leavingKeys (Some Obj.empty)) ;;
  forEach (match prevChildMapping with Some m => Obj.keys m | None => [] end)
    (fun key =>
       let hasNext := match nextChildMapping with
                      | Some next => Obj.has key next
                      | None => false
                      end in
       if truthy (match prevChildMapping with
                  | Some m => Obj.get key m
                  | None => None
                  end) && negb hasNext
       then modify (fun w =>
              set_leavingKeys
                (match leavingKeys w with
                 | Some lk => Some (Obj.set key true lk)
                 | None => None
                 end) w)
       else ret tt).

Definition componentWillUpdate : M unit :=
  modify (set_startingPositions Obj.empty) ;;
  updateDomNodes ;;
  ks <- gets childrenKeys ;;
  forEach ks (fun key =>
    r <- snapshot key ;;
    modify (fun w => set_startingPositions (Obj.set key r (startingPositions w)) w)).

Definition captureReal : M unit :=
  modify (set_realPositions (Some Obj.empty)) ;;
  ks <- gets childrenKeys ;;
  forEach ks (fun key =>
    r <- snapshot key ;;
    modify (fun w =>
      set_realPositions
        (match realPositions w with
         | Some rp => Some (Obj.set key r rp)
         | None => None
         end) w)).

(** The loop over [this.leavingKeys] that fills [originalDisplays]. *)
Fixpoint hideLeaving (ks : list string) (originalDisplays : Obj.t string)
  : M (Obj.t string) :=
  match ks with
  | [] => ret originalDisplays
  | key :: ks' =>
      d <- gets (fun w => Obj.get key (domNodes w)) ;;
      match d with
      | Some (Some n) =>
          v <- gets (fun w => styles w n Display) ;;
          setStyle n Display "none" ;;
          hideLeaving ks' (Obj.set key v originalDisplays)
      | _ => hideLeaving ks' originalDisplays
      end
  end.

Definition captureEnding : M unit :=
  modify (set_endingPositions Obj.empty) ;;
  ks <- gets childrenKeys ;;
  forEach ks (fun key =>
    r <- snapshot key ;;
    modify (fun w => set_endingPositions (Obj.set key r (endingPositions w)) w)).

Definition restoreDisplays (originalDisplays : Obj.t string) : M unit :=
  forEach (Obj.keys originalDisplays) (fun key =>
    n <- nodeOf key ;;
    match Obj.get key originalDisplays with
    | Some v => setStyle n Display v
    | None => ret tt
    end).

Definition leavingKeyList (w : World) : list string :=
  match leavingKeys w with
  | Some lk => Obj.keys lk
  | None => []
  end.

(** Lines 89-113: hide the leaving nodes, take the ending snapshot, put the
    display values back. *)
Definition captureEndingHidden : M unit :=
  lks <- gets leavingKeyList ;;
  originalDisplays <- hideLeaving lks Obj.empty ;;
  captureEnding ;;
  restoreDisplays originalDisplays.

Definition planAnimations : M (Obj.t Descriptor) :=
  ks <- gets childrenKeys ;;
  w <- gets (fun w => w) ;;
  match realPositions w with
  | Some rp =>
      match calcAnimations ks (startingPositions w) rp (endingPositions w) Obj.empty with
      | Some anims => ret anims
      | None => throw
      end
  | None => match ks with [] => ret Obj.empty | _ => throw end
  end.

(** "creating the animations with their cancelation functions" *)
Definition installAnimations (anims : Obj.t Descriptor) : M unit :=
  forEach (Obj.keys anims) (fun key =>
    modify (fun w => set_animations (Obj.set key (CancelFor key) (animations w)) w) ;;
    n <- nodeOf key ;;
    match Obj.get key anims with
    | Some d => setStyle n Transform (startTransform d)
    | None => throw
    end).

Definition transitionCss : string := "transform 0.5s cubic-bezier(0,0,0.32,1)".

Definition componentDidUpdate (prevProps : Props) : M unit :=
  p <- gets props ;;
  if sameProps prevProps p then ret tt
  else
    updateDomNodes ;;
    cancelAll ;;
    captureReal ;;
    captureEndingHidden ;;
    anims <- planAnimations ;;
    installAnimations anims ;;
    requestAnimationFrame (ArmTransitions anims).

(** The transitionend listener of [key]. *)
Definition onTransitionEnd (key : string) : M unit :=
  invokeRegistered key ;;
  lk <- gets leavingKeys ;;
  match lk with
  | None => throw
  | Some lk =>
      match Obj.get key lk with
      | Some true =>
          c <- gets children ;;
          match c with
          | None => throw
          | Some a =>
              modify (fun w => set_store (replaceAt a (Obj.del key (deref a w)) (store w)) w) ;;
              modify (fun w => set_childRefs (Obj.del key (childRefs w)) w) ;;
              modify (fun w => set_domNodes (Obj.del key (domNodes w)) w) ;;
              modify (fun w => set_startingPositions (Obj.del key (startingPositions w)) w) ;;
              modify (fun w => set_endingPositions (Obj.del key (endingPositions w)) w) ;;
              modify (set_leavingKeys (Some (Obj.del key lk))) ;;
              match Obj.keys (Obj.del key lk) with
              | [] =>
                  cancelAll ;;
                  c' <- gets children ;;
                  setState c'
              | _ => ret tt
              end
          end
      | _ => ret tt
      end
  end.

(** The callbacks run by the frame scheduler and by the node. *)
Definition runCallback (cb : Callback) : M unit :=
  match cb with
  | ArmTransitions anims =>
      forEach (Obj.keys anims) (fun key =>
        n <- nodeOf key ;;
        setStyle n Transition transitionCss) ;;
      requestAnimationFrame (RunTransitions anims)
  | RunTransitions anims =>
      forEach (Obj.keys anims) (fun key =>
        n <- nodeOf key ;;
        match Obj.get key anims with
        | Some d => setStyle n Transform (endTransform d)
        | None => throw
        end ;;
        n' <- nodeOf key ;;
        addEventListener n' (OnTransitionEnd key))
  end.

Definition runListener (l : Listener) : M unit :=
  let 'OnTransitionEnd key := l in onTransitionEnd key.

(** *** render *)

Definition stringRefWarning : string :=
  "string refs are not supported on children of AnimationGroup and will be ignored. Please use a callback ref instead: https://facebook.github.io/react/docs/refs-and-the-dom.html#the-ref-callback-attribute".

(** The body of the loop of [render] for a truthy [child]. *)
Definition renderChild (key : string) (child : Element) : M Cloned :=
  p <- gets props ;;
  let isCb := isCallbackRef child in
  match Obj.get "childFactory" (fields p) with
  | Some (PChildFactory childFactory) =>
      let factoryChild := childFactory child in
      let ref := TrackFn key in
      warning isCb stringRefWarning ;;
      let ref := if sameElement factoryChild child && isCb
                 then chain (el_ref child) ref
                 else ref in
      ret {| c_source := factoryChild; c_key := key; c_ref := ref |}
  | _ => throw
  end.

Fixpoint renderChildren (ks : list string) (m : Obj.t Child)
    (childrenToRender : list Cloned) : M (list Cloned) :=
  match ks with
  | [] => ret childrenToRender
  | key :: ks' =>
      match Obj.get key m with
      | Some (Some child) =>
          c <- renderChild key child ;;
          renderChildren ks' m (childrenToRender ++ [c])
      | _ => renderChildren ks' m childrenToRender
      end
  end.

(** The properties [render] deletes from its copy of the props, in order. *)
Definition strippedProps : list string :=
  [ "transitionLeave"; "transitionName"; "transitionAppear"; "transitionEnter";
    "childFactory"; "transitionLeaveTimeout"; "transitionEnterTimeout";
    "transitionAppearTimeout"; "component" ]%string.

Definition stripProps (o : Obj.t PropValue) : Obj.t PropValue :=
  fold_left (fun o k => Obj.del k o) strippedProps o.

Definition render : M Rendered :=
  sc <- gets (fun w => mappingOf (stateChildren w) w) ;;
  let m := match sc with Some m => m | None => Obj.empty end in
  childrenToRender <- renderChildren (Obj.keys m) m [] ;;
  p <- gets props ;;
  ret {| out_type := Obj.get "component" (fields p);
         out_props := stripProps (fields p);
         out_children := childrenToRender |}.

(** ** The framework's side of the protocol *)

(** The queued state becomes [this.state] before the next render. *)
Definition commitState : M unit :=
  modify (fun w =>
    match pendingState w with
    | Some c => set_pendingState None (set_stateChildren c w)
    | None => w
    end).

(** Mounting: componentWillMount, the first render, the ref callbacks of
    the mounted children (which leave [refs] in [this.childRefs]), then
    componentDidMount. *)
Definition mount (refs : Obj.t (option Instance_)) : M Rendered :=
  componentWillMount ;;
  out <- render ;;
  modify (set_childRefs refs) ;;
  componentDidMount ;;
  ret out.

(** A props update: componentWillReceiveProps, componentWillUpdate, the new
    props and state, render, the commit that leaves surface [sf] and refs
    [refs], then componentDidUpdate with the previous props. *)
Definition applyProps (nextProps : Props) (sf : Surface)
    (refs : Obj.t (option Instance_)) : M Rendered :=
  componentWillReceiveProps nextProps ;;
  componentWillUpdate ;;
  modify (set_props nextProps) ;;
  commitState ;;
  out <- render ;;
  modify (set_surface sf) ;;
  modify (set_childRefs refs) ;;
  ret out.

Definition receiveProps (nextProps : Props) (sf : Surface)
    (refs : Obj.t (option Instance_)) : M Rendered :=
  prevProps <- gets props ;;
  out <- applyProps nextProps sf refs ;;
  componentDidUpdate prevProps ;;
  ret out.

(** A state update (the re-render [setState] asks for): the props object
    stays the one it was. *)
Definition rerender (sf : Surface) : M Rendered :=
  prevProps <- gets props ;;
  componentWillUpdate ;;
  commitState ;;
  out <- render ;;
  modify (set_surface sf) ;;
  componentDidUpdate prevProps ;;
  ret out.

(** A frame: the callbacks queued so far run in the order they were
    requested; what they request waits for the next frame. *)
Fixpoint runCallbacks (cbs : list Callback) : M unit :=
  match cbs with
  | [] => ret tt
  | cb :: cbs' => runCallback cb ;; runCallbacks cbs'
  end.

Definition nextFrame : M unit :=
  cbs <- gets frames ;;
  modify (set_frames []) ;;
  runCallbacks cbs.

(** Transition-end notifications delivered one after the other. *)
Fixpoint fire (ks : list string) : M unit :=
  match ks with
  | [] => ret tt
  | key :: ks' => onTransitionEnd key ;; fire ks'
  end.

End Component.

Arguments Returned {host A} a w.
Arguments Thrown {host A} w.

Notation "x <- m ;; k" := (bind m (fun x => k))
  (at level 61, m at next level, right associativity).
Notation "m ;; k" := (bind m (fun _ => k))
  (at level 61, right associativity).

(** ** A small host to run the component on

    Nodes are blocks 100 wide and 20 high, stacked from the top of the page
    in document order with a left margin of 8; a node with [display: none]
    has an empty box and takes no room. Instances are their own nodes. *)

Module Stack.

Fixpoint boxOf (sf : list NodeId) (st : Styles) (n : NodeId) (y : Z) : Rect :=
  match sf with
  | [] => DOMRect 0 0 0 0
  | m :: sf' =>
      if String.eqb (st m Display) "none"
      then (if Nat.eqb m n then DOMRect 0 0 0 0 else boxOf sf' st n y)
      else (if Nat.eqb m n then DOMRect 8 y 100 20 else boxOf sf' st n (y + 20))
  end.

Definition mappingOfList (cs : list Element) : Obj.t Child :=
  fold_left (fun o c => Obj.set (el_key c) (Some c) o) cs Obj.empty.

Definition merge (prev next : option (Obj.t Child)) : Obj.t Child :=
  let p := match prev with Some m => m | None => Obj.empty end in
  let n := match next with Some m => m | None => Obj.empty end in
  fold_left (fun o kv => if Obj.has (fst kv) o then o else Obj.set (fst kv) (snd kv) o) p n.

Definition host : Host :=
  {| Instance_ := NodeId;
     Surface := list NodeId;
     getChildMapping := fun cs =>
       match cs with Some (c :: cs') => Some (mappingOfList (c :: cs')) | _ => None end;
     mergeChildMappings := merge;
     findDOMNode := fun sf i => if existsb (Nat.eqb i) sf then Some i else None;
     getBoundingClientRect := fun sf st n => boxOf sf st n 0 |}.

Definition noStyles : Styles := fun _ _ => ""%string.

Definition el (id : nat) (key : string) (r : Ref) : Element :=
  {| el_id := id; el_type := "li"; el_key := key; el_ref := r |}.

Definition identityFactory : PropValue := PChildFactory (fun child => child).

Definition propsOf (id : nat) (cs : list Element) : Props :=
  {| props_id := id;
     fields := [ ("component", PComponent "ul"); ("childFactory", identityFactory);
                 ("children", PChildren cs); ("className", POther "list");
                 ("transitionName", POther "fade") ]%string |}.

Definition a : Element := el 1 "a" RefNull.
Definition b : Element := el 2 "b" (RefCallback (OwnerFn 7)).
Definition c : Element := el 3 "c" (RefString "item").

Definition refsOf (ns : list (string * nat)) : Obj.t (option NodeId) :=
  map (fun kn => (fst kn, Some (snd kn))) ns.

(** [a] and [b] mounted. *)
Definition mounted : World (host := host) :=
  worldOf (mount (host := host) (refsOf [("a", 1); ("b", 2)]%string)
             (construct (host := host) (propsOf 1 [a; b]) [1; 2] noStyles)).

(** Then [c] is inserted between them: [b] moves down, [c] enters. *)
Definition inserted : World (host := host) :=
  worldOf (receiveProps (host := host) (propsOf 2 [a; c; b]) [1; 3; 2]
             (refsOf [("a", 1); ("b", 2); ("c", 3)]%string) mounted).

Definition allRefs : Obj.t (option NodeId) :=
  refsOf [("a", 1); ("b", 2); ("c", 3)]%string.

(** [c] and [a] are taken out while the animations of the insertion are
    still registered: the world as componentDidUpdate finds it. *)
Definition interrupting : World (host := host) :=
  worldOf (applyProps (host := host) (propsOf 3 [b]) [1; 3; 2] allRefs inserted).

(** The same update inside componentDidUpdate, just before the leaving
    nodes are hidden. *)
Definition capturing : World (host := host) :=
  worldOf ((updateDomNodes (host := host) ;; cancelAll ;; captureReal) interrupting).

(** The insertion runs to its end: two frames, then the two transitions
    complete. *)
Definition settled : World (host := host) :=
  worldOf ((nextFrame (host := host) ;; nextFrame ;; fire ["c"; "b"]%string) inserted).

(** Then [c] and [a] are taken out, and two frames pass. *)
Definition leaving : World (host := host) :=
  worldOf ((receiveProps (host := host) (propsOf 3 [b]) [1; 3; 2] allRefs ;;
            nextFrame ;; nextFrame) settled).

(** The transitions of [b] and [c] have completed; [a] is still leaving. *)
Definition lastLeaving : World (host := host) :=
  worldOf (fire (host := host) ["b"; "c"]%string leaving).

End Stack.

(** ** Vocabulary of the properties *)

(** The three positions the planner compares are the same position. *)
Definition allEqual (a b c : JS.value * JS.value) : Prop := a = b /\ b = c.

Definition herePos (real : Rect) : JS.value * JS.value := (r_left real, r_top real).

(** A snapshot of zero width and zero height; the empty object of a key
    without a node counts as one. *)
Definition zeroSized (snap : Rect) : Prop :=
  snap = EmptyObject \/ exists l t, snap = DOMRect l t 0 0.

(** What [render] hands to [React.cloneElement] for a truthy child, given
    the factory of the props. *)
Definition clonedChild (childFactory : Element -> Element) (key : string)
    (child : Element) : Cloned :=
  {| c_source := childFactory child;
     c_key := key;
     c_ref := if sameElement (childFactory child) child && isCallbackRef child
              then chain (el_ref child) (TrackFn key)
              else TrackFn key |}.

Fixpoint renderedChildren (childFactory : Element -> Element)
    (ks : list string) (m : Obj.t Child) : list Cloned :=
  match ks with
  | [] => []
  | key :: ks' =>
      match Obj.get key m with
      | Some (Some child) =>
          clonedChild childFactory key child :: renderedChildren childFactory ks' m
      | _ => renderedChildren childFactory ks' m
      end
  end.

Fixpoint renderWarnings (ks : list string) (m : Obj.t Child) : list Event :=
  match ks with
  | [] => []
  | key :: ks' =>
      match Obj.get key m with
      | Some (Some child) =>
          if isCallbackRef child then renderWarnings ks' m
          else Warned stringRefWarning :: renderWarnings ks' m
      | _ => renderWarnings ks' m
      end
  end.

(** [this.state.children] as [render] reads it. *)
Definition visibleChildren {host : Host} (w : World) : Obj.t Child :=
  match mappingOf (stateChildren w) w with
  | Some m => m
  | None => Obj.empty
  end.

Definition isWarning (e : Event) : Prop := exists msg, e = Warned msg.

(** A computation only appends to the log, and what it appends satisfies
    [Q], whether it returns or throws. *)
Definition emits {host : Host} {A} (Q : Event -> Prop) (m : M A) : Prop :=
  forall w, exists l, log (worldOf (m w)) = log w ++ l /\ Forall Q l.

(** What a cancel closure does to the outside. *)
Definition cancelEvent (e : Event) : Prop :=
  (exists key, e = CancelInvoked key) \/
  (exists n, e = StyleWritten n Transition "") \/
  (exists n, e = StyleWritten n Transform "").

(** Every closure in the registry is the one of its key. *)
Definition registryWf {host : Host} (w : World) : Prop :=
  forall k c, Obj.get k (animations w) = Some c -> c = CancelFor k.

(** Every registered key has a node. *)
Definition nodesForRegistered {host : Host} (w : World) : Prop :=
  forall k, Obj.get k (animations w) <> None ->
    exists n, Obj.get k (domNodes w) = Some (Some n).



(** The world a cancel closure of [key] leaves when the node is [n]. *)
Definition cancelled {host : Host} (key : string) (n : NodeId) (w : World) : World :=
  set_animations (Obj.del key (animations w))
    (set_styles (writeStyle n Transform "" (writeStyle n Transition "" (styles w)))
       (set_log (log w ++ [CancelInvoked key; StyleWritten n Transition "";
                           StyleWritten n Transform ""]) w)).

(** [findDOMNode] of the ref stored under a key, and the node references
    after a refresh over [ks]. *)
Definition lookupNode {host : Host} (refs : Obj.t (option Instance_))
    (sf : Surface) (key : string) : option NodeId :=
  match Obj.get key refs with
  | Some (Some i) => findDOMNode sf i
  | _ => None
  end.

Definition refreshNodes {host : Host} (refs : Obj.t (option Instance_))
    (sf : Surface) (ks : list string) (d : Obj.t (option NodeId))
  : Obj.t (option NodeId) :=
  fold_left (fun d key => Obj.set key (lookupNode refs sf key) d) ks d.

(** The world after a run of cancel closures differs from the one before
    in the registry, the styles and the log only. *)
Definition cancelFrame {host : Host} (w w' : World) (l : list Event) : Prop :=
  exists a s, w' = set_animations a (set_styles s (set_log (log w ++ l) w)).

(** *** The hide, capture and restore sequence, loop by loop *)

Definition nodeIs (dn : Obj.t (option NodeId)) (n : NodeId) (k : string) : bool :=
  match Obj.get k dn with
  | Some (Some m) => Nat.eqb m n
  | _ => false
  end.

(** [n] is the node of one of the keys [ks]. *)
Definition hides (dn : Obj.t (option NodeId)) (ks : list string) (n : NodeId) : bool :=
  existsb (nodeIs dn n) ks.

Fixpoint hiddenStyles (dn : Obj.t (option NodeId)) (ks : list string)
    (st : Styles) : Styles :=
  match ks with
  | [] => st
  | k :: ks' =>
      match Obj.get k dn with
      | Some (Some n) => hiddenStyles dn ks' (writeStyle n Display "none" st)
      | _ => hiddenStyles dn ks' st
      end
  end.

Fixpoint savedDisplays (dn : Obj.t (option NodeId)) (ks : list string)
    (st : Styles) (od : Obj.t string) : Obj.t string :=
  match ks with
  | [] => od
  | k :: ks' =>
      match Obj.get k dn with
      | Some (Some n) =>
          savedDisplays dn ks' (writeStyle n Display "none" st)
            (Obj.set k (st n Display) od)
      | _ => savedDisplays dn ks' st od
      end
  end.

Fixpoint hideEvents (dn : Obj.t (option NodeId)) (ks : list string) : list Event :=
  match ks with
  | [] => []
  | k :: ks' =>
      match Obj.get k dn with
      | Some (Some n) => StyleWritten n Display "none" :: hideEvents dn ks'
      | _ => hideEvents dn ks'
      end
  end.

(** The snapshot of a key when the boxes of the nodes are [box]. *)
Definition snapOf (dn : Obj.t (option NodeId)) (box : NodeId -> Rect)
    (k : string) : Rect :=
  match Obj.get k dn with
  | Some (Some n) => box n
  | _ => EmptyObject
  end.

Definition snapshotsOf (dn : Obj.t (option NodeId)) (box : NodeId -> Rect)
    (ks : list string) (acc : Obj.t Rect) : Obj.t Rect :=
  fold_left (fun acc k => Obj.set k (snapOf dn box k) acc) ks acc.

Fixpoint measureEvents (dn : Obj.t (option NodeId)) (ks : list string) : list Event :=
  match ks with
  | [] => []
  | k :: ks' =>
      match Obj.get k dn with
      | Some (Some n) => Measured n :: measureEvents dn ks'
      | _ => measureEvents dn ks'
      end
  end.

Fixpoint restoredStyles (dn : Obj.t (option NodeId)) (od : Obj.t string)
    (ks : list string) (st : Styles) : Styles :=
  match ks with
  | [] => st
  | k :: ks' =>
      match Obj.get k dn, Obj.get k od with
      | Some (Some n), Some v => restoredStyles dn od ks' (writeStyle n Display v st)
      | _, _ => restoredStyles dn od ks' st
      end
  end.

Fixpoint restoreEvents (dn : Obj.t (option NodeId)) (od : Obj.t string)
    (ks : list string) : list Event :=
  match ks with
  | [] => []
  | k :: ks' =>
      match Obj.get k dn, Obj.get k od with
      | Some (Some n), Some v => StyleWritten n Display v :: restoreEvents dn od ks'
      | _, _ => restoreEvents dn od ks'
      end
  end.

(** An event of the sequence: a measurement, or a write of the display of
    the node of a leaving key. *)
Definition hideCaptureEvent (dn : Obj.t (option NodeId)) (lks : list string)
    (e : Event) : Prop :=
  (exists n, e = Measured n) \/
  (exists k n v, In k lks /\ Obj.get k dn = Some (Some n) /\
                 e = StyleWritten n Display v).

(** No two of the keys [ks] share a node. *)
Definition distinctOn (dn : Obj.t (option NodeId)) (ks : list string) : Prop :=
  forall k1 k2 n, In k1 ks -> In k2 ks ->
    Obj.get k1 dn = Some (Some n) -> Obj.get k2 dn = Some (Some n) -> k1 = k2.

(** No two keys share a node. *)
Definition nodesDistinct {host : Host} (w : World) : Prop :=
  forall k1 k2 n,
    Obj.get k1 (domNodes w) = Some (Some n) ->
    Obj.get k2 (domNodes w) = Some (Some n) -> k1 = k2.

(** [nextChildMapping && nextChildMapping.hasOwnProperty(key)] *)
Definition nextHas {host : Host} (nextProps : Props) (key : string) : bool :=
  match getChildMapping (propChildren nextProps) with
  | Some next => Obj.has key next
  | None => false
  end.

(** The leaving keys componentWillReceiveProps collects over [ks]. *)
Definition leavingFrom {host : Host} (prev : option (Obj.t Child))
    (nextProps : Props) (ks : list string) (lk : Obj.t bool) : Obj.t bool :=
  fold_left
    (fun lk key =>
       if truthy (match prev with Some m => Obj.get key m | None => None end)
          && negb (nextHas nextProps key)
       then Obj.set key true lk else lk)
    ks lk.

Definition keysOf {V} (m : option (Obj.t V)) : list string :=
  match m with Some o => Obj.keys o | None => [] end.

(** The world componentWillReceiveProps leaves. *)
Definition received {host : Host} (nextProps : Props) (w : World) : World :=
  let prev := mappingOf (stateChildren w) w in
  let a := List.length (store w) in
  set_leavingKeys (Some (leavingFrom prev nextProps (keysOf prev) Obj.empty))
    (set_pendingState (Some (Some a))
       (set_log (log w ++ [SetStateCalled (Some a)])
          (set_children (Some a)
             (set_store
                (store w ++ [mergeChildMappings prev
                               (getChildMapping (propChildren nextProps))])
                w)))).

(** *** The transitionend listener *)

Definition isSetState (e : Event) : bool :=
  match e with SetStateCalled _ => true | _ => false end.

(** How many times [setState] was called in a run of events. *)
Definition setStateCalls (l : list Event) : nat := List.length (filter isSetState l).

(** The state the listeners run in, between two updates: the registry holds
    the closure of each of its keys and each has a node; [this.children] is
    the object [this.state.children] is (componentWillReceiveProps made it
    so and the framework committed it); the leaving keys are marked [true]. *)
Definition listening {host : Host} (w : World) (a : Addr) (lk : Obj.t bool) : Prop :=
  registryWf w /\ nodesForRegistered w /\
  leavingKeys w = Some lk /\
  (forall k v, Obj.get k lk = Some v -> v = true) /\
  children w = Some a /\ stateChildren w = Some a /\
  a < List.length (store w).

(** Every key of [L] is still marked leaving or is gone from the visible
    mapping. *)
Definition leavingOrGone {host : Host} (L : list string) (w : World) : Prop :=
  forall k, In k L ->
    In k (leavingKeyList w) \/ Obj.get k (visibleChildren w) = None.

(** The world after the six deletions of the listener. *)
Definition purged {host : Host} (key : string) (a : Addr) (lk : Obj.t bool)
    (w : World) : World :=
  set_leavingKeys (Some (Obj.del key lk))
    (set_endingPositions (Obj.del key (endingPositions w))
       (set_startingPositions (Obj.del key (startingPositions w))
          (set_domNodes (Obj.del key (domNodes w))
             (set_childRefs (Obj.del key (childRefs w))
                (set_store (replaceAt a (Obj.del key (deref a w)) (store w)) w))))).

(** The world after [this.setState({ children: this.children })]. *)
Definition stateSet {host : Host} (w : World) : World :=
  set_pendingState (Some (children w))
    (set_log (log w ++ [SetStateCalled (children w)]) w).

(** A property of the world survives a computation, whether it returns or
    throws. *)
Definition preserves {host : Host} {A} (I : World -> Prop) (m : M A) : Prop :=
  forall w, I w -> I (worldOf (m w)).

(** What the update and the frames leave alone: the object [this.children]
    and [this.state.children] both are, and the leaving keys. *)
Definition batchFields {host : Host} (a : Addr) (lk : Obj.t bool) (w : World) : Prop :=
  children w = Some a /\ stateChildren w = Some a /\
  a < List.length (store w) /\ leavingKeys w = Some lk.

(** Every key of the merged mapping has its three snapshots. *)
Definition snapshotsComplete {host : Host} (w : World) (rp : Obj.t Rect) : Prop :=
  realPositions w = Some rp /\
  forall k, In k (childrenKeys w) ->
    Obj.get k (startingPositions w) <> None /\
    Obj.get k rp <> None /\
    Obj.get k (endingPositions w) <> None.

(** *** The two frame callbacks *)

(** The events and the styles of the first callback over [ks]. *)
Fixpoint armEvents (dn : Obj.t (option NodeId)) (ks : list string) : list Event :=
  match ks with
  | [] => []
  | k :: ks' =>
      match Obj.get k dn with
      | Some (Some n) => StyleWritten n Transition transitionCss :: armEvents dn ks'
      | _ => armEvents dn ks'
      end
  end.

Fixpoint armedStyles (dn : Obj.t (option NodeId)) (ks : list string)
    (st : Styles) : Styles :=
  match ks with
  | [] => st
  | k :: ks' =>
      match Obj.get k dn with
      | Some (Some n) => armedStyles dn ks' (writeStyle n Transition transitionCss st)
      | _ => armedStyles dn ks' st
      end
  end.

(** The events, the styles and the listeners of the second callback. *)
Fixpoint moveEvents (dn : Obj.t (option NodeId)) (anims : Obj.t Descriptor)
    (ks : list string) : list Event :=
  match ks with
  | [] => []
  | k :: ks' =>
      match Obj.get k dn, Obj.get k anims with
      | Some (Some n), Some d =>
          StyleWritten n Transform (endTransform d)
            :: ListenerAdded n (OnTransitionEnd k) :: moveEvents dn anims ks'
      | _, _ => moveEvents dn anims ks'
      end
  end.

Fixpoint movedStyles (dn : Obj.t (option NodeId)) (anims : Obj.t Descriptor)
    (ks : list string) (st : Styles) : Styles :=
  match ks with
  | [] => st
  | k :: ks' =>
      match Obj.get k dn, Obj.get k anims with
      | Some (Some n), Some d =>
          movedStyles dn anims ks' (writeStyle n Transform (endTransform d) st)
      | _, _ => movedStyles dn anims ks' st
      end
  end.

Fixpoint listenersFor (dn : Obj.t (option NodeId)) (ks : list string)
  : list (NodeId * Listener) :=
  match ks with
  | [] => []
  | k :: ks' =>
      match Obj.get k dn with
      | Some (Some n) => (n, OnTransitionEnd k) :: listenersFor dn ks'
      | _ => listenersFor dn ks'
      end
  end.

(** Every key of [ks] has a node. *)
Definition haveNodes (dn : Obj.t (option NodeId)) (ks : list string) : Prop :=
  forall k, In k ks -> exists n, Obj.get k dn = Some (Some n).

(** ** Further runs on the Stack host *)

Module Runs.

(** [c] is inserted between [a] and [b] but its ref callback has stored
    nothing: the world as componentDidUpdate finds it. *)
Definition refless : World (host := Stack.host) :=
  worldOf (applyProps (host := Stack.host)
             (Stack.propsOf 2 [Stack.a; Stack.c; Stack.b]) [1; 3; 2]
             (Stack.refsOf [("a", 1); ("b", 2)]%string) Stack.mounted).

(** The refs of [a] and [b] only, after [c] was inserted and its animation
    registered: the refresh finds no node for [c]. *)
Definition unhooked : World (host := Stack.host) :=
  worldOf (updateDomNodes (host := Stack.host)
    (worldOf (applyProps (host := Stack.host)
                (Stack.propsOf 3 [Stack.a; Stack.c; Stack.b]) [1; 3; 2]
                (Stack.refsOf [("a", 1); ("b", 2)]%string) Stack.inserted))).

(** The animations planned by the insertion of [c]. *)
Definition plan : Obj.t Descriptor :=
  [("c", ({| transform := "translate(-108px, 0px)" |},
          {| transform := "translate(0px, 0px)" |}));
   ("b", ({| transform := "translate(0px, -20px)" |},
          {| transform := "translate(0px, 0px)" |}))]%string.

(** A component constructed with a [childFactory] that is not a function. *)
Definition factoryless : World (host := Stack.host) :=
  construct (host := Stack.host)
    {| props_id := 1;
       fields := [ ("component", PComponent "ul"); ("childFactory", POther "none");
                   ("children", PChildren [Stack.a; Stack.b]) ]%string |}
    [1; 2] Stack.noStyles.

(** The update that takes [c] and [a] out while the insertion is still
    registered, after its componentDidUpdate. *)
Definition interrupted : World (host := Stack.host) :=
  worldOf (componentDidUpdate (host := Stack.host)
             (Stack.propsOf 2 [Stack.a; Stack.c; Stack.b]) Stack.interrupting).

(** The same removal once the insertion has settled: before and after its
    componentDidUpdate. *)
Definition applied : World (host := Stack.host) :=
  worldOf (applyProps (host := Stack.host) (Stack.propsOf 3 [Stack.b]) [1; 3; 2]
             Stack.allRefs Stack.settled).

Definition removing : World (host := Stack.host) :=
  worldOf (componentDidUpdate (host := Stack.host)
             (Stack.propsOf 2 [Stack.a; Stack.c; Stack.b]) applied).

(** The last leaving key has just settled: the re-render that [setState]
    asked for is still to come. *)
Definition settling : World (host := Stack.host) :=
  worldOf (onTransitionEnd (host := Stack.host) "a"%string Stack.lastLeaving).

(** The insertion after its first frame. *)
Definition armed : World (host := Stack.host) :=
  worldOf (nextFrame (host := Stack.host) Stack.inserted).

End Runs.

(** * Facts *)

(** ** Dictionaries *)

Module ObjFacts.
Import Obj.
Section Dict.
Variable V : Type.
Implicit Types (o : Obj.t V) (k : string).

Lemma get_set_same k v o : get k (set k v o) = Some v.
Proof.
  induction o as [|[k' v'] o IH]; simpl.
  - now rewrite String.eqb_refl.
  - destruct (String.eqb k k') eqn:E; simpl; rewrite ?String.eqb_refl, ?E; auto.
Qed.

Lemma get_set_other k k' v o : k' <> k -> get k' (set k v o) = get k' o.
Proof.
  intros Hne. induction o as [|[k0 v0] o IH]; simpl.
  - destruct (String.eqb_spec k' k); congruence.
  - destruct (String.eqb_spec k k0) as [->|Hk]; simpl.
    + destruct (String.eqb_spec k' k0); congruence.
    + destruct (String.eqb_spec k' k0); auto.
Qed.

Lemma get_del_same k o : get k (del k o) = None.
Proof.
  induction o as [|[k' v'] o IH]; simpl; auto.
  destruct (String.eqb k k') eqn:E; simpl; rewrite ?E; auto.
Qed.

Lemma get_del_other k k' o : k' <> k -> get k' (del k o) = get k' o.
Proof.
  intros Hne. induction o as [|[k0 v0] o IH]; simpl; auto.
  destruct (String.eqb_spec k k0) as [->|Hk]; simpl.
  - destruct (String.eqb_spec k' k0); congruence.
  - destruct (String.eqb_spec k' k0); auto.
Qed.

Lemma get_in_keys k o : get k o <> None <-> In k (keys o).
Proof.
  induction o as [|[k' v'] o IH]; simpl.
  - tauto.
  - destruct (String.eqb_spec k k') as [->|Hk].
    + split; [auto | discriminate].
    + rewrite IH. split; [auto | intros [E|H]; [congruence | exact H]].
Qed.

Lemma get_none_keys k o : get k o = None <-> ~ In k (keys o).
Proof.
  rewrite <- get_in_keys. destruct (get k o); split; intros H; try congruence.
  exfalso; apply H; discriminate.
Qed.

Lemma keys_del k o : forall k', In k' (keys (del k o)) <-> In k' (keys o) /\ k' <> k.
Proof.
  intros k'. rewrite <- !get_in_keys.
  destruct (String.eqb_spec k' k) as [->|Hne].
  - rewrite get_del_same. tauto.
  - rewrite get_del_other by auto. tauto.
Qed.

Lemma get_In k v o : get k o = Some v -> In (k, v) o.
Proof.
  induction o as [|[k' v'] o IH]; simpl; [discriminate|].
  destruct (String.eqb_spec k k') as [->|Hne].
  - intros E. inversion E. subst. left. reflexivity.
  - intros E. right. now apply IH.
Qed.
Lemma keys_set_in k v o k' : In k' (keys (set k v o)) <-> k' = k \/ In k' (keys o).
Proof.
  rewrite <- !get_in_keys. destruct (String.eqb_spec k' k) as [->|Hne].
  - rewrite get_set_same. split; [auto | discriminate].
  - rewrite get_set_other by exact Hne. tauto.
Qed.

Lemma keys_set_NoDup k v o : NoDup (keys o) -> NoDup (keys (set k v o)).
Proof.
  induction o as [|[k0 v0] o IH]; simpl; intros H.
  - constructor; [intros [] | constructor].
  - inversion H as [|? ? Hnotin Hnd]. subst.
    destruct (String.eqb_spec k k0) as [->|Hne]; simpl.
    + constructor; assumption.
    + constructor; [|now apply IH].
      intros Hin. apply keys_set_in in Hin. destruct Hin as [->|Hin]; tauto.
Qed.
End Dict.
End ObjFacts.

Unset Implicit Arguments.

(** ** The planner *)

Lemma strictNeq_false a b :
  JS.strictNeq a b = false <-> a = b /\ a <> JS.NaN.
Proof.
  destruct a, b; simpl; split; try discriminate; try (intros [H _]; discriminate);
    try (intros [_ H]; congruence); try (split; [reflexivity | discriminate]).
  - intros H. apply negb_false_iff, Z.eqb_eq in H. subst. split; [auto | discriminate].
  - intros [H _]. inversion H. subst. now rewrite Z.eqb_refl.
Qed.

Lemma field_not_nan (real : Rect) : r_left real <> JS.NaN /\ r_top real <> JS.NaN.
Proof. destruct real; simpl; split; discriminate. Qed.

Lemma offStage_zeroSized snap : offStage snap = true <-> zeroSized snap.
Proof.
  unfold offStage, zeroSized. destruct snap as [|l t w h]; simpl.
  - split; auto.
  - rewrite andb_true_iff, !Z.eqb_eq. split.
    + intros [-> ->]. right. eauto.
    + intros [H|(l' & t' & H)]; [discriminate|]. inversion H; auto.
Qed.

Lemma planKey_none first real last :
  planKey first real last = None <->
  allEqual (resolve first real) (resolve last real) (herePos real).
Proof.
  unfold planKey, allEqual, herePos.
  destruct (resolve first real) as [sl st], (resolve last real) as [el et].
  destruct (field_not_nan real) as [NL NT].
  match goal with |- context [if ?c then _ else _] => destruct c eqn:C end.
  - split; [discriminate|]. intros [H1 H2]. inversion H1; inversion H2; subst.
    assert (E : forall v, v <> JS.NaN -> JS.strictNeq v v = false)
      by (intros v Hv; apply strictNeq_false; auto).
    rewrite !E in C by assumption. discriminate.
  - rewrite !orb_false_iff in C. destruct C as [[[A B] C] D].
    apply strictNeq_false in A, B, C, D.
    destruct A as [-> _], B as [-> _], C as [-> _], D as [-> _].
    split; auto.
Qed.

Lemma planKey_some first real last d :
  planKey first real last = Some d ->
  startTransform d =
    translate (JS.sub (fst (resolve first real)) (r_left real))
              (JS.sub (snd (resolve first real)) (r_top real)) /\
  endTransform d =
    translate (JS.sub (fst (resolve last real)) (r_left real))
              (JS.sub (snd (resolve last real)) (r_top real)).
Proof.
  unfold planKey.
  destruct (resolve first real) as [sl st], (resolve last real) as [el et].
  match goal with |- context [if ?c then _ else _] => destruct c end;
    [|discriminate].
  intros H. inversion H. subst. auto.
Qed.

(** What the loop leaves under a key: the plan of that key when the loop
    visits it, what was there before otherwise. *)
Lemma calcAnimations_get ks sp rp ep : forall acc anims,
  calcAnimations ks sp rp ep acc = Some anims ->
  forall key,
    (~ In key ks -> Obj.get key anims = Obj.get key acc) /\
    (In key ks -> forall first real last,
       Obj.get key sp = Some first -> Obj.get key rp = Some real ->
       Obj.get key ep = Some last ->
       Obj.get key anims =
         match planKey first real last with
         | Some d => Some d
         | None => Obj.get key acc
         end).
Proof.
  induction ks as [|k ks IH]; intros acc anims H key; simpl in H.
  - inversion H. subst. split; [auto | intros []].
  - destruct (Obj.get k sp) as [f|] eqn:Ef; [|discriminate].
    destruct (Obj.get k rp) as [r|] eqn:Er; [|discriminate].
    destruct (Obj.get k ep) as [l|] eqn:El; [|discriminate].
    specialize (IH _ _ H key). destruct IH as [IHout IHin].
    assert (Hacc : forall d, k <> key ->
              Obj.get key (Obj.set k d acc) = Obj.get key acc)
      by (intros; apply ObjFacts.get_set_other; congruence).
    split.
    + intros Hn. simpl in Hn. rewrite IHout by tauto.
      destruct (planKey f r l); [apply Hacc; tauto | reflexivity].
    + intros Hin first real last Hf Hr Hl.
      destruct (in_dec string_dec key ks) as [Hks|Hks].
      * rewrite (IHin Hks _ _ _ Hf Hr Hl).
        destruct (string_dec k key) as [->|Hne].
        -- rewrite Ef in Hf; rewrite Er in Hr; rewrite El in Hl.
           inversion Hf; inversion Hr; inversion Hl; subst.
           destruct (planKey first real last); reflexivity.
        -- destruct (planKey first real last); [reflexivity|].
           destruct (planKey f r l); auto.
      * destruct Hin as [->|Hin]; [|contradiction].
        rewrite IHout by assumption.
        rewrite Ef in Hf; rewrite Er in Hr; rewrite El in Hl.
        inversion Hf; inversion Hr; inversion Hl; subst.
        destruct (planKey first real last); auto.
        now rewrite ObjFacts.get_set_same.
Qed.

(** The loop completes when every key has its three snapshots. *)
Lemma calcAnimations_total ks sp rp ep : forall acc,
  (forall k, In k ks ->
     Obj.get k sp <> None /\ Obj.get k rp <> None /\ Obj.get k ep <> None) ->
  exists anims, calcAnimations ks sp rp ep acc = Some anims.
Proof.
  induction ks as [|k ks IH]; intros acc H; simpl; eauto.
  destruct (H k (or_introl eq_refl)) as (A & B & C).
  destruct (Obj.get k sp); [|congruence].
  destruct (Obj.get k rp); [|congruence].
  destruct (Obj.get k ep); [|congruence].
  apply IH. intros k' Hk'. apply H. now right.
Qed.

Section PlannerClaims.
Context {host : Host}.

(** With the three snapshots of every key in place, the planning step
    returns the result of the loop and leaves the world alone. *)
Lemma planAnimations_runs (w : World) rp :
  snapshotsComplete w rp ->
  exists anims,
    planAnimations w = Returned anims w /\
    calcAnimations (childrenKeys w) (startingPositions w) rp
      (endingPositions w) Obj.empty = Some anims.
Proof.
  intros [Hrp Hall].
  destruct (calcAnimations_total (childrenKeys w) (startingPositions w) rp
              (endingPositions w) Obj.empty Hall) as [anims Hc].
  exists anims. split; [|exact Hc].
  unfold planAnimations, bind, gets. rewrite Hrp, Hc. reflexivity.
Qed.

(** C1. For every key of the merged child mapping, with (startLeft,
    startTop) and (endLeft, endTop) as the planner resolves them and the
    real position of the key: a descriptor is emitted if and only if start,
    end and real position are not all equal; none is produced when they are;
    and an emitted descriptor has as startTransform the text
    [translate(], startLeft - real.left, [px, ], startTop - real.top, [px)]
    and as endTransform the same text over endLeft - real.left and
    endTop - real.top, the numbers written as the template literal writes
    them. *)
Theorem planner_emits_iff_positions_differ (w : World) (rp : Obj.t Rect) :
  snapshotsComplete w rp ->
  exists anims,
    planAnimations w = Returned anims w /\
    forall key first real last,
      In key (childrenKeys w) ->
      Obj.get key (startingPositions w) = Some first ->
      Obj.get key rp = Some real ->
      Obj.get key (endingPositions w) = Some last ->
      let start := resolve first real in
      let finish := resolve last real in
      (Obj.get key anims <> None <-> ~ allEqual start finish (herePos real)) /\
      (allEqual start finish (herePos real) -> Obj.get key anims = None) /\
      (forall d, Obj.get key anims = Some d ->
         startTransform d =
           ("translate(" ++ JS.toString (JS.sub (fst start) (r_left real))
              ++ "px, " ++ JS.toString (JS.sub (snd start) (r_top real))
              ++ "px)")%string /\
         endTransform d =
           ("translate(" ++ JS.toString (JS.sub (fst finish) (r_left real))
              ++ "px, " ++ JS.toString (JS.sub (snd finish) (r_top real))
              ++ "px)")%string).
Proof.
  intros Hc. destruct (planAnimations_runs w rp Hc) as (anims & Hrun & Hloop).
  exists anims. split; [exact Hrun|].
  intros key first real last Hin Hf Hr Hl start finish.
  destruct (calcAnimations_get _ _ _ _ _ _ Hloop key) as [_ Hget].
  specialize (Hget Hin _ _ _ Hf Hr Hl). simpl in Hget.
  pose proof (planKey_none first real last) as Hnone.
  destruct (planKey first real last) as [d|] eqn:P; rewrite Hget.
  - assert (Hdiff : ~ allEqual start finish (herePos real))
      by (intros Hall; apply Hnone in Hall; discriminate).
    split; [split; [auto | discriminate]|].
    split; [intros Hall; contradiction|].
    intros d' Hd. inversion Hd. subst d'. exact (planKey_some _ _ _ _ P).
  - assert (Hall : allEqual start finish (herePos real)) by now apply Hnone.
    split; [split; [intros H; now contradiction H | intros H; contradiction]|].
    split; [reflexivity | discriminate].
Qed.

(** C2, as the code has it. For a starting (respectively ending) snapshot
    of zero width and zero height, the planner takes as start (respectively
    end) position the left coordinate [real.width * -1], that is one real
    width to the left of the origin whatever [real.left] is, and the top
    coordinate [real.top]; an emitted descriptor translates by that position
    minus the real one. *)
Theorem offstage_position_is_minus_real_width (snap real : Rect) :
  zeroSized snap ->
  resolve snap real = (JS.mul (r_width real) (JS.Num (-1)), r_top real) /\
  (forall l t w h, real = DOMRect l t w h ->
     resolve snap real = (JS.Num (- w), JS.Num t) /\
     (forall last d, planKey snap real last = Some d ->
        startTransform d = translate (JS.Num (- w - l)) (JS.Num (t - t))) /\
     (forall first d, planKey first real snap = Some d ->
        endTransform d = translate (JS.Num (- w - l)) (JS.Num (t - t)))).
Proof.
  intros Hz. apply offStage_zeroSized in Hz.
  assert (R : resolve snap real = (JS.mul (r_width real) (JS.Num (-1)), r_top real))
    by (unfold resolve; now rewrite Hz).
  split; [exact R|].
  intros l t w h ->. simpl in R.
  replace (w * -1)%Z with (- w)%Z in R by lia.
  split; [exact R|]. split.
  - intros last d P. apply planKey_some in P. destruct P as [P _].
    rewrite P, R. reflexivity.
  - intros first d P. apply planKey_some in P. destruct P as [_ P].
    rewrite P, R. reflexivity.
Qed.

(** C5. A key whose starting, real and ending snapshots are one and the same
    measured box, not of zero width and zero height, gets no descriptor. *)
Theorem unchanged_geometry_no_descriptor (w : World) (rp : Obj.t Rect)
    (key : string) (l t wd h : Z) :
  snapshotsComplete w rp ->
  In key (childrenKeys w) ->
  ~ (wd = 0 /\ h = 0)%Z ->
  Obj.get key (startingPositions w) = Some (DOMRect l t wd h) ->
  Obj.get key rp = Some (DOMRect l t wd h) ->
  Obj.get key (endingPositions w) = Some (DOMRect l t wd h) ->
  exists anims,
    planAnimations w = Returned anims w /\ Obj.get key anims = None.
Proof.
  intros Hc Hin Hsz Hf Hr Hl.
  destruct (planAnimations_runs w rp Hc) as (anims & Hrun & Hloop).
  exists anims. split; [exact Hrun|].
  destruct (calcAnimations_get _ _ _ _ _ _ Hloop key) as [_ Hget].
  rewrite (Hget Hin _ _ _ Hf Hr Hl).
  assert (Hoff : offStage (DOMRect l t wd h) = false).
  { unfold offStage. simpl. apply andb_false_iff.
    destruct (Z.eqb_spec h 0), (Z.eqb_spec wd 0); auto. tauto. }
  assert (P : planKey (DOMRect l t wd h) (DOMRect l t wd h) (DOMRect l t wd h) = None).
  { apply planKey_none. unfold allEqual, herePos, resolve. rewrite Hoff. auto. }
  now rewrite P.
Qed.

End PlannerClaims.

(** ** The planner on the Stack host *)

Lemma inserted_snapshots :
  snapshotsComplete Stack.inserted
    [ ("a", DOMRect 8 0 100 20); ("c", DOMRect 8 20 100 20);
      ("b", DOMRect 8 40 100 20) ]%string.
Proof.
  split; [reflexivity|].
  intros k Hk. vm_compute in Hk.
  destruct Hk as [<-|[<-|[<-|[]]]]; vm_compute; repeat split; discriminate.
Defined.

Lemma planner_emits_iff_positions_differ_witness :
  exists anims,
    planAnimations Stack.inserted = Returned anims Stack.inserted /\
    (exists d, Obj.get "c"%string anims = Some d /\
               startTransform d = "translate(-108px, 0px)"%string /\
               endTransform d = "translate(0px, 0px)"%string) /\
    (exists d, Obj.get "b"%string anims = Some d /\
               startTransform d = "translate(0px, -20px)"%string /\
               endTransform d = "translate(0px, 0px)"%string) /\
    Obj.get "a"%string anims = None.
Proof.
  destruct (planner_emits_iff_positions_differ Stack.inserted _ inserted_snapshots)
    as (anims & Hrun & Hkeys).
  exists anims. split; [exact Hrun|]. split; [|split].
  - destruct (Hkeys "c"%string EmptyObject (DOMRect 8 20 100 20) (DOMRect 8 20 100 20))
      as ([_ Hemit] & _ & Htext); try reflexivity.
    + vm_compute. auto.
    + destruct (Obj.get "c"%string anims) as [d|].
      * exists d. split; [reflexivity|]. exact (Htext d eq_refl).
      * exfalso. apply Hemit; [|reflexivity].
        intros [H _]. vm_compute in H. discriminate.
  - destruct (Hkeys "b"%string (DOMRect 8 20 100 20) (DOMRect 8 40 100 20)
                (DOMRect 8 40 100 20)) as ([_ Hemit] & _ & Htext); try reflexivity.
    + vm_compute. auto.
    + destruct (Obj.get "b"%string anims) as [d|].
      * exists d. split; [reflexivity|]. exact (Htext d eq_refl).
      * exfalso. apply Hemit; [|reflexivity].
        intros [H _]. vm_compute in H. discriminate.
  - apply (Hkeys "a"%string (DOMRect 8 0 100 20) (DOMRect 8 0 100 20) (DOMRect 8 0 100 20));
      try reflexivity.
    + vm_compute. auto.
    + split; reflexivity.
Defined.

Lemma offstage_position_is_minus_real_width_witness :
  resolve EmptyObject (DOMRect 8 20 100 20) = (JS.Num (-100), JS.Num 20).
Proof.
  destruct (offstage_position_is_minus_real_width EmptyObject
              (DOMRect 8 20 100 20) (or_introl eq_refl)) as [_ H].
  destruct (H 8 20 100 20 eq_refl)%Z as [R _]. exact R.
Defined.

(** C2 as stated fails: for the entering key of the insertion the real box
    is at left 8 with width 100, and the substituted left coordinate is
    -100, not 8 - 100. *)
Lemma offstage_left_is_not_relative_to_real :
  let snap := EmptyObject in
  let real := DOMRect 8 20 100 20 in
  Obj.get "c"%string (startingPositions Stack.inserted) = Some snap /\
  realPositions Stack.inserted
    = Some [ ("a", DOMRect 8 0 100 20); ("c", real);
             ("b", DOMRect 8 40 100 20) ]%string /\
  zeroSized snap /\
  fst (resolve snap real) = JS.Num (-100) /\
  JS.sub (r_left real) (r_width real) = JS.Num (-92) /\
  resolve snap real <> (JS.sub (r_left real) (r_width real), r_top real).
Proof.
  cbv zeta. repeat split; try reflexivity.
  - now left.
  - vm_compute. discriminate.
Qed.

Lemma unchanged_geometry_no_descriptor_witness :
  exists anims,
    planAnimations Stack.inserted = Returned anims Stack.inserted /\
    Obj.get "a"%string anims = None.
Proof.
  apply (@unchanged_geometry_no_descriptor Stack.host Stack.inserted _
           "a"%string 8 0 100 20 inserted_snapshots)%Z.
  - vm_compute. auto.
  - lia.
  - reflexivity.
  - reflexivity.
  - reflexivity.
Defined.

(** ** Worlds and outcomes *)

Section WorldFacts.
Context {host : Host}.

Lemma set_log_same (w : World) : set_log (log w) w = w.
Proof. now destruct w. Qed.

Lemma emit_log e (w : World) : emit e w = Returned tt (set_log (log w ++ [e]) w).
Proof. reflexivity. Qed.

Lemma bind_inv {A B} (m : M A) (k : A -> M B) (w w2 : World) b :
  bind m k w = Returned b w2 ->
  exists a w1, m w = Returned a w1 /\ k a w1 = Returned b w2.
Proof.
  unfold bind. destruct (m w) as [a w1|w1]; [eauto | discriminate].
Qed.

End WorldFacts.

(** ** render *)

Section RenderFacts.
Context {host : Host}.

Lemma renderChildren_run (f : Element -> Element) (m : Obj.t Child) :
  forall ks acc (w : World),
    Obj.get "childFactory"%string (fields (props w)) = Some (PChildFactory f) ->
    renderChildren ks m acc w =
      Returned (acc ++ renderedChildren f ks m)
               (set_log (log w ++ renderWarnings ks m) w).
Proof.
  induction ks as [|key ks IH]; intros acc w Hf; simpl.
  - rewrite !app_nil_r, set_log_same. reflexivity.
  - destruct (Obj.get key m) as [[child|]|] eqn:E; [| now apply IH | now apply IH].
    unfold renderChild, bind, gets, warning, ret. rewrite Hf.
    destruct (isCallbackRef child) eqn:Cb.
    + rewrite IH by exact Hf. rewrite <- app_assoc. simpl.
      unfold clonedChild. rewrite Cb. reflexivity.
    + rewrite emit_log. rewrite IH by exact Hf. simpl. rewrite <- !app_assoc. simpl.
      unfold clonedChild. rewrite Cb, andb_false_r. reflexivity.
Qed.

Lemma render_run (f : Element -> Element) (w : World) :
  Obj.get "childFactory"%string (fields (props w)) = Some (PChildFactory f) ->
  let m := visibleChildren w in
  render w =
    Returned {| out_type := Obj.get "component"%string (fields (props w));
                out_props := stripProps (fields (props w));
                out_children := renderedChildren f (Obj.keys m) m |}
             (set_log (log w ++ renderWarnings (Obj.keys m) m) w).
Proof.
  intros Hf m. unfold render, bind, gets, ret.
  fold (visibleChildren w). fold m.
  rewrite (renderChildren_run f _ _ _ _ Hf). reflexivity.
Qed.

(** Whatever the props, [render] only appends warnings to the log. *)
Lemma renderChildren_frame (m : Obj.t Child) :
  forall ks acc (w : World),
    exists l, Forall isWarning l /\
      worldOf (renderChildren ks m acc w) = set_log (log w ++ l) w.
Proof.
  induction ks as [|key ks IH]; intros acc w; simpl.
  - exists []. rewrite app_nil_r, set_log_same. auto.
  - destruct (Obj.get key m) as [[child|]|]; [| apply IH | apply IH].
    unfold renderChild, bind, gets, warning, ret, throw.
    destruct (Obj.get "childFactory"%string (fields (props w))) as [[| f | |]|];
      try (exists []; simpl; rewrite app_nil_r, set_log_same; auto; fail).
    destruct (isCallbackRef child).
    + apply IH.
    + rewrite emit_log.
      match goal with |- context [renderChildren ks m ?acc' ?w'] =>
        destruct (IH acc' w') as (l & Hl & E) end.
      exists (Warned stringRefWarning :: l). split.
      * constructor; [now exists stringRefWarning | exact Hl].
      * rewrite E. simpl. now rewrite <- app_assoc.
Qed.

Lemma render_frame (w : World) :
  exists l, Forall isWarning l /\ worldOf (render w) = set_log (log w ++ l) w.
Proof.
  unfold render, bind, gets, ret. fold (visibleChildren w).
  destruct (renderChildren_frame (visibleChildren w)
              (Obj.keys (visibleChildren w)) [] w) as (l & Hl & E).
  exists l. split; [exact Hl|].
  destruct (renderChildren _ _ _ w); simpl in *; exact E.
Qed.

Lemma stripProps_get (o : Obj.t PropValue) k :
  Obj.get k (stripProps o) = if in_dec string_dec k strippedProps then None else Obj.get k o.
Proof.
  unfold stripProps.
  assert (G : forall ks (o : Obj.t PropValue),
    Obj.get k (fold_left (fun o k => Obj.del k o) ks o)
    = if in_dec string_dec k ks then None else Obj.get k o).
  { induction ks as [|k0 ks IH]; intros o0; simpl; [reflexivity|].
    rewrite IH. destruct (in_dec string_dec k ks) as [Hin|Hin].
    - destruct (string_dec k0 k); reflexivity.
    - destruct (string_dec k0 k) as [->|Hne].
      + apply ObjFacts.get_del_same.
      + apply ObjFacts.get_del_other. congruence. }
  apply G.
Qed.

End RenderFacts.

Section RenderClaims.
Context {host : Host}.

Lemma renderedChildren_complete f (m : Obj.t Child) key child : forall ks,
  In key ks -> Obj.get key m = Some (Some child) ->
  In (clonedChild f key child) (renderedChildren f ks m).
Proof.
  induction ks as [|k ks IH]; intros Hin Hget; simpl; [contradiction|].
  destruct Hin as [->|Hin].
  - rewrite Hget. now left.
  - destruct (Obj.get k m) as [[c|]|]; [right|idtac|idtac]; now apply IH.
Qed.

Lemma renderedChildren_sound f (m : Obj.t Child) c : forall ks,
  In c (renderedChildren f ks m) ->
  exists child,
    Obj.get (c_key c) m = Some (Some child) /\ c = clonedChild f (c_key c) child.
Proof.
  induction ks as [|k ks IH]; simpl; [contradiction|].
  destruct (Obj.get k m) as [[child|]|] eqn:E; auto.
  intros [<-|Hin]; [|auto]. exists child. simpl. auto.
Qed.

Lemma renderWarnings_string_ref (m : Obj.t Child) key child : forall ks,
  In key ks -> Obj.get key m = Some (Some child) -> isCallbackRef child = false ->
  In (Warned stringRefWarning) (renderWarnings ks m).
Proof.
  induction ks as [|k ks IH]; intros Hin Hget Hcb; simpl; [contradiction|].
  destruct Hin as [->|Hin].
  - rewrite Hget, Hcb. now left.
  - destruct (Obj.get k m) as [[c|]|]; [|now apply IH|now apply IH].
    destruct (isCallbackRef c); [|right]; now apply IH.
Qed.

(** C7, as the code has it. For a child whose ref is a string, render
    reports the warning and goes on: it returns, the child is rendered
    (through the factory, under its key), and the ref it is given is the
    component's tracking callback alone, not chained with the owner's string
    ref. The owner's ref is what is lost; the component goes on tracking the
    child. *)
Theorem string_ref_child_warned_and_rendered (w : World)
    (f : Element -> Element) (key name : string) (child : Element) :
  Obj.get "childFactory"%string (fields (props w)) = Some (PChildFactory f) ->
  Obj.get key (visibleChildren w) = Some (Some child) ->
  el_ref child = RefString name ->
  exists out l,
    render w = Returned out (set_log (log w ++ l) w) /\
    In (Warned stringRefWarning) l /\
    In {| c_source := f child; c_key := key; c_ref := TrackFn key |}
       (out_children out) /\
    (forall c, In c (out_children out) -> c_key c = key -> c_ref c = TrackFn key).
Proof.
  intros Hf Hget Href.
  assert (Hcb : isCallbackRef child = false) by (unfold isCallbackRef; now rewrite Href).
  assert (Hin : In key (Obj.keys (visibleChildren w)))
    by (apply ObjFacts.get_in_keys; congruence).
  assert (Hclone : clonedChild f key child
                   = {| c_source := f child; c_key := key; c_ref := TrackFn key |})
    by (unfold clonedChild; now rewrite Hcb, andb_false_r).
  eexists. eexists. split; [apply (render_run f w Hf)|]. simpl. split; [|split].
  - now apply renderWarnings_string_ref with key child.
  - rewrite <- Hclone. now apply renderedChildren_complete.
  - intros c Hc Hk. apply renderedChildren_sound in Hc.
    destruct Hc as (child' & Hget' & ->). simpl in Hk. subst.
    simpl in Hget'. rewrite Hget in Hget'. inversion Hget'. subst child'.
    now rewrite Hclone.
Qed.

(** Whenever render returns, the element type and the forwarded props are
    those of the props, whatever the children and the factory. *)
Lemma render_returned (w w' : World) (out : Rendered) :
  render w = Returned out w' ->
  out_type out = Obj.get "component"%string (fields (props w)) /\
  out_props out = stripProps (fields (props w)).
Proof.
  unfold render. unfold bind at 1, gets at 1. intros H.
  apply bind_inv in H. destruct H as (cs & w1 & H1 & H).
  unfold bind, gets, ret in H. inversion H. subst. simpl.
  destruct (renderChildren_frame (visibleChildren w)
              (Obj.keys (visibleChildren w)) [] w) as (l & _ & E).
  unfold visibleChildren in E. rewrite H1 in E. simpl in E. subst w'.
  auto.
Qed.

(** C8. Whenever render returns, it returns one element whose type is the
    configured component and whose forwarded props are a copy of the
    component's props without component, childFactory and the transition
    options (transitionName, transitionAppear, transitionEnter,
    transitionLeave and their three timeouts), every other property being
    forwarded as it is; and with a factory in the props it does return, its
    children being the clones of the factory-wrapped children under their
    keys. *)
Theorem render_forwards_stripped_props (w : World) :
  (forall out w', render w = Returned out w' ->
     out_type out = Obj.get "component"%string (fields (props w)) /\
     Obj.get "component"%string (out_props out) = None /\
     Obj.get "childFactory"%string (out_props out) = None /\
     Obj.get "transitionName"%string (out_props out) = None /\
     Obj.get "transitionAppear"%string (out_props out) = None /\
     Obj.get "transitionEnter"%string (out_props out) = None /\
     Obj.get "transitionLeave"%string (out_props out) = None /\
     Obj.get "transitionAppearTimeout"%string (out_props out) = None /\
     Obj.get "transitionEnterTimeout"%string (out_props out) = None /\
     Obj.get "transitionLeaveTimeout"%string (out_props out) = None /\
     (forall k,
        k <> "component"%string -> k <> "childFactory"%string ->
        k <> "transitionName"%string -> k <> "transitionAppear"%string ->
        k <> "transitionEnter"%string -> k <> "transitionLeave"%string ->
        k <> "transitionAppearTimeout"%string ->
        k <> "transitionEnterTimeout"%string ->
        k <> "transitionLeaveTimeout"%string ->
        Obj.get k (out_props out) = Obj.get k (fields (props w)))) /\
  (forall f,
     Obj.get "childFactory"%string (fields (props w)) = Some (PChildFactory f) ->
     exists out l,
       render w = Returned out (set_log (log w ++ l) w) /\
       out_children out
         = renderedChildren f (Obj.keys (visibleChildren w)) (visibleChildren w) /\
       (forall key child, Obj.get key (visibleChildren w) = Some (Some child) ->
          exists c, In c (out_children out) /\ c_key c = key /\ c_source c = f child) /\
       (forall c, In c (out_children out) ->
          exists child, Obj.get (c_key c) (visibleChildren w) = Some (Some child) /\
                        c_source c = f child)).
Proof.
  split.
  - intros out w' H. destruct (render_returned w w' out H) as [Ht Hp].
    split; [exact Ht|]. rewrite Hp.
    assert (Hgone : forall k, In k strippedProps ->
                      Obj.get k (stripProps (fields (props w))) = None).
    { intros k Hk. rewrite stripProps_get.
      destruct (in_dec string_dec k strippedProps); [reflexivity | contradiction]. }
    repeat (split; [apply Hgone; unfold strippedProps; simpl; tauto|]).
    intros k H1 H2 H3 H4 H5 H6 H7 H8 H9. rewrite stripProps_get.
    destruct (in_dec string_dec k strippedProps) as [Hin|_]; [|reflexivity].
    unfold strippedProps in Hin. simpl in Hin.
    repeat (destruct Hin as [Hin|Hin]; [symmetry in Hin; contradiction|]).
    destruct Hin.
  - intros f Hf. eexists. eexists. split; [apply (render_run f w Hf)|]. simpl.
    split; [reflexivity|]. split.
    + intros key child Hget. exists (clonedChild f key child).
      split; [|split; reflexivity].
      apply renderedChildren_complete; [|exact Hget].
      apply ObjFacts.get_in_keys. congruence.
    + intros c Hc. apply renderedChildren_sound in Hc.
      destruct Hc as (child & Hget & ->). exists child. auto.
Qed.

(** When the previous props are the very object [this.props] is,
    componentDidUpdate returns at once: the world it leaves is the world it
    found. *)
Lemma didUpdate_same_props_does_nothing (w : World) (prevProps : Props) :
  sameProps prevProps (props w) = true ->
  componentDidUpdate prevProps w = Returned tt w /\
  componentDidUpdate (props w) w = Returned tt w.
Proof.
  intros H. unfold componentDidUpdate, bind, gets, ret. rewrite H.
  unfold sameProps. now rewrite Nat.eqb_refl.
Qed.

(** The refresh of the node references visits no key while [this.children]
    is undefined. *)
Lemma updateDomNodes_no_children (w : World) :
  children w = None -> updateDomNodes w = Returned tt w.
Proof.
  intros H. unfold updateDomNodes, bind, gets, childrenKeys. now rewrite H.
Qed.

(** The world mounting leaves, whether render returned or threw. *)
Lemma mount_world (w0 : World) (refs : Obj.t (option Instance_)) :
  children w0 = None ->
  exists l r,
    Forall isWarning l /\
    worldOf (mount refs w0)
    = set_childRefs r
        (set_log (log w0 ++ l)
           (set_domNodes Obj.empty
              (set_endingPositions Obj.empty
                 (set_startingPositions Obj.empty
                    (set_animations Obj.empty w0))))).
Proof.
  intros Hc. unfold mount, componentWillMount, bind, modify, componentDidMount, ret.
  match goal with |- context [render ?w1] =>
    destruct (render_frame w1) as (l & Hl & E);
    destruct (render w1) as [out w2|w2]; simpl in E; subst w2
  end.
  - exists l, refs. split; [exact Hl|].
    rewrite updateDomNodes_no_children by exact Hc. reflexivity.
  - exists l, (childRefs w0). split; [exact Hl|]. reflexivity.
Qed.

(** When mounting completes, the ref callbacks have left the instances in
    [this.childRefs]. *)
Lemma mount_returned (w0 w' : World) (refs : Obj.t (option Instance_)) out :
  children w0 = None ->
  mount refs w0 = Returned out w' -> childRefs w' = refs.
Proof.
  intros Hc H. unfold mount in H.
  apply bind_inv in H. destruct H as ([] & w1 & H1 & H).
  apply bind_inv in H. destruct H as (out' & w2 & H2 & H).
  unfold bind at 1, modify at 1 in H.
  apply bind_inv in H. destruct H as ([] & w3 & H3 & H).
  unfold ret in H. inversion H. subst out' w3. clear H.
  unfold componentWillMount, bind, modify in H1. inversion H1 as [E1]. clear H1.
  destruct (render_frame w1) as (l & _ & E2). rewrite H2 in E2. simpl in E2.
  unfold componentDidMount in H3.
  rewrite updateDomNodes_no_children in H3
    by (subst w2 w1; exact Hc).
  inversion H3. reflexivity.
Qed.

(** C10. Mounting runs componentWillMount, the first render and
    componentDidMount. Afterwards the snapshot mappings and the registry are
    empty, the styles of every node are what they were, no frame and no
    listener is pending, and the log holds nothing but render's warnings (no
    measurement, no style write): nothing is animated. But no node reference
    is resolved either: componentDidMount refreshes the node references of
    the keys of [this.children], which is not assigned before the first
    componentWillReceiveProps, so when mounting completes the instances are
    all in [this.childRefs] and [this.domNodes] has no entry. *)
Theorem mount_starts_no_animation (p : Props) (sf : Surface) (st : Styles)
    (refs : Obj.t (option Instance_)) :
  let w' := worldOf (mount refs (construct p sf st)) in
  startingPositions w' = Obj.empty /\
  realPositions w' = None /\
  endingPositions w' = Obj.empty /\
  animations w' = Obj.empty /\
  styles w' = st /\
  frames w' = [] /\
  listeners w' = [] /\
  Forall isWarning (log w') /\
  children w' = None /\
  domNodes w' = Obj.empty /\
  (forall out w'', mount refs (construct p sf st) = Returned out w'' ->
     childRefs w'' = refs /\
     forall key, Obj.get key (domNodes w'') = None).
Proof.
  intros w'.
  destruct (mount_world (construct p sf st) refs eq_refl) as (l & r & Hl & E).
  assert (Hd : domNodes w' = Obj.empty) by (subst w'; rewrite E; reflexivity).
  subst w'. rewrite E. simpl.
  repeat (split; [auto; fail|]).
  intros out w'' H. split.
  - exact (mount_returned (construct p sf st) w'' refs out eq_refl H).
  - intros key. rewrite H in Hd. simpl in Hd. now rewrite Hd.
Qed.

End RenderClaims.

(** ** render and mounting on the Stack host *)

Lemma string_ref_child_warned_and_rendered_witness :
  exists out l,
    render Stack.inserted = Returned out (set_log (log Stack.inserted ++ l) Stack.inserted) /\
    In (Warned stringRefWarning) l /\
    In {| c_source := Stack.c; c_key := "c"%string; c_ref := TrackFn "c"%string |}
       (out_children out).
Proof.
  destruct (@string_ref_child_warned_and_rendered Stack.host Stack.inserted
              (fun child => child) "c"%string "item"%string Stack.c
              eq_refl eq_refl eq_refl) as (out & l & Hrun & Hwarn & Hin & _).
  exists out, l. auto.
Defined.

(** C7 as stated fails: [c] has a string ref, and the insertion still
    resolves its node, measures it, registers its animation and writes its
    start transform, as for [b]. *)
Lemma string_ref_child_is_tracked_and_animated :
  el_ref Stack.c = RefString "item" /\
  Obj.get "c"%string (visibleChildren Stack.inserted) = Some (Some Stack.c) /\
  Obj.get "c"%string (childRefs Stack.inserted) = Some (Some 3) /\
  Obj.get "c"%string (domNodes Stack.inserted) = Some (Some 3) /\
  realPositions Stack.inserted
  = Some [ ("a", DOMRect 8 0 100 20); ("c", DOMRect 8 20 100 20);
           ("b", DOMRect 8 40 100 20) ]%string /\
  Obj.get "c"%string (animations Stack.inserted) = Some (CancelFor "c") /\
  styles Stack.inserted 3 Transform = "translate(-108px, 0px)"%string.
Proof. vm_compute. repeat split. Qed.

Lemma render_forwards_stripped_props_witness :
  exists out l,
    render Stack.inserted = Returned out (set_log (log Stack.inserted ++ l) Stack.inserted) /\
    out_type out = Some (PComponent "ul") /\
    Obj.get "component"%string (fields (props Stack.inserted))
    = Some (PComponent "ul") /\
    Obj.get "component"%string (out_props out) = None /\
    Obj.get "childFactory"%string (fields (props Stack.inserted))
    = Some Stack.identityFactory /\
    Obj.get "childFactory"%string (out_props out) = None /\
    Obj.get "transitionName"%string (fields (props Stack.inserted))
    = Some (POther "fade") /\
    Obj.get "transitionName"%string (out_props out) = None /\
    Obj.get "className"%string (out_props out) = Some (POther "list") /\
    Obj.get "children"%string (out_props out)
    = Some (PChildren [Stack.a; Stack.c; Stack.b]) /\
    map c_key (out_children out) = ["a"; "c"; "b"]%string.
Proof.
  destruct (@render_forwards_stripped_props Stack.host Stack.inserted) as [Hprops Hrun].
  destruct (Hrun (fun child => child) eq_refl) as (out & l & Hout & Hch & _).
  destruct (Hprops out _ Hout) as (Htype & Hc & Hf & Hn & _ & _ & _ & _ & _ & _ & Hkeep).
  exists out, l. split; [exact Hout|]. split; [exact Htype|].
  split; [reflexivity|]. split; [exact Hc|].
  split; [reflexivity|]. split; [exact Hf|].
  split; [reflexivity|]. split; [exact Hn|].
  split; [|split].
  - rewrite Hkeep; [reflexivity | discriminate ..].
  - rewrite Hkeep; [reflexivity | discriminate ..].
  - rewrite Hch. vm_compute. reflexivity.
Defined.

Lemma mounted_run :
  exists out,
    mount (host := Stack.host) (Stack.refsOf [("a", 1); ("b", 2)]%string)
      (construct (host := Stack.host) (Stack.propsOf 1 [Stack.a; Stack.b]) [1; 2]
         Stack.noStyles)
    = Returned out Stack.mounted.
Proof. vm_compute. eexists. reflexivity. Qed.

Lemma mount_starts_no_animation_witness :
  childRefs Stack.mounted = [("a", Some 1); ("b", Some 2)]%string /\
  resolveNode "a"%string Stack.mounted = Some 1 /\
  resolveNode "b"%string Stack.mounted = Some 2 /\
  Obj.get "a"%string (domNodes Stack.mounted) = None /\
  Obj.get "b"%string (domNodes Stack.mounted) = None.
Proof.
  destruct mounted_run as (out & E).
  destruct (@mount_starts_no_animation Stack.host (Stack.propsOf 1 [Stack.a; Stack.b])
              [1; 2] Stack.noStyles (Stack.refsOf [("a", 1); ("b", 2)]%string))
    as (_ & _ & _ & _ & _ & _ & _ & _ & _ & _ & H).
  destruct (H out Stack.mounted E) as [Hrefs Hnone].
  split; [exact Hrefs|]. split; [reflexivity|]. split; [reflexivity|].
  split; apply Hnone.
Defined.

(** At mount the refs of [a] and [b] are in place, and still no node is
    stored: [this.children] is undefined. *)
Example mounted_has_no_nodes :
  childRefs Stack.mounted = [("a", Some 1); ("b", Some 2)]%string /\
  children Stack.mounted = None /\
  domNodes Stack.mounted = Obj.empty.
Proof. repeat split. Qed.

(** ** What the methods append to the log *)

Section Emits.
Context {host : Host}.

Lemma emits_ret {A} Q (a : A) : emits Q (ret a).
Proof. intros w. exists []. simpl. now rewrite app_nil_r. Qed.

Lemma emits_throw {A} Q : emits Q (@throw host A).
Proof. intros w. exists []. simpl. now rewrite app_nil_r. Qed.

Lemma emits_gets {A} Q (f : World -> A) : emits Q (gets f).
Proof. intros w. exists []. simpl. now rewrite app_nil_r. Qed.

Lemma emits_modify Q (f : World -> World) :
  (forall w, log (f w) = log w) -> emits Q (modify f).
Proof. intros Hf w. exists []. simpl. now rewrite app_nil_r, Hf. Qed.

Lemma emits_emit (Q : Event -> Prop) e : Q e -> emits Q (emit e).
Proof. intros He w. exists [e]. simpl. auto. Qed.

Lemma emits_bind {A B} Q (m : M A) (k : A -> M B) :
  emits Q m -> (forall a, emits Q (k a)) -> emits Q (bind m k).
Proof.
  intros Hm Hk w. unfold bind. destruct (Hm w) as (l1 & E1 & F1).
  destruct (m w) as [a w1|w1]; simpl in E1.
  - destruct (Hk a w1) as (l2 & E2 & F2). exists (l1 ++ l2).
    rewrite E2, E1, app_assoc. split; [reflexivity|]. now apply Forall_app.
  - exists l1. auto.
Qed.

Lemma emits_forEach Q ks (body : string -> M unit) :
  (forall k, emits Q (body k)) -> emits Q (forEach ks body).
Proof.
  intros Hb. induction ks as [|k ks IH]; simpl.
  - apply emits_ret.
  - apply emits_bind; auto.
Qed.

Lemma emits_setStyle (Q : Event -> Prop) n p v :
  Q (StyleWritten n p v) -> emits Q (setStyle n p v).
Proof.
  intros HQ. apply emits_bind; [now apply emits_emit|].
  intros _. now apply emits_modify.
Qed.

Lemma emits_nodeOf Q key : emits Q (nodeOf key).
Proof.
  apply emits_bind; [apply emits_gets|].
  intros [[n|]|]; [apply emits_ret | apply emits_throw | apply emits_throw].
Qed.


Lemma emits_callCancel c : emits cancelEvent (callCancel c).
Proof.
  destruct c as [key]. unfold callCancel.
  apply emits_bind; [apply emits_emit; left; eauto|]. intros _.
  apply emits_bind; [apply emits_nodeOf|]. intros n.
  apply emits_bind; [apply emits_setStyle; right; left; eauto|]. intros _.
  apply emits_bind; [apply emits_nodeOf|]. intros n'.
  apply emits_bind; [apply emits_setStyle; right; right; eauto|]. intros _.
  now apply emits_modify.
Qed.

Lemma emits_invokeRegistered key : emits cancelEvent (invokeRegistered key).
Proof.
  apply emits_bind; [apply emits_gets|].
  intros [c|]; [apply emits_callCancel | apply emits_ret].
Qed.

Lemma emits_cancelAll : emits cancelEvent cancelAll.
Proof.
  apply emits_bind; [apply emits_gets|]. intros ks.
  apply emits_forEach. apply emits_invokeRegistered.
Qed.









End Emits.

(** ** The refresh of the node references and the cancel closures *)

Section CancelFacts.
Context {host : Host}.

Lemma set_domNodes_same (w : World) : set_domNodes (domNodes w) w = w.
Proof. now destruct w. Qed.

Lemma forEach_refresh ks : forall (w : World),
  forEach ks (fun key =>
    modify (fun w => set_domNodes (Obj.set key (resolveNode key w) (domNodes w)) w)) w
  = Returned tt
      (set_domNodes (refreshNodes (childRefs w) (surface w) ks (domNodes w)) w).
Proof.
  induction ks as [|k ks IH]; intros w; simpl.
  - unfold ret. now rewrite set_domNodes_same.
  - unfold bind, modify. rewrite IH. reflexivity.
Qed.

Lemma updateDomNodes_run (w : World) :
  updateDomNodes w
  = Returned tt
      (set_domNodes
         (refreshNodes (childRefs w) (surface w) (childrenKeys w) (domNodes w)) w).
Proof. unfold updateDomNodes, bind, gets. apply forEach_refresh. Qed.

Lemma callCancel_run key n (w : World) :
  Obj.get key (domNodes w) = Some (Some n) ->
  callCancel (CancelFor key) w = Returned tt (cancelled key n w).
Proof.
  intros H.
  unfold callCancel, nodeOf, setStyle, emit, bind, gets, modify, ret. simpl.
  rewrite H. simpl. rewrite H. simpl. unfold cancelled.
  rewrite <- !app_assoc. reflexivity.
Qed.

Lemma registryWf_cancelled key n (w : World) :
  registryWf w -> registryWf (cancelled key n w).
Proof.
  intros Hwf k c. simpl.
  destruct (string_dec k key) as [->|Hne].
  - now rewrite ObjFacts.get_del_same.
  - rewrite ObjFacts.get_del_other by exact Hne. apply Hwf.
Qed.

Lemma cancelFrame_refl (w : World) : cancelFrame w w [].
Proof.
  exists (animations w), (styles w). rewrite app_nil_r. now destruct w.
Qed.

Lemma cancelFrame_trans (w1 w2 w3 : World) l1 l2 :
  cancelFrame w1 w2 l1 -> cancelFrame w2 w3 l2 -> cancelFrame w1 w3 (l1 ++ l2).
Proof.
  intros (a1 & s1 & ->) (a2 & s2 & ->). exists a2, s2. simpl.
  now rewrite app_assoc.
Qed.

Lemma cancelFrame_cancelled key n (w : World) :
  cancelFrame w (cancelled key n w)
    [CancelInvoked key; StyleWritten n Transition ""; StyleWritten n Transform ""].
Proof. unfold cancelled. eexists. eexists. reflexivity. Qed.

(** One call through the registry, when it returns. *)
Lemma invokeRegistered_returned key (w w' : World) :
  registryWf w ->
  invokeRegistered key w = Returned tt w' ->
  (Obj.get key (animations w) = None /\ w' = w) \/
  (exists n, Obj.get key (animations w) <> None /\
             Obj.get key (domNodes w) = Some (Some n) /\ w' = cancelled key n w).
Proof.
  intros Hwf. unfold invokeRegistered, bind, gets.
  destruct (Obj.get key (animations w)) as [c|] eqn:E.
  - rewrite (Hwf _ _ E). intros H. right.
    destruct (Obj.get key (domNodes w)) as [[n|]|] eqn:D.
    + rewrite (@callCancel_run key n w D) in H. inversion H. exists n.
      repeat split; auto. discriminate.
    + unfold callCancel, nodeOf, emit, bind, gets, modify, throw in H. simpl in H.
      rewrite D in H. discriminate.
    + unfold callCancel, nodeOf, emit, bind, gets, modify, throw in H. simpl in H.
      rewrite D in H. discriminate.
  - unfold ret. intros H. inversion H. now left.
Qed.

Lemma invokeRegistered_total key (w : World) :
  registryWf w -> nodesForRegistered w ->
  exists w', invokeRegistered key w = Returned tt w'.
Proof.
  intros Hwf Hn. unfold invokeRegistered, bind, gets.
  destruct (Obj.get key (animations w)) as [c|] eqn:E.
  - rewrite (Hwf _ _ E). destruct (Hn key) as [n D]; [congruence|].
    rewrite (@callCancel_run key n w D). eauto.
  - unfold ret. eauto.
Qed.

Lemma nodesForRegistered_cancelled key n (w : World) :
  nodesForRegistered w -> nodesForRegistered (cancelled key n w).
Proof.
  intros Hn k. simpl. destruct (string_dec k key) as [->|Hne].
  - rewrite ObjFacts.get_del_same. congruence.
  - rewrite ObjFacts.get_del_other by exact Hne. apply Hn.
Qed.

(** A loop of calls through the registry that returns has called the
    closure of every key of the loop that was registered, and has left in
    the registry what the loop did not visit. *)
Lemma forEach_invoke_returned ks : forall (w w' : World),
  registryWf w ->
  forEach ks invokeRegistered w = Returned tt w' ->
  exists l,
    cancelFrame w w' l /\
    (forall k, In k ks -> Obj.get k (animations w) <> None -> In (CancelInvoked k) l) /\
    (forall k, In k ks -> Obj.get k (animations w') = None) /\
    (forall k, ~ In k ks -> Obj.get k (animations w') = Obj.get k (animations w)) /\
    (forall k, Obj.get k (animations w') = None \/
               Obj.get k (animations w') = Obj.get k (animations w)).
Proof.
  induction ks as [|k0 ks IH]; intros w w' Hwf H; simpl in H.
  - inversion H. subst. exists []. split; [apply cancelFrame_refl|].
    repeat split; try (intros k []); auto.
  - apply bind_inv in H. destruct H as ([] & w1 & H1 & H2).
    apply invokeRegistered_returned in H1; [|exact Hwf].
    destruct H1 as [[Hnone ->] | (n & Hreg & Hnode & ->)].
    + destruct (IH _ _ Hwf H2) as (l & Hfr & Hcalled & Hgone & Hkept & Hall).
      exists l. split; [exact Hfr|]. repeat split.
      * intros k [<-|Hin] Hk; [contradiction | auto].
      * intros k [<-|Hin]; [|auto].
        destruct (Hall k0) as [E|E]; [exact E | now rewrite E].
      * intros k Hk. apply Hkept. simpl in Hk. tauto.
      * exact Hall.
    + destruct (IH _ _ (registryWf_cancelled _ _ _ Hwf) H2)
        as (l & Hfr & Hcalled & Hgone & Hkept & Hall).
      assert (Hdel : forall k, Obj.get k (animations (cancelled k0 n w))
                               = if string_dec k k0 then None
                                 else Obj.get k (animations w)).
      { intros k. simpl. destruct (string_dec k k0) as [->|Hne].
        - apply ObjFacts.get_del_same.
        - now apply ObjFacts.get_del_other. }
      eexists. split; [exact (cancelFrame_trans _ _ _ _ _ (cancelFrame_cancelled _ _ _) Hfr)|].
      repeat split.
      * intros k [<-|Hin] Hk; [now left|].
        destruct (string_dec k k0) as [->|Hne]; [now left|].
        right. right. right. apply Hcalled; [exact Hin|].
        rewrite Hdel. destruct (string_dec k k0); [contradiction | exact Hk].
      * intros k [<-|Hin]; [|auto].
        destruct (Hall k0) as [E|E]; [exact E|].
        rewrite E, Hdel. destruct (string_dec k0 k0); [reflexivity | contradiction].
      * intros k Hk. simpl in Hk. rewrite Hkept by tauto. rewrite Hdel.
        destruct (string_dec k k0); [subst; tauto | reflexivity].
      * intros k. destruct (Hall k) as [E|E]; [now left|].
        rewrite E, Hdel. destruct (string_dec k k0); auto.
Qed.

Lemma forEach_invoke_total ks : forall (w : World),
  registryWf w -> nodesForRegistered w ->
  exists w', forEach ks invokeRegistered w = Returned tt w'.
Proof.
  induction ks as [|k0 ks IH]; intros w Hwf Hn; simpl.
  - unfold ret. eauto.
  - destruct (invokeRegistered_total k0 w Hwf Hn) as [w1 H1].
    unfold bind at 1. rewrite H1.
    destruct (invokeRegistered_returned _ _ _ Hwf H1) as [[_ ->] | (n & _ & _ & ->)].
    + now apply IH.
    + apply IH; [now apply registryWf_cancelled | now apply nodesForRegistered_cancelled].
Qed.

End CancelFacts.

(** ** componentDidUpdate and the registry *)

Section UpdateClaims.
Context {host : Host}.

Lemma cancelAll_returned (w w' : World) :
  registryWf w ->
  cancelAll w = Returned tt w' ->
  exists l,
    cancelFrame w w' l /\
    (forall k, Obj.get k (animations w) <> None -> In (CancelInvoked k) l) /\
    (forall k, Obj.get k (animations w') = None).
Proof.
  intros Hwf H. unfold cancelAll, bind, gets in H.
  destruct (forEach_invoke_returned _ _ _ Hwf H) as (l & Hfr & Hcalled & Hgone & Hkept & _).
  exists l. split; [exact Hfr|]. split.
  - intros k Hk. apply Hcalled; [|exact Hk]. now apply ObjFacts.get_in_keys.
  - intros k. destruct (in_dec string_dec k (Obj.keys (animations w))) as [Hin|Hin].
    + now apply Hgone.
    + rewrite Hkept by exact Hin. now apply ObjFacts.get_none_keys.
Qed.

Lemma cancelAll_total (w : World) :
  registryWf w -> nodesForRegistered w -> exists w', cancelAll w = Returned tt w'.
Proof.
  intros Hwf Hn. unfold cancelAll, bind, gets. now apply forEach_invoke_total.
Qed.





End UpdateClaims.

Lemma registryWf_entries {host : Host} (w : World) :
  (forall k c, In (k, c) (animations w) -> c = CancelFor k) -> registryWf w.
Proof.
  intros H k c Hget. apply H. now apply ObjFacts.get_In.
Defined.

(** ** An update that interrupts running animations, on the Stack host *)

Lemma interrupting_registry :
  animations Stack.interrupting = [("c", CancelFor "c"); ("b", CancelFor "b")]%string.
Proof. reflexivity. Defined.

Lemma interrupting_registryWf : registryWf Stack.interrupting.
Proof.
  apply registryWf_entries. rewrite interrupting_registry.
  intros k c [H|[H|[]]]; inversion H; reflexivity.
Defined.



(** ** The hide, capture and restore sequence *)

Section HideCaptureRestore.
Context {host : Host}.

Lemma set_styles_log_same (w : World) :
  set_styles (styles w) (set_log (log w ++ []) w) = w.
Proof. rewrite app_nil_r. now destruct w. Qed.

Lemma hideLeaving_run ks : forall od (w : World),
  hideLeaving ks od w
  = Returned (savedDisplays (domNodes w) ks (styles w) od)
      (set_styles (hiddenStyles (domNodes w) ks (styles w))
         (set_log (log w ++ hideEvents (domNodes w) ks) w)).
Proof.
  induction ks as [|k ks IH]; intros od w; simpl.
  - unfold ret. now rewrite set_styles_log_same.
  - unfold bind at 1, gets at 1.
    destruct (Obj.get k (domNodes w)) as [[n|]|]; [|apply IH|apply IH].
    unfold bind, gets, setStyle, emit, modify. unfold bind. rewrite IH. simpl.
    rewrite <- app_assoc. reflexivity.
Qed.

Lemma snapshot_run k (w : World) :
  snapshot k w
  = Returned (snapOf (domNodes w) (getBoundingClientRect (surface w) (styles w)) k)
      (set_log (log w ++ measureEvents (domNodes w) [k]) w).
Proof.
  unfold snapshot, snapOf, measure, emit, bind, gets, modify, ret. simpl.
  destruct (Obj.get k (domNodes w)) as [[n|]|]; simpl;
    rewrite ?app_nil_r, ?set_log_same; reflexivity.
Qed.

Lemma measureEvents_cons dn k ks :
  measureEvents dn (k :: ks) = measureEvents dn [k] ++ measureEvents dn ks.
Proof. simpl. destruct (Obj.get k dn) as [[n|]|]; reflexivity. Qed.

Lemma forEach_capture ks : forall (w : World),
  forEach ks (fun key =>
    r <- snapshot key ;;
    modify (fun w => set_endingPositions (Obj.set key r (endingPositions w)) w)) w
  = Returned tt
      (set_endingPositions
         (snapshotsOf (domNodes w) (getBoundingClientRect (surface w) (styles w))
            ks (endingPositions w))
         (set_log (log w ++ measureEvents (domNodes w) ks) w)).
Proof.
  induction ks as [|k ks IH]; intros w.
  - simpl. unfold ret. rewrite app_nil_r. now destruct w.
  - rewrite measureEvents_cons. cbn [forEach].
    unfold bind at 1. unfold bind at 1. rewrite snapshot_run.
    unfold modify at 1. rewrite IH. simpl. rewrite <- app_assoc. reflexivity.
Qed.

Lemma captureEnding_run (w : World) :
  captureEnding w
  = Returned tt
      (set_endingPositions
         (snapshotsOf (domNodes w) (getBoundingClientRect (surface w) (styles w))
            (childrenKeys w) Obj.empty)
         (set_log (log w ++ measureEvents (domNodes w) (childrenKeys w)) w)).
Proof.
  unfold captureEnding, bind, modify, gets. rewrite forEach_capture. reflexivity.
Qed.

Lemma restoreEvents_cons dn od k ks :
  restoreEvents dn od (k :: ks) = restoreEvents dn od [k] ++ restoreEvents dn od ks.
Proof.
  simpl. destruct (Obj.get k dn) as [[n|]|]; try reflexivity.
  destruct (Obj.get k od); reflexivity.
Qed.

Lemma restoreOne_run od k n (w : World) :
  Obj.get k (domNodes w) = Some (Some n) ->
  (n <- nodeOf k ;;
   match Obj.get k od with
   | Some v => setStyle n Display v
   | None => ret tt
   end) w
  = Returned tt
      (set_styles (restoredStyles (domNodes w) od [k] (styles w))
         (set_log (log w ++ restoreEvents (domNodes w) od [k]) w)).
Proof.
  intros D. unfold nodeOf, setStyle, emit, bind, gets, modify, ret. simpl.
  rewrite D. destruct (Obj.get k od); simpl.
  - reflexivity.
  - now rewrite set_styles_log_same.
Qed.

Lemma restoreDisplays_run od ks : forall (w : World),
  (forall k, In k ks -> exists n, Obj.get k (domNodes w) = Some (Some n)) ->
  forEach ks (fun key =>
    n <- nodeOf key ;;
    match Obj.get key od with
    | Some v => setStyle n Display v
    | None => ret tt
    end) w
  = Returned tt
      (set_styles (restoredStyles (domNodes w) od ks (styles w))
         (set_log (log w ++ restoreEvents (domNodes w) od ks) w)).
Proof.
  induction ks as [|k ks IH]; intros w Hn.
  - simpl. unfold ret. now rewrite set_styles_log_same.
  - destruct (Hn k (or_introl eq_refl)) as [n D].
    rewrite restoreEvents_cons. cbn [forEach]. unfold bind at 1.
    rewrite (restoreOne_run od k n w D).
    rewrite IH by (intros k' Hk'; apply Hn; now right).
    simpl. rewrite D. rewrite <- app_assoc.
    destruct (Obj.get k od); reflexivity.
Qed.

End HideCaptureRestore.

Section HidePure.
Variable dn : Obj.t (option NodeId).

Lemma nodeIs_true n k : nodeIs dn n k = true <-> Obj.get k dn = Some (Some n).
Proof.
  unfold nodeIs. destruct (Obj.get k dn) as [[m|]|]; split; try discriminate.
  - intros H. apply Nat.eqb_eq in H. now subst.
  - intros H. inversion H. apply Nat.eqb_refl.
Qed.

Lemma hides_true ks n :
  hides dn ks n = true <-> exists k, In k ks /\ Obj.get k dn = Some (Some n).
Proof.
  unfold hides. rewrite existsb_exists.
  split; intros (k & Hin & H); exists k; (split; [exact Hin|]); now apply nodeIs_true.
Qed.

Lemma hides_ext ks1 ks2 n :
  (forall k, Obj.get k dn = Some (Some n) -> (In k ks1 <-> In k ks2)) ->
  hides dn ks1 n = hides dn ks2 n.
Proof.
  intros H. apply eq_true_iff_eq. rewrite !hides_true.
  split; intros (k & Hin & Hk); exists k; (split; [|exact Hk]); now apply (H k Hk).
Qed.

Lemma writeStyle_get n p v st n' p' :
  writeStyle n p v st n' p' = if Nat.eqb n' n && stylePropEqb p' p then v else st n' p'.
Proof. reflexivity. Qed.

Lemma hiddenStyles_spec ks : forall st n p,
  hiddenStyles dn ks st n p
  = if stylePropEqb p Display && hides dn ks n then "none"%string else st n p.
Proof.
  induction ks as [|k ks IH]; intros st n p; simpl.
  - now rewrite andb_false_r.
  - unfold nodeIs. destruct (Obj.get k dn) as [[m|]|]; rewrite IH; simpl; auto.
    rewrite writeStyle_get, (Nat.eqb_sym m n).
    destruct (stylePropEqb p Display), (hides dn ks n), (Nat.eqb n m); reflexivity.
Qed.

Lemma savedDisplays_spec ks : forall st od,
  NoDup ks -> distinctOn dn ks ->
  forall k,
    (forall n, In k ks -> Obj.get k dn = Some (Some n) ->
       Obj.get k (savedDisplays dn ks st od) = Some (st n Display)) /\
    (~ In k ks -> Obj.get k (savedDisplays dn ks st od) = Obj.get k od) /\
    ((forall n, Obj.get k dn <> Some (Some n)) ->
       Obj.get k (savedDisplays dn ks st od) = Obj.get k od).
Proof.
  induction ks as [|k0 ks IH]; intros st od Hnd Hdist k; simpl.
  - repeat split; auto. intros n [].
  - inversion Hnd as [|? ? Hnotin Hnd']. subst.
    assert (Hdist' : distinctOn dn ks)
      by (intros k1 k2 n H1 H2; apply Hdist; now right).
    destruct (Obj.get k0 dn) as [[n0|]|] eqn:D0.
    + destruct (IH (writeStyle n0 Display "none" st)
                  (Obj.set k0 (st n0 Display) od) Hnd' Hdist' k) as (A & B & C).
      split; [|split].
      * intros n [<-|Hin] Hk.
        -- rewrite B by exact Hnotin. rewrite ObjFacts.get_set_same. congruence.
        -- rewrite (A n Hin Hk). rewrite writeStyle_get.
           destruct (Nat.eqb_spec n n0) as [->|Hne]; [|reflexivity].
           exfalso. apply Hnotin.
           rewrite (Hdist k0 k n0) by (simpl; auto). exact Hin.
      * intros Hk. rewrite B by tauto. apply ObjFacts.get_set_other.
        intros ->. apply Hk. now left.
      * intros Hk. rewrite (C Hk). apply ObjFacts.get_set_other.
        intros ->. apply (Hk n0). exact D0.
    + destruct (IH st od Hnd' Hdist' k) as (A & B & C). split; [|split].
      * intros n [<-|Hin] Hk; [congruence | auto].
      * intros Hk. apply B. tauto.
      * exact C.
    + destruct (IH st od Hnd' Hdist' k) as (A & B & C). split; [|split].
      * intros n [<-|Hin] Hk; [congruence | auto].
      * intros Hk. apply B. tauto.
      * exact C.
Qed.

Lemma restoredStyles_spec (od : Obj.t string) (orig : NodeId -> string) ks :
  (forall k n, In k ks -> Obj.get k dn = Some (Some n) -> Obj.get k od = Some (orig n)) ->
  forall st n p,
    restoredStyles dn od ks st n p
    = if stylePropEqb p Display && hides dn ks n then orig n else st n p.
Proof.
  induction ks as [|k ks IH]; intros Hod st n p; simpl.
  - now rewrite andb_false_r.
  - assert (Hod' : forall k' n', In k' ks -> Obj.get k' dn = Some (Some n') ->
                                 Obj.get k' od = Some (orig n'))
      by (intros k' n' Hk'; apply Hod; now right).
    unfold nodeIs. destruct (Obj.get k dn) as [[m|]|] eqn:D.
    + rewrite (Hod k m (or_introl eq_refl) D). rewrite (IH Hod').
      rewrite writeStyle_get, (Nat.eqb_sym m n).
      destruct (stylePropEqb p Display), (hides dn ks n), (Nat.eqb_spec n m);
        subst; reflexivity.
    + now rewrite (IH Hod').
    + now rewrite (IH Hod').
Qed.

Lemma hideEvents_spec ks e :
  In e (hideEvents dn ks) ->
  exists k n, In k ks /\ Obj.get k dn = Some (Some n) /\
              e = StyleWritten n Display "none".
Proof.
  induction ks as [|k ks IH]; simpl; [intros []|].
  destruct (Obj.get k dn) as [[m|]|] eqn:D.
  - intros [<-|H].
    + exists k, m. auto.
    + destruct (IH H) as (k' & n & Hin & Hk & He). exists k', n. auto.
  - intros H. destruct (IH H) as (k' & n & Hin & Hk & He). exists k', n. auto.
  - intros H. destruct (IH H) as (k' & n & Hin & Hk & He). exists k', n. auto.
Qed.

Lemma hideEvents_complete ks k n :
  In k ks -> Obj.get k dn = Some (Some n) ->
  In (StyleWritten n Display "none") (hideEvents dn ks).
Proof.
  induction ks as [|k0 ks IH]; simpl; [intros []|].
  intros [->|Hin] Hk.
  - rewrite Hk. now left.
  - destruct (Obj.get k0 dn) as [[m|]|]; [right|idtac|idtac]; auto.
Qed.

Lemma measureEvents_spec ks e :
  In e (measureEvents dn ks) -> exists n, e = Measured n.
Proof.
  induction ks as [|k ks IH]; simpl; [intros []|].
  destruct (Obj.get k dn) as [[m|]|]; auto.
  intros [<-|H]; eauto.
Qed.

Lemma restoreEvents_spec od ks e :
  In e (restoreEvents dn od ks) ->
  exists k n v, In k ks /\ Obj.get k dn = Some (Some n) /\
                e = StyleWritten n Display v.
Proof.
  induction ks as [|k ks IH]; simpl; [intros []|].
  assert (R : In e (restoreEvents dn od ks) ->
              exists k' n v, (k = k' \/ In k' ks) /\ Obj.get k' dn = Some (Some n) /\
                             e = StyleWritten n Display v).
  { intros H. destruct (IH H) as (k' & n & v & Hin & Hk & He).
    exists k', n, v. auto. }
  destruct (Obj.get k dn) as [[m|]|] eqn:D; auto.
  destruct (Obj.get k od) as [v|]; auto.
  intros [<-|H]; auto. exists k, m, v. auto.
Qed.

Lemma snapshotsOf_get box ks : forall acc k,
  Obj.get k (snapshotsOf dn box ks acc)
  = if in_dec string_dec k ks then Some (snapOf dn box k) else Obj.get k acc.
Proof.
  unfold snapshotsOf.
  induction ks as [|k0 ks IH]; intros acc k; simpl; [reflexivity|].
  rewrite IH. destruct (in_dec string_dec k ks) as [Hin|Hin].
  - destruct (string_dec k0 k); reflexivity.
  - destruct (string_dec k0 k) as [->|Hne].
    + apply ObjFacts.get_set_same.
    + apply ObjFacts.get_set_other. congruence.
Qed.

End HidePure.

Section LeavingKeys.
Context {host : Host}.

Lemma forEach_collect (cond : string -> bool) ks : forall (w : World) lk,
  leavingKeys w = Some lk ->
  forEach ks (fun key =>
    if cond key
    then modify (fun w =>
           set_leavingKeys
             (match leavingKeys w with
              | Some lk => Some (Obj.set key true lk)
              | None => None
              end) w)
    else ret tt) w
  = Returned tt
      (set_leavingKeys
         (Some (fold_left (fun lk key => if cond key then Obj.set key true lk else lk)
                  ks lk)) w).
Proof.
  induction ks as [|k ks IH]; intros w lk Hlk; simpl.
  - unfold ret. rewrite <- Hlk. now destruct w.
  - unfold bind at 1. destruct (cond k).
    + unfold modify at 1. rewrite Hlk.
      rewrite (IH _ (Obj.set k true lk)) by reflexivity. reflexivity.
    + unfold ret at 1. now apply IH.
Qed.

(** componentWillReceiveProps always returns. *)
Lemma componentWillReceiveProps_run (nextProps : Props) (w : World) :
  componentWillReceiveProps nextProps w = Returned tt (received nextProps w).
Proof.
  set (prev := mappingOf (stateChildren w) w).
  set (cond := fun key =>
         truthy (match prev with Some m => Obj.get key m | None => None end)
         && negb (nextHas nextProps key)).
  set (w0 := set_leavingKeys (Some Obj.empty)
               (set_pendingState (Some (Some (List.length (store w))))
                  (set_log (log w ++ [SetStateCalled (Some (List.length (store w)))])
                     (set_children (Some (List.length (store w)))
                        (set_store
                           (store w ++ [mergeChildMappings prev
                                          (getChildMapping (propChildren nextProps))])
                           w))))).
  transitivity
    (forEach (keysOf prev)
       (fun key =>
          if cond key
          then modify (fun w =>
                 set_leavingKeys
                   (match leavingKeys w with
                    | Some lk => Some (Obj.set key true lk)
                    | None => None
                    end) w)
          else ret tt) w0).
  - reflexivity.
  - rewrite (forEach_collect cond (keysOf prev) w0 Obj.empty eq_refl). reflexivity.
Qed.

Lemma leavingFrom_keys prev nextProps ks : forall lk k,
  In k (Obj.keys (leavingFrom prev nextProps ks lk)) ->
  In k (Obj.keys lk) \/ nextHas nextProps k = false.
Proof.
  unfold leavingFrom.
  induction ks as [|k0 ks IH]; intros lk k; simpl; [auto|].
  intros H. apply IH in H. destruct H as [H|H]; [|auto].
  destruct (truthy _ && negb (nextHas nextProps k0)) eqn:C; [|auto].
  apply ObjFacts.keys_set_in in H. destruct H as [->|H]; [|auto].
  right. apply andb_true_iff in C. destruct C as [_ C].
  now apply negb_true_iff in C.
Qed.

Lemma leavingFrom_NoDup prev nextProps ks : forall lk,
  NoDup (Obj.keys lk) -> NoDup (Obj.keys (leavingFrom prev nextProps ks lk)).
Proof.
  unfold leavingFrom.
  induction ks as [|k0 ks IH]; intros lk H; simpl; [exact H|].
  apply IH. destruct (truthy _ && _); [now apply ObjFacts.keys_set_NoDup | exact H].
Qed.

Lemma leavingFrom_true prev nextProps ks : forall lk,
  (forall k v, Obj.get k lk = Some v -> v = true) ->
  forall k v, Obj.get k (leavingFrom prev nextProps ks lk) = Some v -> v = true.
Proof.
  unfold leavingFrom.
  induction ks as [|k0 ks IH]; intros lk H; simpl; [exact H|].
  apply IH. destruct (truthy _ && _); [|exact H].
  intros k v. destruct (string_dec k k0) as [->|Hne].
  - rewrite ObjFacts.get_set_same. congruence.
  - rewrite ObjFacts.get_set_other by exact Hne. apply H.
Qed.

End LeavingKeys.

Section HideCaptureRestoreClaim.
Context {host : Host}.

(** The sequence of lines 89-113, loop by loop. *)
Lemma captureEndingHidden_run (w : World) :
  let dn := domNodes w in
  let lks := leavingKeyList w in
  let hs := hiddenStyles dn lks (styles w) in
  let od := savedDisplays dn lks (styles w) Obj.empty in
  NoDup lks -> distinctOn dn lks ->
  captureEndingHidden w
  = Returned tt
      (set_styles (restoredStyles dn od (Obj.keys od) hs)
         (set_endingPositions
            (snapshotsOf dn (getBoundingClientRect (surface w) hs)
               (childrenKeys w) Obj.empty)
            (set_log (log w ++ hideEvents dn lks
                            ++ measureEvents dn (childrenKeys w)
                            ++ restoreEvents dn od (Obj.keys od)) w))).
Proof.
  intros dn lks hs od Hnd Hdist.
  assert (Hpre : forall k, In k (Obj.keys od) ->
                   exists n, Obj.get k dn = Some (Some n)).
  { intros k Hk. apply ObjFacts.get_in_keys in Hk.
    destruct (savedDisplays_spec dn lks (styles w) Obj.empty Hnd Hdist k)
      as (_ & _ & C). fold od in C.
    destruct (Obj.get k dn) as [[n|]|] eqn:D; [eauto| |];
      exfalso; apply Hk; rewrite C; auto; intros n; discriminate. }
  unfold captureEndingHidden. unfold bind at 1, gets at 1.
  unfold bind at 1. rewrite hideLeaving_run.
  unfold bind at 1. rewrite captureEnding_run.
  unfold restoreDisplays. rewrite restoreDisplays_run by exact Hpre.
  simpl. rewrite <- !app_assoc. reflexivity.
Qed.

(** C6. With the leaving keys componentWillReceiveProps collected and no
    node shared between keys: the sequence returns; what it does to the
    outside is measuring, setting to "none" the display of the node of every
    leaving key, and writing displays of such nodes back; no leaving key is
    in the next mapping, so no style of the node of a key of the next
    mapping is written; the ending snapshot of every key of the merged
    mapping is its box with the leaving nodes hidden; and afterwards every
    style of every node, display included, is what it was before. *)
Theorem hide_capture_restore (nextProps : Props) (w0 w1 w : World) :
  componentWillReceiveProps nextProps w0 = Returned tt w1 ->
  leavingKeys w = leavingKeys w1 ->
  nodesDistinct w ->
  exists w' l,
    captureEndingHidden w = Returned tt w' /\
    log w' = log w ++ l /\
    Forall (hideCaptureEvent (domNodes w) (leavingKeyList w)) l /\
    (forall k n, In k (leavingKeyList w) -> Obj.get k (domNodes w) = Some (Some n) ->
       In (StyleWritten n Display "none") l) /\
    (forall k, In k (leavingKeyList w) -> nextHas nextProps k = false) /\
    (forall k n p v, nextHas nextProps k = true ->
       Obj.get k (domNodes w) = Some (Some n) -> ~ In (StyleWritten n p v) l) /\
    (forall k, In k (childrenKeys w) ->
       Obj.get k (endingPositions w')
       = Some (snapOf (domNodes w)
                 (getBoundingClientRect (surface w)
                    (hiddenStyles (domNodes w) (leavingKeyList w) (styles w))) k)) /\
    (forall n p, styles w' n p = styles w n p) /\
    animations w' = animations w /\ domNodes w' = domNodes w /\
    startingPositions w' = startingPositions w /\
    realPositions w' = realPositions w /\
    leavingKeys w' = leavingKeys w /\ frames w' = frames w.
Proof.
  intros Hrecv Hlk Hnodes.
  rewrite componentWillReceiveProps_run in Hrecv. inversion Hrecv as [Hw1].
  assert (Hlks : leavingKeyList w
                 = Obj.keys (leavingFrom (mappingOf (stateChildren w0) w0) nextProps
                               (keysOf (mappingOf (stateChildren w0) w0)) Obj.empty)).
  { unfold leavingKeyList. rewrite Hlk, <- Hw1. reflexivity. }
  assert (Hnd : NoDup (leavingKeyList w))
    by (rewrite Hlks; apply leavingFrom_NoDup; constructor).
  assert (Hdist : distinctOn (domNodes w) (leavingKeyList w))
    by (intros k1 k2 n _ _; apply Hnodes).
  assert (Hnext : forall k, In k (leavingKeyList w) -> nextHas nextProps k = false).
  { intros k Hk. rewrite Hlks in Hk. apply leavingFrom_keys in Hk.
    destruct Hk as [[]|Hk]. exact Hk. }
  set (dn := domNodes w). set (lks := leavingKeyList w).
  set (od := savedDisplays dn lks (styles w) Obj.empty).
  pose proof (fun k => savedDisplays_spec dn lks (styles w) Obj.empty Hnd Hdist k)
    as Hsaved. fold od in Hsaved.
  assert (Hodk : forall k n, In k (Obj.keys od) -> Obj.get k dn = Some (Some n) ->
                   In k lks /\ Obj.get k od = Some (styles w n Display)).
  { intros k n Hk D. destruct (Hsaved k) as (A & B & _).
    destruct (in_dec string_dec k lks) as [Hin|Hin].
    - split; [exact Hin | now apply A].
    - exfalso. apply ObjFacts.get_in_keys in Hk. apply Hk. now rewrite B. }
  eexists. eexists. split; [apply (captureEndingHidden_run w Hnd Hdist)|].
  fold dn lks od. simpl.
  split; [reflexivity|]. split; [|split; [|split; [|split; [|split; [|split]]]]].
  - rewrite !Forall_app. repeat split; apply Forall_forall; intros e He.
    + apply hideEvents_spec in He. destruct He as (k & n & Hin & D & ->).
      right. exists k, n, "none"%string. auto.
    + apply measureEvents_spec in He. now left.
    + apply restoreEvents_spec in He. destruct He as (k & n & v & Hin & D & ->).
      right. exists k, n, v. repeat split; auto. now apply (Hodk k n).
  - intros k n Hin D. apply in_or_app. left. now apply hideEvents_complete with k.
  - exact Hnext.
  - intros k n p v Hhas D Hin.
    assert (Hev : hideCaptureEvent dn lks (StyleWritten n p v)).
    { rewrite !in_app_iff in Hin. destruct Hin as [He|[He|He]].
      - apply hideEvents_spec in He. destruct He as (k' & n' & Hk' & D' & E).
        right. exists k', n', "none"%string. auto.
      - apply measureEvents_spec in He. destruct He as [m E]. discriminate.
      - apply restoreEvents_spec in He. destruct He as (k' & n' & v' & Hk' & D' & E).
        right. exists k', n', v'. repeat split; auto. now apply (Hodk k' n'). }
    destruct Hev as [[m E]|(k' & n' & v' & Hk' & D' & E)]; [discriminate|].
    inversion E. subst n' p v'.
    rewrite (Hnodes k k' n D D') in Hhas. rewrite (Hnext k' Hk') in Hhas. discriminate.
  - intros k Hk. rewrite snapshotsOf_get.
    destruct (in_dec string_dec k (childrenKeys w)); [reflexivity | contradiction].
  - intros n p.
    rewrite (restoredStyles_spec dn od (fun n => styles w n Display));
      [|intros k m Hk D; now apply (Hodk k m)].
    rewrite hiddenStyles_spec.
    assert (Hh : hides dn (Obj.keys od) n = hides dn lks n).
    { apply hides_ext. intros k D. split.
      - intros Hk. now apply (Hodk k n).
      - intros Hk. apply ObjFacts.get_in_keys. destruct (Hsaved k) as (A & _).
        rewrite (A n Hk D). discriminate. }
    rewrite Hh. destruct p; simpl; try reflexivity.
    destruct (hides dn lks n); reflexivity.
  - repeat split.
Qed.

End HideCaptureRestoreClaim.

(** ** Hiding the leaving nodes on the Stack host *)

Lemma capturing_nodesDistinct : nodesDistinct Stack.capturing.
Proof.
  assert (E : domNodes Stack.capturing
              = [("a", Some 1); ("c", Some 3); ("b", Some 2)]%string) by reflexivity.
  intros k1 k2 n H1 H2. rewrite E in H1, H2.
  apply ObjFacts.get_In in H1, H2. simpl in H1, H2.
  destruct H1 as [H1|[H1|[H1|[]]]]; destruct H2 as [H2|[H2|[H2|[]]]];
    inversion H1; inversion H2; subst; try reflexivity; discriminate.
Defined.

Lemma hide_capture_restore_witness :
  exists w' l,
    captureEndingHidden Stack.capturing = Returned tt w' /\
    log w' = log Stack.capturing ++ l /\
    In (StyleWritten 1 Display "none") l /\
    (forall n p, styles w' n p = styles Stack.capturing n p).
Proof.
  destruct (@hide_capture_restore Stack.host (Stack.propsOf 3 [Stack.b])
              Stack.inserted (received (Stack.propsOf 3 [Stack.b]) Stack.inserted)
              Stack.capturing
              (componentWillReceiveProps_run _ _) eq_refl capturing_nodesDistinct)
    as (w' & l & Hrun & Hlog & _ & Hhidden & _ & _ & _ & Hstyles & _).
  exists w', l. repeat split; auto.
  apply (Hhidden "a"%string 1); [vm_compute; auto | reflexivity].
Defined.

(** ** The transitionend listener *)

Section Listener.
Context {host : Host}.

Lemma replaceAt_length {A} (x : A) : forall l i,
  List.length (replaceAt i x l) = List.length l.
Proof.
  induction l as [|y l IH]; intros [|i]; simpl; auto.
Qed.

Lemma replaceAt_nth {A} (x d : A) : forall l i,
  i < List.length l -> nth i (replaceAt i x l) d = x.
Proof.
  induction l as [|y l IH]; intros [|i] H; simpl in *; try lia; auto.
  apply IH. lia.
Qed.

Lemma cancelFrame_emits (w w' : World) l :
  cancelFrame w w' l -> log w' = log w ++ l.
Proof. intros (a & s & ->). reflexivity. Qed.

(** The first statement of the listener, in the state the listeners run
    in: it returns, and only the entry of [key] can have left the registry. *)
Lemma invokeRegistered_step key (w : World) :
  registryWf w -> nodesForRegistered w ->
  exists w1 l1,
    invokeRegistered key w = Returned tt w1 /\
    cancelFrame w w1 l1 /\ Forall cancelEvent l1 /\
    Obj.get key (animations w1) = None /\
    (forall k, k <> key -> Obj.get k (animations w1) = Obj.get k (animations w)) /\
    (Obj.get key (animations w) <> None -> In (CancelInvoked key) l1).
Proof.
  intros Hwf Hn.
  destruct (invokeRegistered_total key w Hwf Hn) as [w1 H1].
  destruct (emits_invokeRegistered key w) as (l1 & E1 & F1).
  rewrite H1 in E1. simpl in E1.
  exists w1, l1. split; [exact H1|].
  destruct (invokeRegistered_returned key w w1 Hwf H1)
    as [[Hnone ->] | (n & Hreg & Hnode & ->)].
  - assert (l1 = []) by (apply (app_inv_head (log w)); now rewrite app_nil_r).
    subst l1. repeat split; auto; [apply cancelFrame_refl | contradiction].
  - assert (l1 = [CancelInvoked key; StyleWritten n Transition "";
                  StyleWritten n Transform ""])
      by (apply (app_inv_head (log w)); now rewrite <- E1).
    subst l1. repeat split; auto.
    + apply cancelFrame_cancelled.
    + simpl. apply ObjFacts.get_del_same.
    + intros k Hk. simpl. now apply ObjFacts.get_del_other.
    + intros _. now left.
Qed.

(** The three ways the listener of [key] ends. *)
Lemma onTransitionEnd_cases key (w w1 : World) a lk :
  invokeRegistered key w = Returned tt w1 ->
  leavingKeys w1 = Some lk -> children w1 = Some a ->
  onTransitionEnd key w
  = match Obj.get key lk with
    | Some true =>
        match Obj.keys (Obj.del key lk) with
        | [] => (cancelAll ;; c' <- gets children ;; setState c') (purged key a lk w1)
        | _ => Returned tt (purged key a lk w1)
        end
    | _ => Returned tt w1
    end.
Proof.
  intros H1 Hlk Hc. unfold onTransitionEnd. unfold bind at 1. rewrite H1.
  unfold bind at 1, gets at 1. rewrite Hlk.
  destruct (Obj.get key lk) as [[|]|]; try reflexivity.
  unfold bind at 1, gets at 1. rewrite Hc.
  unfold bind at 1, modify at 1. unfold bind at 1, modify at 1.
  unfold bind at 1, modify at 1. unfold bind at 1, modify at 1.
  unfold bind at 1, modify at 1. unfold bind at 1, modify at 1.
  destruct (Obj.keys (Obj.del key lk)); reflexivity.
Qed.

Lemma listening_cancelFrame (w w' : World) l a lk :
  listening w a lk -> cancelFrame w w' l ->
  (forall k, Obj.get k (animations w') = None \/
             Obj.get k (animations w') = Obj.get k (animations w)) ->
  listening w' a lk /\
  visibleChildren w' = visibleChildren w /\
  leavingKeyList w' = leavingKeyList w.
Proof.
  intros (Hwf & Hn & Hlk & Htrue & Hc & Hs & Ha) (an & st & ->) Hreg.
  simpl in Hreg. repeat split; auto.
  - intros k c Hk. simpl in Hk. destruct (Hreg k) as [E|E]; [congruence|].
    apply Hwf. now rewrite <- E.
  - intros k Hk. simpl in Hk |- *. destruct (Hreg k) as [E|E]; [congruence|].
    apply Hn. now rewrite <- E.
Qed.

Lemma listening_purged key (w : World) a lk :
  listening w a lk -> Obj.get key (animations w) = None ->
  listening (purged key a lk w) a (Obj.del key lk) /\
  visibleChildren (purged key a lk w) = Obj.del key (visibleChildren w) /\
  leavingKeyList (purged key a lk w) = Obj.keys (Obj.del key lk).
Proof.
  intros (Hwf & Hn & Hlk & Htrue & Hc & Hs & Ha) Hkey.
  split; [|split; [|reflexivity]].
  - repeat split; auto.
    + intros k Hk. simpl in Hk |- *.
      destruct (string_dec k key) as [->|Hne]; [congruence|].
      rewrite ObjFacts.get_del_other by exact Hne. now apply Hn.
    + intros k v. destruct (string_dec k key) as [->|Hne].
      * now rewrite ObjFacts.get_del_same.
      * rewrite ObjFacts.get_del_other by exact Hne. apply Htrue.
    + simpl. now rewrite replaceAt_length.
  - unfold visibleChildren, mappingOf, deref. simpl. rewrite Hs.
    now rewrite replaceAt_nth.
Qed.

Lemma leavingOrGone_purged L key (w : World) a lk :
  leavingKeyList w = Obj.keys lk ->
  leavingOrGone L w ->
  visibleChildren (purged key a lk w) = Obj.del key (visibleChildren w) ->
  leavingOrGone L (purged key a lk w).
Proof.
  intros Hl Hinv Hvis k Hk. rewrite Hvis.
  change (leavingKeyList (purged key a lk w)) with (Obj.keys (Obj.del key lk)).
  destruct (string_dec k key) as [->|Hne].
  - right. apply ObjFacts.get_del_same.
  - destruct (Hinv k Hk) as [H|H].
    + left. apply ObjFacts.keys_del. rewrite Hl in H. auto.
    + right. now rewrite ObjFacts.get_del_other.
Qed.

Lemma setStateCalls_app l1 l2 :
  setStateCalls (l1 ++ l2) = setStateCalls l1 + setStateCalls l2.
Proof. unfold setStateCalls. now rewrite filter_app, length_app. Qed.

Lemma setStateCalls_cancel l : Forall cancelEvent l -> setStateCalls l = 0.
Proof.
  unfold setStateCalls. induction 1 as [|e l He _ IH]; [reflexivity|].
  simpl. destruct He as [[k ->]|[[n ->]|[n ->]]]; exact IH.
Qed.

(** The forced clean-up of line 168, in the state the listeners run in. *)
Lemma cancelAll_step (w : World) a lk :
  listening w a lk ->
  exists w3 l3,
    cancelAll w = Returned tt w3 /\ cancelFrame w w3 l3 /\ Forall cancelEvent l3 /\
    (forall k, Obj.get k (animations w) <> None -> In (CancelInvoked k) l3) /\
    (forall k, Obj.get k (animations w3) = None).
Proof.
  intros (Hwf & Hn & _).
  destruct (cancelAll_total w Hwf Hn) as [w3 H3].
  destruct (cancelAll_returned w w3 Hwf H3) as (l3 & Hfr & Hcalled & Hgone).
  destruct (emits_cancelAll w) as (l3' & E & F). rewrite H3 in E. simpl in E.
  rewrite (cancelFrame_emits _ _ _ Hfr) in E. apply app_inv_head in E. subst l3'.
  exists w3, l3. auto.
Qed.

End Listener.

Section ListenerClaims.
Context {host : Host}.

Lemma listening_stateSet (w : World) a lk :
  listening w a lk -> listening (stateSet w) a lk.
Proof. intros (Hwf & Hn & Hlk & Htrue & Hc & Hs & Ha). repeat split; auto. Qed.

Lemma keys_nil_iff {V} (o : Obj.t V) : Obj.keys o = [] <-> forall k, ~ In k (Obj.keys o).
Proof.
  split.
  - intros -> k [].
  - intros H. destruct (Obj.keys o) as [|k ks]; [reflexivity|].
    exfalso. apply (H k). now left.
Qed.

(** One notification, in the state the listeners run in. It returns and
    leaves such a state; and either [key] is not leaving and no [setState]
    is called, or it is purged with other keys still leaving and no
    [setState] is called, or it was the last one: then every registered
    cancel operation is called, the registry is empty, and [setState] is
    called once. *)
Lemma onTransitionEnd_step (L : list string) key (w : World) a lk :
  listening w a lk -> leavingOrGone L w ->
  exists w' l lk',
    onTransitionEnd key w = Returned tt w' /\
    log w' = log w ++ l /\
    listening w' a lk' /\ leavingOrGone L w' /\
    (forall k, In k (Obj.keys lk') -> In k (Obj.keys lk)) /\
    ((Obj.get key lk <> Some true /\ lk' = lk /\ setStateCalls l = 0) \/
     (Obj.get key lk = Some true /\ lk' = Obj.del key lk /\
      Obj.keys lk' <> [] /\ setStateCalls l = 0) \/
     (Obj.get key lk = Some true /\ lk' = Obj.del key lk /\
      Obj.keys lk' = [] /\ setStateCalls l = 1 /\
      (forall k, Obj.get k (animations w) <> None -> In (CancelInvoked k) l) /\
      (forall k, Obj.get k (animations w') = None) /\
      visibleChildren w' = Obj.del key (visibleChildren w) /\
      pendingState w' = Some (children w') /\
      exists pre, l = pre ++ [SetStateCalled (Some a)] /\ Forall cancelEvent pre)).
Proof.
  intros Hlis Hinv.
  pose proof Hlis as (Hwf & Hn & Hlk & Htrue & Hc & Hs & Ha).
  destruct (invokeRegistered_step key w Hwf Hn)
    as (w1 & l1 & H1 & Hfr1 & F1 & Hkey1 & Hoth1 & Hcall1).
  assert (Hreg1 : forall k, Obj.get k (animations w1) = None \/
                            Obj.get k (animations w1) = Obj.get k (animations w)).
  { intros k. destruct (string_dec k key) as [->|Hne]; [now left | right; auto]. }
  destruct (listening_cancelFrame w w1 l1 a lk Hlis Hfr1 Hreg1) as (Hlis1 & Hvis1 & Hlkl1).
  pose proof Hlis1 as (_ & _ & Hlk1 & _ & Hc1 & _).
  pose proof (cancelFrame_emits _ _ _ Hfr1) as Hlog1.
  assert (Hinv1 : leavingOrGone L w1).
  { intros k Hk. rewrite Hvis1, Hlkl1. now apply Hinv. }
  rewrite (onTransitionEnd_cases key w w1 a lk H1 Hlk1 Hc1).
  destruct (Obj.get key lk) as [[|]|] eqn:G.
  - destruct (listening_purged key w1 a lk Hlis1 Hkey1) as (Hlisp & Hvisp & Hlklp).
    assert (Hinvp : leavingOrGone L (purged key a lk w1)).
    { apply leavingOrGone_purged; auto. unfold leavingKeyList. now rewrite Hlk1. }
    assert (Hincl : forall k, In k (Obj.keys (Obj.del key lk)) -> In k (Obj.keys lk))
      by (intros k Hk; now apply ObjFacts.keys_del in Hk).
    destruct (Obj.keys (Obj.del key lk)) as [|k0 ks0] eqn:K.
    + destruct (cancelAll_step _ a _ Hlisp) as (w3 & l3 & H3 & Hfr3 & F3 & Hcall3 & Hgone3).
      destruct (listening_cancelFrame _ w3 l3 a _ Hlisp Hfr3 (fun k => or_introl (Hgone3 k)))
        as (Hlis3 & Hvis3 & Hlkl3).
      pose proof (cancelFrame_emits _ _ _ Hfr3) as Hlog3.
      pose proof Hlis3 as (_ & _ & _ & _ & Hc3 & _).
      exists (stateSet w3), (l1 ++ l3 ++ [SetStateCalled (Some a)]), (Obj.del key lk).
      split; [|split; [|split; [|split; [|split]]]].
      * unfold bind at 1. rewrite H3.
        unfold bind, gets, setState, emit, modify, stateSet. simpl.
        rewrite Hc3. reflexivity.
      * unfold stateSet. simpl. rewrite Hlog3. simpl. rewrite Hlog1, Hc3.
        now rewrite <- !app_assoc.
      * now apply listening_stateSet.
      * intros k Hk. change (visibleChildren (stateSet w3)) with (visibleChildren w3).
        change (leavingKeyList (stateSet w3)) with (leavingKeyList w3).
        rewrite Hvis3, Hlkl3. now apply Hinvp.
      * rewrite K. intros k [].
      * right. right. rewrite K.
        split; [reflexivity|]. split; [reflexivity|]. split; [reflexivity|].
        split; [|split; [|split; [|split; [|split]]]].
        -- rewrite !setStateCalls_app, (setStateCalls_cancel l1 F1),
             (setStateCalls_cancel l3 F3). reflexivity.
        -- intros k Hk. destruct (string_dec k key) as [->|Hne].
           ++ apply in_or_app. left. auto.
           ++ apply in_or_app. right. apply in_or_app. left.
              apply Hcall3. simpl. now rewrite Hoth1.
        -- exact Hgone3.
        -- change (visibleChildren (stateSet w3)) with (visibleChildren w3).
           now rewrite Hvis3, Hvisp, Hvis1.
        -- reflexivity.
        -- exists (l1 ++ l3). split; [now rewrite <- app_assoc|].
           now apply Forall_app.
    + exists (purged key a lk w1), l1, (Obj.del key lk).
      split; [reflexivity|]. split; [exact Hlog1|]. split; [exact Hlisp|].
      split; [exact Hinvp|]. split; [rewrite K; exact Hincl|].
      right. left. rewrite K.
      split; [reflexivity|]. split; [reflexivity|].
      split; [discriminate | now apply setStateCalls_cancel].
  - exists w1, l1, lk.
    split; [reflexivity|]. split; [exact Hlog1|]. split; [exact Hlis1|].
    split; [exact Hinv1|]. split; [auto|].
    left. split; [discriminate|]. split; [reflexivity | now apply setStateCalls_cancel].
  - exists w1, l1, lk.
    split; [reflexivity|]. split; [exact Hlog1|]. split; [exact Hlis1|].
    split; [exact Hinv1|]. split; [auto|].
    left. split; [discriminate|]. split; [reflexivity | now apply setStateCalls_cancel].
Qed.

(** Any run of notifications, in the state the listeners run in: it
    returns, the leaving keys only shrink, and [setState] is not called
    unless no leaving key is left. *)
Lemma fire_steps (L : list string) ks : forall (w : World) a lk,
  listening w a lk -> leavingOrGone L w ->
  exists w' l lk',
    fire ks w = Returned tt w' /\
    log w' = log w ++ l /\
    listening w' a lk' /\ leavingOrGone L w' /\
    (forall k, In k (Obj.keys lk') -> In k (Obj.keys lk)) /\
    (setStateCalls l = 0 \/ Obj.keys lk' = []).
Proof.
  induction ks as [|key ks IH]; intros w a lk Hlis Hinv.
  - exists w, [], lk. simpl. rewrite app_nil_r.
    split; [reflexivity|]. split; [reflexivity|]. split; [exact Hlis|].
    split; [exact Hinv|]. split; [auto|]. now left.
  - destruct (onTransitionEnd_step L key w a lk Hlis Hinv)
      as (w1 & l1 & lk1 & H1 & Hlog1 & Hlis1 & Hinv1 & Hincl1 & Hcase).
    destruct (IH w1 a lk1 Hlis1 Hinv1)
      as (w2 & l2 & lk2 & H2 & Hlog2 & Hlis2 & Hinv2 & Hincl2 & Hcalls2).
    exists w2, (l1 ++ l2), lk2.
    split; [simpl; unfold bind; now rewrite H1|].
    split; [now rewrite Hlog2, Hlog1, app_assoc|].
    split; [exact Hlis2|]. split; [exact Hinv2|]. split; [auto|].
    assert (Hempty : Obj.keys lk1 = [] -> Obj.keys lk2 = []).
    { intros E. apply keys_nil_iff. intros k Hk. apply Hincl2 in Hk.
      rewrite E in Hk. exact Hk. }
    destruct Hcalls2 as [C2|C2]; [|now right].
    destruct Hcase as [(_ & _ & C1)|[(_ & _ & _ & C1)|(_ & _ & K & _)]].
    + left. rewrite setStateCalls_app. lia.
    + left. rewrite setStateCalls_app. lia.
    + right. auto.
Qed.

(** C4. In the state the listeners run in, after any run of notifications
    that leaves [key] as the only leaving key, the notification of [key]
    returns; afterwards no key that was leaving at the start is in the
    visible child mapping, every cancel operation that was still registered
    has been called and the registry is empty, and [setState] has been
    called exactly once, with the children mapping, and not at all during
    the earlier notifications. *)
Theorem last_leaving_key_settles (w0 : World) (a : Addr) (lk0 : Obj.t bool)
    (ks : list string) (key : string) :
  listening w0 a lk0 ->
  leavingKeyList (worldOf (fire ks w0)) = [key] ->
  exists w1 w2 l1 l2,
    fire ks w0 = Returned tt w1 /\ log w1 = log w0 ++ l1 /\
    setStateCalls l1 = 0 /\
    onTransitionEnd key w1 = Returned tt w2 /\ log w2 = log w1 ++ l2 /\
    (forall k, In k (Obj.keys lk0) -> Obj.get k (visibleChildren w2) = None) /\
    (forall k, Obj.get k (animations w1) <> None -> In (CancelInvoked k) l2) /\
    (forall k, Obj.get k (animations w2) = None) /\
    setStateCalls l2 = 1 /\
    In (SetStateCalled (children w2)) l2 /\
    pendingState w2 = Some (children w2) /\
    stateChildren w2 = children w2.
Proof.
  intros Hlis Hlast.
  assert (Hinv0 : leavingOrGone (Obj.keys lk0) w0).
  { intros k Hk. left. unfold leavingKeyList.
    destruct Hlis as (_ & _ & -> & _). exact Hk. }
  destruct (fire_steps (Obj.keys lk0) ks w0 a lk0 Hlis Hinv0)
    as (w1 & l1 & lk1 & H1 & Hlog1 & Hlis1 & Hinv1 & Hincl1 & Hcalls1).
  rewrite H1 in Hlast. simpl in Hlast.
  pose proof Hlis1 as (_ & _ & Hlk1 & Htrue1 & _).
  assert (Hkeys1 : Obj.keys lk1 = [key])
    by (unfold leavingKeyList in Hlast; now rewrite Hlk1 in Hlast).
  destruct (onTransitionEnd_step (Obj.keys lk0) key w1 a lk1 Hlis1 Hinv1)
    as (w2 & l2 & lk2 & H2 & Hlog2 & Hlis2 & Hinv2 & Hincl2 & Hcase).
  assert (Hmarked : Obj.get key lk1 = Some true).
  { assert (Hin : In key (Obj.keys lk1)) by (rewrite Hkeys1; now left).
    apply ObjFacts.get_in_keys in Hin.
    destruct (Obj.get key lk1) as [v|] eqn:G; [|congruence].
    now rewrite (Htrue1 key v G). }
  assert (Hnone : Obj.keys (Obj.del key lk1) = []).
  { apply keys_nil_iff. intros k Hk. apply ObjFacts.keys_del in Hk.
    destruct Hk as [Hk Hne]. rewrite Hkeys1 in Hk. destruct Hk as [->|[]]. auto. }
  destruct Hcase as [(C & _)|[(_ & -> & C & _)|(_ & -> & K & Hone & Hcalled & Hgone & Hvis & Hpend & pre & Hl2 & _)]];
    [congruence | congruence |].
  pose proof Hlis2 as (_ & _ & Hlk2 & _ & Hc2 & Hs2 & _).
  exists w1, w2, l1, l2.
  split; [exact H1|]. split; [exact Hlog1|]. split.
  { destruct Hcalls1 as [C|C]; [exact C|]. rewrite Hkeys1 in C. discriminate. }
  split; [exact H2|]. split; [exact Hlog2|]. split.
  { intros k Hk. destruct (Hinv2 k Hk) as [Hin|Hgone']; [|exact Hgone'].
    unfold leavingKeyList in Hin. rewrite Hlk2, K in Hin. destruct Hin. }
  split; [exact Hcalled|]. split; [exact Hgone|]. split; [exact Hone|].
  split; [|split; [exact Hpend | congruence]].
  rewrite Hl2, Hc2. apply in_or_app. right. now left.
Qed.

End ListenerClaims.

Lemma nodesForRegistered_entries {host : Host} (w : World) :
  (forall k c, In (k, c) (animations w) ->
     exists n, Obj.get k (domNodes w) = Some (Some n)) ->
  nodesForRegistered w.
Proof.
  intros H k Hk. destruct (Obj.get k (animations w)) as [c|] eqn:G; [|congruence].
  apply (H k c). now apply ObjFacts.get_In.
Defined.

(** ** The last leaving key on the Stack host *)

Lemma leaving_registry :
  animations Stack.leaving
  = [("b", CancelFor "b"); ("a", CancelFor "a"); ("c", CancelFor "c")]%string.
Proof. vm_compute. reflexivity. Defined.

Lemma leaving_nodes :
  domNodes Stack.leaving = [("a", Some 1); ("c", Some 3); ("b", Some 2)]%string.
Proof. vm_compute. reflexivity. Defined.

Lemma leaving_fields :
  leavingKeys Stack.leaving = Some [("a", true); ("c", true)]%string /\
  children Stack.leaving = Some 2 /\
  stateChildren Stack.leaving = Some 2 /\
  List.length (store Stack.leaving) = 3.
Proof. vm_compute. repeat split. Defined.

Lemma leaving_listening :
  listening Stack.leaving 2 [("a", true); ("c", true)]%string.
Proof.
  destruct leaving_fields as (Hlk & Hc & Hs & Hlen).
  split; [|split; [|split; [|split; [|split; [|split]]]]].
  - apply registryWf_entries. rewrite leaving_registry.
    intros k c [H|[H|[H|[]]]]; inversion H; reflexivity.
  - apply nodesForRegistered_entries. rewrite leaving_registry, leaving_nodes.
    intros k c [H|[H|[H|[]]]]; inversion H; eexists; reflexivity.
  - exact Hlk.
  - intros k v H. apply ObjFacts.get_In in H.
    destruct H as [H|[H|[]]]; inversion H; reflexivity.
  - exact Hc.
  - exact Hs.
  - rewrite Hlen. lia.
Defined.

Lemma leaving_last_key :
  leavingKeyList (worldOf (fire ["b"; "c"]%string Stack.leaving)) = ["a"]%string.
Proof. vm_compute. reflexivity. Defined.

Lemma last_leaving_key_settles_witness :
  exists w1 w2 l1 l2,
    fire ["b"; "c"]%string Stack.leaving = Returned tt w1 /\
    log w1 = log Stack.leaving ++ l1 /\ setStateCalls l1 = 0 /\
    onTransitionEnd "a"%string w1 = Returned tt w2 /\
    log w2 = log w1 ++ l2 /\ setStateCalls l2 = 1 /\
    Obj.get "a"%string (visibleChildren w2) = None /\
    Obj.get "c"%string (visibleChildren w2) = None /\
    (forall k, Obj.get k (animations w2) = None).
Proof.
  destruct (@last_leaving_key_settles Stack.host Stack.leaving 2
              [("a", true); ("c", true)]%string ["b"; "c"]%string "a"%string
              leaving_listening leaving_last_key)
    as (w1 & w2 & l1 & l2 & H1 & Hlog1 & Hz & H2 & Hlog2 & Hgone & _ & Hempty & Hone & _).
  exists w1, w2, l1, l2. repeat split; auto; apply Hgone; simpl; auto.
Defined.

(** The same run, event by event: the notification of the last leaving
    key calls no cancel operation but its own and calls [setState] once. *)
Example last_leaving_key_events :
  let w1 := Stack.lastLeaving in
  let o := onTransitionEnd "a"%string w1 in
  returns o = true /\
  log (worldOf o)
  = log w1 ++ [ CancelInvoked "a"; StyleWritten 1 Transition "";
                StyleWritten 1 Transform ""; SetStateCalled (Some 2) ]%string /\
  Obj.keys (visibleChildren (worldOf o)) = ["b"]%string.
Proof.
  cbv zeta. split; [|split]; vm_compute; reflexivity.
Qed.

(** ** Invariants of the methods *)

Section Invariants.
Context {host : Host}.

Lemma preserves_ret {A} I (a : A) : preserves I (ret a).
Proof. intros w H. exact H. Qed.

Lemma preserves_throw {A} I : preserves I (@throw host A).
Proof. intros w H. exact H. Qed.

Lemma preserves_gets {A} I (f : World -> A) : preserves I (gets f).
Proof. intros w H. exact H. Qed.

Lemma preserves_modify I (f : World -> World) :
  (forall w, I w -> I (f w)) -> preserves I (modify f).
Proof. intros Hf w H. now apply Hf. Qed.

Lemma preserves_bind {A B} I (m : M A) (k : A -> M B) :
  preserves I m -> (forall a, preserves I (k a)) -> preserves I (bind m k).
Proof.
  intros Hm Hk w H. unfold bind. specialize (Hm w H).
  destruct (m w) as [a w1|w1]; simpl in Hm; [now apply Hk | exact Hm].
Qed.

Lemma preserves_forEach I ks (body : string -> M unit) :
  (forall k, preserves I (body k)) -> preserves I (forEach ks body).
Proof.
  intros Hb. induction ks as [|k ks IH]; simpl.
  - apply preserves_ret.
  - apply preserves_bind; auto.
Qed.

Section Unread.
(** A property that reads neither the log, the styles, the scheduled
    callbacks and the listeners, nor (for the methods that write them) the
    node references and the snapshots. *)
Variable I : World -> Prop.
Hypothesis I_log : forall l w, I w -> I (set_log l w).
Hypothesis I_styles : forall s w, I w -> I (set_styles s w).
Hypothesis I_frames : forall f w, I w -> I (set_frames f w).
Hypothesis I_listeners : forall f w, I w -> I (set_listeners f w).
Hypothesis I_domNodes : forall d w, I w -> I (set_domNodes d w).
Hypothesis I_starting : forall d w, I w -> I (set_startingPositions d w).
Hypothesis I_real : forall d w, I w -> I (set_realPositions d w).
Hypothesis I_ending : forall d w, I w -> I (set_endingPositions d w).

Ltac unread :=
  repeat first
    [ apply preserves_ret
    | apply preserves_throw
    | apply preserves_gets
    | apply preserves_modify; intros ? ?;
      first [ apply I_log | apply I_styles | apply I_frames | apply I_listeners
            | apply I_domNodes | apply I_starting | apply I_real | apply I_ending ];
      assumption
    | apply preserves_bind; [|intro]
    | apply preserves_forEach; intro
    | match goal with
      | |- preserves _ (match ?x with _ => _ end) => destruct x
      end ].

Lemma preserves_setStyle n p v : preserves I (setStyle n p v).
Proof. unfold setStyle, emit. unread. Qed.

Lemma preserves_nodeOf key : preserves I (nodeOf key).
Proof. unfold nodeOf. unread. Qed.

Lemma preserves_snapshot key : preserves I (snapshot key).
Proof. unfold snapshot, measure, emit. unread. Qed.

Lemma preserves_updateDomNodes : preserves I updateDomNodes.
Proof. unfold updateDomNodes. unread. Qed.

Lemma preserves_componentWillUpdate : preserves I componentWillUpdate.
Proof.
  unfold componentWillUpdate.
  apply preserves_bind; [unread|]. intros _.
  apply preserves_bind; [apply preserves_updateDomNodes|]. intros _.
  apply preserves_bind; [unread|]. intros ks.
  apply preserves_forEach. intros k.
  apply preserves_bind; [apply preserves_snapshot | intro; unread].
Qed.

Lemma preserves_captureReal : preserves I captureReal.
Proof.
  unfold captureReal.
  apply preserves_bind; [unread|]. intros _.
  apply preserves_bind; [unread|]. intros ks.
  apply preserves_forEach. intros k.
  apply preserves_bind; [apply preserves_snapshot | intro; unread].
Qed.

Lemma preserves_hideLeaving ks : forall od, preserves I (hideLeaving ks od).
Proof.
  induction ks as [|k ks IH]; intros od; simpl; [apply preserves_ret|].
  apply preserves_bind; [unread|]. intros [[n|]|]; auto.
  apply preserves_bind; [unread|]. intros v.
  apply preserves_bind; [apply preserves_setStyle | auto].
Qed.

Lemma preserves_captureEndingHidden : preserves I captureEndingHidden.
Proof.
  unfold captureEndingHidden.
  apply preserves_bind; [unread|]. intros lks.
  apply preserves_bind; [apply preserves_hideLeaving|]. intros od.
  apply preserves_bind.
  - unfold captureEnding.
    apply preserves_bind; [unread|]. intros _.
    apply preserves_bind; [unread|]. intros ks.
    apply preserves_forEach. intros k.
    apply preserves_bind; [apply preserves_snapshot | intro; unread].
  - intros _. unfold restoreDisplays. apply preserves_forEach. intros k.
    apply preserves_bind; [apply preserves_nodeOf|]. intros n.
    destruct (Obj.get k od); [apply preserves_setStyle | apply preserves_ret].
Qed.

Lemma preserves_planAnimations : preserves I planAnimations.
Proof. unfold planAnimations. unread. Qed.

Lemma preserves_requestAnimationFrame cb : preserves I (requestAnimationFrame cb).
Proof. unfold requestAnimationFrame, emit. unread. Qed.

Lemma preserves_renderChildren m ks : forall acc, preserves I (renderChildren ks m acc).
Proof.
  induction ks as [|k ks IH]; intros acc; simpl; [apply preserves_ret|].
  destruct (Obj.get k m) as [[child|]|]; auto.
  apply preserves_bind; [|auto].
  unfold renderChild, warning, emit. unread.
Qed.

Lemma preserves_render : preserves I render.
Proof.
  unfold render.
  apply preserves_bind; [unread|]. intros sc.
  apply preserves_bind; [apply preserves_renderChildren | intro; unread].
Qed.

(** The two writes of the registry: a cancel closure deletes its entry,
    an update registers the closure of a key under that key. *)
Hypothesis I_deleted :
  forall key w, I w -> I (set_animations (Obj.del key (animations w)) w).
Hypothesis I_registered :
  forall key w, I w ->
    I (set_animations (Obj.set key (CancelFor key) (animations w)) w).

Lemma preserves_callCancel c : preserves I (callCancel c).
Proof.
  destruct c as [key]. unfold callCancel, emit.
  apply preserves_bind; [unread|]. intros _.
  apply preserves_bind; [apply preserves_nodeOf|]. intros n.
  apply preserves_bind; [apply preserves_setStyle|]. intros _.
  apply preserves_bind; [apply preserves_nodeOf|]. intros n'.
  apply preserves_bind; [apply preserves_setStyle|]. intros _.
  apply preserves_modify. intros w H. now apply I_deleted.
Qed.

Lemma preserves_cancelAll : preserves I cancelAll.
Proof.
  unfold cancelAll. apply preserves_bind; [unread|]. intros ks.
  apply preserves_forEach. intros k. unfold invokeRegistered.
  apply preserves_bind; [unread|].
  intros [c|]; [apply preserves_callCancel | apply preserves_ret].
Qed.

Lemma preserves_installAnimations anims : preserves I (installAnimations anims).
Proof.
  unfold installAnimations. apply preserves_forEach. intros k.
  apply preserves_bind;
    [apply preserves_modify; intros w H; now apply I_registered|]. intros _.
  apply preserves_bind; [apply preserves_nodeOf|]. intros n.
  destruct (Obj.get k anims); [apply preserves_setStyle | apply preserves_throw].
Qed.

Lemma preserves_componentDidUpdate prevProps : preserves I (componentDidUpdate prevProps).
Proof.
  unfold componentDidUpdate. apply preserves_bind; [unread|]. intros p.
  destruct (sameProps prevProps p); [apply preserves_ret|].
  apply preserves_bind; [apply preserves_updateDomNodes|]. intros _.
  apply preserves_bind; [apply preserves_cancelAll|]. intros _.
  apply preserves_bind; [apply preserves_captureReal|]. intros _.
  apply preserves_bind; [apply preserves_captureEndingHidden|]. intros _.
  apply preserves_bind; [apply preserves_planAnimations|]. intros anims.
  apply preserves_bind; [apply preserves_installAnimations|]. intros _.
  apply preserves_requestAnimationFrame.
Qed.

Lemma preserves_runCallback cb : preserves I (runCallback cb).
Proof.
  destruct cb as [anims|anims]; simpl.
  - apply preserves_bind; [|intro; apply preserves_requestAnimationFrame].
    apply preserves_forEach. intros k.
    apply preserves_bind; [apply preserves_nodeOf | intro; apply preserves_setStyle].
  - apply preserves_forEach. intros k.
    apply preserves_bind; [apply preserves_nodeOf|]. intros n.
    apply preserves_bind.
    + destruct (Obj.get k anims); [apply preserves_setStyle | apply preserves_throw].
    + intros _. apply preserves_bind; [apply preserves_nodeOf|]. intros n'.
      unfold addEventListener, emit. unread.
Qed.

Lemma preserves_nextFrame : preserves I nextFrame.
Proof.
  unfold nextFrame. apply preserves_bind; [unread|]. intros cbs.
  apply preserves_bind; [unread|]. intros _.
  induction cbs as [|cb cbs IH]; simpl; [apply preserves_ret|].
  apply preserves_bind; [apply preserves_runCallback | auto].
Qed.

End Unread.

End Invariants.

Section Established.
Context {host : Host}.

Lemma registryWf_componentDidUpdate prevProps :
  preserves registryWf (componentDidUpdate prevProps).
Proof.
  apply preserves_componentDidUpdate; try (intros; assumption).
  - intros key w Hwf k c. simpl. destruct (string_dec k key) as [->|Hne].
    + now rewrite ObjFacts.get_del_same.
    + rewrite ObjFacts.get_del_other by exact Hne. apply Hwf.
  - intros key w Hwf k c. simpl. destruct (string_dec k key) as [->|Hne].
    + rewrite ObjFacts.get_set_same. congruence.
    + rewrite ObjFacts.get_set_other by exact Hne. apply Hwf.
Qed.

Lemma batchFields_componentDidUpdate a lk prevProps :
  preserves (batchFields a lk) (componentDidUpdate prevProps).
Proof. apply preserves_componentDidUpdate; intros; assumption. Qed.

(** The registration loop, when it returns, has found a node for every key
    it registered. *)
Lemma installAnimations_nodes anims ks : forall (w w' : World),
  nodesForRegistered w ->
  forEach ks (fun key =>
    modify (fun w => set_animations (Obj.set key (CancelFor key) (animations w)) w) ;;
    n <- nodeOf key ;;
    match Obj.get key anims with
    | Some d => setStyle n Transform (startTransform d)
    | None => throw
    end) w = Returned tt w' ->
  nodesForRegistered w'.
Proof.
  induction ks as [|key ks IH]; intros w w' Hn H; simpl in H.
  - inversion H. now subst.
  - apply bind_inv in H. destruct H as ([] & w1 & H1 & H2).
    apply (IH w1 w'); [|exact H2]. clear H2 IH.
    unfold bind at 1, modify at 1 in H1.
    unfold bind at 1, nodeOf, bind at 1, gets at 1 in H1. simpl in H1.
    destruct (Obj.get key (domNodes w)) as [[n|]|] eqn:D; try discriminate.
    unfold ret at 1 in H1.
    destruct (Obj.get key anims) as [d|]; [|discriminate].
    unfold setStyle, emit, bind, modify in H1. inversion H1. subst w1.
    intros k Hk. simpl in Hk |- *. destruct (string_dec k key) as [->|Hne]; [eauto|].
    rewrite ObjFacts.get_set_other in Hk by exact Hne. now apply Hn.
Qed.

(** An update that returns leaves every registered key with a node. *)
Lemma componentDidUpdate_nodes prevProps (w w' : World) :
  sameProps prevProps (props w) = false ->
  registryWf w ->
  componentDidUpdate prevProps w = Returned tt w' ->
  nodesForRegistered w'.
Proof.
  intros Hp Hwf H. unfold componentDidUpdate in H.
  unfold bind at 1, gets at 1 in H. rewrite Hp in H.
  apply bind_inv in H. destruct H as ([] & w1 & H1 & H).
  apply bind_inv in H. destruct H as ([] & w2 & H2 & H).
  apply bind_inv in H. destruct H as ([] & w3 & H3 & H).
  apply bind_inv in H. destruct H as ([] & w4 & H4 & H).
  apply bind_inv in H. destruct H as (anims & w5 & H5 & H).
  apply bind_inv in H. destruct H as ([] & w6 & H6 & H).
  assert (Hwf1 : registryWf w1).
  { rewrite updateDomNodes_run in H1. inversion H1. exact Hwf. }
  destruct (cancelAll_returned w1 w2 Hwf1 H2) as (_ & _ & _ & Hgone).
  set (E := fun w : World => forall k, Obj.get k (animations w) = None).
  assert (E3 : E w3).
  { assert (P : preserves E captureReal)
      by (apply preserves_captureReal; intros; assumption).
    specialize (P w2 Hgone). now rewrite H3 in P. }
  assert (E4 : E w4).
  { assert (P : preserves E captureEndingHidden)
      by (apply preserves_captureEndingHidden; intros; assumption).
    specialize (P w3 E3). now rewrite H4 in P. }
  assert (E5 : E w5).
  { pose proof (preserves_planAnimations E w4 E4) as P. now rewrite H5 in P. }
  assert (N6 : nodesForRegistered w6).
  { apply (installAnimations_nodes anims (Obj.keys anims) w5 w6); [|exact H6].
    intros k Hk. now rewrite E5 in Hk. }
  assert (P : preserves nodesForRegistered (requestAnimationFrame (ArmTransitions anims)))
    by (apply preserves_requestAnimationFrame; intros; assumption).
  specialize (P w6 N6). now rewrite H in P.
Qed.

(** A props update that returns leaves the state the listeners run in:
    this is where the hypotheses of the theorems about the listeners and
    about the registry come from. *)
Theorem receiveProps_listening (nextProps : Props) (sf : Surface)
    (refs : Obj.t (option Instance_)) (w w' : World) (out : Rendered) :
  registryWf w ->
  sameProps (props w) nextProps = false ->
  receiveProps nextProps sf refs w = Returned out w' ->
  listening w' (List.length (store w))
    (leavingFrom (mappingOf (stateChildren w) w) nextProps
       (keysOf (mappingOf (stateChildren w) w)) Obj.empty).
Proof.
  intros Hwf Hp H.
  set (a := List.length (store w)).
  set (lk := leavingFrom _ _ _ _).
  unfold receiveProps in H. unfold bind at 1, gets at 1 in H.
  apply bind_inv in H. destruct H as (out' & w5 & Happly & H).
  apply bind_inv in H. destruct H as ([] & w6 & Hdid & H).
  unfold ret in H. inversion H. subst out' w6. clear H.
  unfold applyProps in Happly.
  apply bind_inv in Happly. destruct Happly as ([] & w1 & H1 & Happly).
  apply bind_inv in Happly. destruct Happly as ([] & w2 & H2 & Happly).
  unfold bind at 1, modify at 1 in Happly.
  unfold bind at 1, commitState, modify at 1 in Happly.
  apply bind_inv in Happly. destruct Happly as (out' & w4 & H4 & Happly).
  unfold bind, modify, ret in Happly. inversion Happly. subst out' w5. clear Happly.
  rewrite componentWillReceiveProps_run in H1. inversion H1 as [Hw1]. clear H1.
  (* componentWillUpdate *)
  set (P1 := fun w : World =>
               registryWf w /\ children w = Some a /\
               pendingState w = Some (Some a) /\
               a < List.length (store w) /\ leavingKeys w = Some lk).
  assert (HP1 : P1 w2).
  { assert (P : preserves P1 componentWillUpdate)
      by (apply preserves_componentWillUpdate; intros; assumption).
    specialize (P w1). rewrite H2 in P. apply P. rewrite <- Hw1.
    unfold P1, received. simpl. repeat split; auto.
    rewrite length_app. simpl. unfold a. lia. }
  destruct HP1 as (Hwf2 & Hc2 & Hpend2 & Ha2 & Hlk2).
  (* the commit and render *)
  set (P3 := fun w : World =>
               registryWf w /\ batchFields a lk w /\ props w = nextProps).
  change (pendingState (set_props nextProps w2)) with (pendingState w2) in H4.
  rewrite Hpend2 in H4.
  assert (HP4 : P3 w4).
  { assert (P : preserves P3 render)
      by (apply preserves_render; intros; assumption).
    match type of H4 with render ?x = _ => specialize (P x) end.
    rewrite H4 in P. apply P.
    split; [exact Hwf2|]. split; [|reflexivity].
    split; [exact Hc2|]. split; [reflexivity|]. split; [exact Ha2 | exact Hlk2]. }
  destruct HP4 as (Hwf4 & Hb4 & Hprops4).
  (* componentDidUpdate *)
  set (w5 := set_childRefs refs (set_surface sf w4)) in *.
  pose proof (registryWf_componentDidUpdate (props w) w5 Hwf4) as Hwf6.
  pose proof (batchFields_componentDidUpdate a lk (props w) w5 Hb4) as Hb6.
  assert (Hn6 : nodesForRegistered w').
  { apply (componentDidUpdate_nodes (props w) w5 w'); [|exact Hwf4|exact Hdid].
    change (props w5) with (props w4). now rewrite Hprops4. }
  rewrite Hdid in Hwf6, Hb6. simpl in Hwf6, Hb6.
  destruct Hb6 as (Hc6 & Hs6 & Ha6 & Hlk6).
  repeat split; auto.
  intros k v. apply leavingFrom_true. intros k' v' Hk'. discriminate.
Qed.

(** A frame leaves the state the listeners run in. *)
Lemma nextFrame_listening (w : World) a lk :
  listening w a lk -> listening (worldOf (nextFrame w)) a lk.
Proof.
  assert (P : preserves (fun w => listening w a lk) nextFrame)
    by (apply preserves_nextFrame; intros; assumption).
  apply P.
Qed.

Lemma bind_ext_on {A B} (m : M A) (k1 k2 : A -> M B) (w : World) :
  (forall a w1, m w = Returned a w1 -> k1 a w1 = k2 a w1) ->
  bind m k1 w = bind m k2 w.
Proof.
  intros H. unfold bind. destruct (m w) as [a w1|w1]; [now apply H | reflexivity].
Qed.

(** In the re-render that [setState] asks for, componentDidUpdate receives
    the props object [this.props] still is, and does nothing: the update is
    what it would be without that call. *)
Lemma rerender_skips_didUpdate (sf : Surface) (w : World) :
  rerender sf w
  = (componentWillUpdate ;; commitState ;;
     out <- render ;; modify (set_surface sf) ;; ret out) w.
Proof.
  set (I := fun w' : World => props w' = props w).
  assert (P1 : preserves I componentWillUpdate)
    by (apply preserves_componentWillUpdate; intros; assumption).
  assert (P2 : preserves I commitState).
  { apply preserves_modify. intros w0 H0. unfold I in *.
    destruct (pendingState w0); exact H0. }
  assert (P3 : preserves I render)
    by (apply preserves_render; intros; assumption).
  unfold rerender. unfold bind at 1, gets at 1.
  apply bind_ext_on. intros [] w1 H1.
  specialize (P1 w eq_refl). rewrite H1 in P1.
  apply bind_ext_on. intros [] w2 H2.
  specialize (P2 w1 P1). rewrite H2 in P2.
  apply bind_ext_on. intros out w3 H3.
  specialize (P3 w2 P2). rewrite H3 in P3.
  unfold I in P3. simpl in P3.
  unfold componentDidUpdate, bind, modify, gets, ret. simpl.
  rewrite P3. unfold sameProps. now rewrite Nat.eqb_refl.
Qed.

End Established.

(** * Further facts about the methods *)

(** ** componentWillReceiveProps, componentWillUpdate and the refresh *)

Section Passes.
Context {host : Host}.

Lemma leavingFrom_keys_iff prev nextProps ks : forall lk k,
  In k (Obj.keys (leavingFrom prev nextProps ks lk)) <->
  In k (Obj.keys lk) \/
  (In k ks /\
   truthy (match prev with Some m => Obj.get k m | None => None end) = true /\
   nextHas nextProps k = false).
Proof.
  unfold leavingFrom.
  induction ks as [|k0 ks IH]; intros lk k; simpl.
  - tauto.
  - rewrite IH. clear IH.
    destruct (truthy (match prev with Some m => Obj.get k0 m | None => None end)
              && negb (nextHas nextProps k0)) eqn:C.
    + apply andb_true_iff in C. destruct C as [C1 C2].
      apply negb_true_iff in C2. rewrite ObjFacts.keys_set_in.
      split.
      * intros [[->|H]|H]; [right; auto | now left | right; tauto].
      * intros [H|([<-|H] & Ht & Hn)]; [left; now right | left; now left | right; auto].
    + split.
      * intros [H|H]; [now left | right; tauto].
      * intros [H|([<-|H] & Ht & Hn)]; [now left | | right; auto].
        rewrite Ht, Hn in C. discriminate.
Qed.

(** X1. componentWillReceiveProps never throws. It makes [this.children] a
    new object holding the merged mapping and leaves the older mapping
    objects and [this.state] as they are; it calls [setState] once, with that
    object; and the keys it marks as leaving are exactly the keys whose child
    in the previous mapping is truthy and which the next mapping does not
    have, each marked [true]. *)
Theorem willReceiveProps_collects_leaving (nextProps : Props) (w : World) :
  let prev := mappingOf (stateChildren w) w in
  let a := List.length (store w) in
  exists w' lk,
    componentWillReceiveProps nextProps w = Returned tt w' /\
    children w' = Some a /\
    deref a w' = mergeChildMappings prev (getChildMapping (propChildren nextProps)) /\
    (forall b, b < a -> deref b w' = deref b w) /\
    stateChildren w' = stateChildren w /\
    log w' = log w ++ [SetStateCalled (Some a)] /\
    leavingKeys w' = Some lk /\
    (forall k, In k (Obj.keys lk) <->
       truthy (match prev with Some m => Obj.get k m | None => None end) = true /\
       nextHas nextProps k = false) /\
    (forall k v, Obj.get k lk = Some v -> v = true).
Proof.
  intros prev a.
  exists (received nextProps w),
         (leavingFrom prev nextProps (keysOf prev) Obj.empty).
  split; [apply componentWillReceiveProps_run|].
  split; [reflexivity|]. split.
  { unfold deref, received. simpl. fold a.
    rewrite app_nth2 by (unfold a; lia). unfold a. now rewrite Nat.sub_diag. }
  split.
  { intros b Hb. unfold deref, received. simpl. now rewrite app_nth1. }
  split; [reflexivity|]. split; [reflexivity|]. split; [reflexivity|]. split.
  - intros k. rewrite leavingFrom_keys_iff. simpl. split.
    + intros [[]|(_ & Ht & Hn)]. auto.
    + intros [Ht Hn]. right. split; [|auto].
      unfold keysOf. destruct prev as [m|]; [|discriminate].
      apply ObjFacts.get_in_keys. destruct (Obj.get k m); [discriminate | discriminate].
  - apply leavingFrom_true. intros k v H. discriminate.
Qed.

Lemma refreshNodes_get refs sf ks : forall d k,
  Obj.get k (refreshNodes refs sf ks d)
  = if in_dec string_dec k ks then Some (lookupNode refs sf k) else Obj.get k d.
Proof.
  unfold refreshNodes.
  induction ks as [|k0 ks IH]; intros d k; simpl; [reflexivity|].
  rewrite IH. destruct (in_dec string_dec k ks) as [Hin|Hin].
  - destruct (string_dec k0 k); reflexivity.
  - destruct (string_dec k0 k) as [->|Hne].
    + apply ObjFacts.get_set_same.
    + apply ObjFacts.get_set_other. congruence.
Qed.

(** X2. The refresh of the node references never throws and writes only
    [this.domNodes]: every key of [this.children] gets what [findDOMNode]
    gives for its ref (null when the ref is missing or null), and the entry
    of any other key, stale or not, stays as it was. *)
Theorem updateDomNodes_refreshes_children_only (w : World) :
  exists d,
    updateDomNodes w = Returned tt (set_domNodes d w) /\
    (forall k, In k (childrenKeys w) -> Obj.get k d = Some (resolveNode k w)) /\
    (forall k, ~ In k (childrenKeys w) -> Obj.get k d = Obj.get k (domNodes w)).
Proof.
  exists (refreshNodes (childRefs w) (surface w) (childrenKeys w) (domNodes w)).
  split; [apply updateDomNodes_run|].
  split; intros k Hk; rewrite refreshNodes_get;
    destruct (in_dec string_dec k (childrenKeys w)); try contradiction; reflexivity.
Qed.

Lemma forEach_captureStarting ks : forall (w : World),
  forEach ks (fun key =>
    r <- snapshot key ;;
    modify (fun w => set_startingPositions (Obj.set key r (startingPositions w)) w)) w
  = Returned tt
      (set_startingPositions
         (snapshotsOf (domNodes w) (getBoundingClientRect (surface w) (styles w))
            ks (startingPositions w))
         (set_log (log w ++ measureEvents (domNodes w) ks) w)).
Proof.
  induction ks as [|k ks IH]; intros w.
  - simpl. unfold ret. rewrite app_nil_r. now destruct w.
  - rewrite measureEvents_cons. cbn [forEach].
    unfold bind at 1. unfold bind at 1. rewrite snapshot_run.
    unfold modify at 1. rewrite IH. simpl. rewrite <- app_assoc. reflexivity.
Qed.

Lemma componentWillUpdate_run (w : World) :
  let dn := refreshNodes (childRefs w) (surface w) (childrenKeys w) (domNodes w) in
  componentWillUpdate w
  = Returned tt
      (set_startingPositions
         (snapshotsOf dn (getBoundingClientRect (surface w) (styles w))
            (childrenKeys w) Obj.empty)
         (set_log (log w ++ measureEvents dn (childrenKeys w))
            (set_domNodes dn w))).
Proof.
  intros dn. unfold componentWillUpdate.
  unfold bind at 1, modify at 1. unfold bind at 1. rewrite updateDomNodes_run.
  unfold bind at 1, gets at 1. rewrite forEach_captureStarting. reflexivity.
Qed.

(** X3. componentWillUpdate never throws and writes no style. It discards
    the previous starting snapshot: afterwards [this.startingPositions] has
    an entry exactly for the keys of [this.children], the box of the
    refreshed node of the key as the surface measures it now, or the empty
    object when the key has no node; all it does to the outside is
    measuring. *)
Theorem willUpdate_takes_starting_snapshot (w : World) :
  exists w' l,
    componentWillUpdate w = Returned tt w' /\
    log w' = log w ++ l /\
    Forall (fun e => exists n, e = Measured n) l /\
    styles w' = styles w /\ animations w' = animations w /\
    (forall k, In k (childrenKeys w) ->
       Obj.get k (domNodes w') = Some (resolveNode k w) /\
       Obj.get k (startingPositions w')
       = Some (match resolveNode k w with
               | Some n => getBoundingClientRect (surface w) (styles w) n
               | None => EmptyObject
               end)) /\
    (forall k, ~ In k (childrenKeys w) ->
       Obj.get k (startingPositions w') = None).
Proof.
  eexists. eexists. split; [apply componentWillUpdate_run|]. simpl.
  split; [reflexivity|]. split.
  { apply Forall_forall. intros e He. now apply measureEvents_spec in He. }
  split; [reflexivity|]. split; [reflexivity|]. split.
  - intros k Hk. rewrite snapshotsOf_get, refreshNodes_get.
    destruct (in_dec string_dec k (childrenKeys w)); [|contradiction].
    split; [reflexivity|]. unfold snapOf. rewrite refreshNodes_get.
    destruct (in_dec string_dec k (childrenKeys w)); [|contradiction].
    change (lookupNode (childRefs w) (surface w) k) with (resolveNode k w).
    destruct (resolveNode k w); reflexivity.
  - intros k Hk. rewrite snapshotsOf_get.
    destruct (in_dec string_dec k (childrenKeys w)); [contradiction | reflexivity].
Qed.

End Passes.

(** ** The cancel closures, and updates that throw *)

Section Throws.
Context {host : Host}.

Lemma returns_bind {A B} (m : M A) (k : A -> M B) (w : World) :
  returns (bind m k w)
  = match m w with
    | Returned a w1 => returns (k a w1)
    | Thrown _ => false
    end.
Proof. unfold bind. destruct (m w); reflexivity. Qed.

(** X4. Called through the registry for a key that has a node, the cancel
    closure returns; it leaves the transform and the transition of that node
    empty, touches no other style of any node, and removes the entry of the
    key and no other from the registry; a second call through the registry
    does nothing. *)
Theorem cancel_clears_node_and_entry (key : string) (n : NodeId) (w : World) :
  Obj.get key (animations w) = Some (CancelFor key) ->
  Obj.get key (domNodes w) = Some (Some n) ->
  exists w1,
    invokeRegistered key w = Returned tt w1 /\
    styles w1 n Transform = ""%string /\
    styles w1 n Transition = ""%string /\
    styles w1 n Display = styles w n Display /\
    (forall m p, m <> n -> styles w1 m p = styles w m p) /\
    Obj.get key (animations w1) = None /\
    (forall k, k <> key -> Obj.get k (animations w1) = Obj.get k (animations w)) /\
    invokeRegistered key w1 = Returned tt w1.
Proof.
  intros Hreg Hnode. exists (cancelled key n w).
  assert (Hrun : invokeRegistered key w = Returned tt (cancelled key n w)).
  { unfold invokeRegistered, bind, gets. rewrite Hreg. now apply callCancel_run. }
  split; [exact Hrun|]. simpl. unfold writeStyle. rewrite Nat.eqb_refl. simpl.
  repeat split.
  - intros m p Hm. apply Nat.eqb_neq in Hm. now rewrite Hm.
  - apply ObjFacts.get_del_same.
  - intros k Hk. now apply ObjFacts.get_del_other.
  - unfold invokeRegistered, bind, gets. simpl.
    now rewrite ObjFacts.get_del_same.
Qed.

Lemma forEach_invoke_throws key ks : forall (w : World),
  registryWf w -> In key ks ->
  Obj.get key (animations w) <> None ->
  (forall n, Obj.get key (domNodes w) <> Some (Some n)) ->
  returns (forEach ks invokeRegistered w) = false.
Proof.
  induction ks as [|k0 ks IH]; intros w Hwf Hin Hreg Hnode; [destruct Hin|].
  cbn [forEach]. rewrite returns_bind.
  destruct (invokeRegistered k0 w) as [[] w1|w1] eqn:E; [|reflexivity].
  destruct (invokeRegistered_returned k0 w w1 Hwf E)
    as [[Hnone ->] | (n & Hk0 & Hn0 & ->)].
  - apply IH; auto. destruct Hin as [->|Hin]; [contradiction | exact Hin].
  - assert (Hne : key <> k0) by (intros ->; now apply (Hnode n)).
    apply IH.
    + now apply registryWf_cancelled.
    + destruct Hin as [->|Hin]; [contradiction | exact Hin].
    + simpl. now rewrite ObjFacts.get_del_other.
    + exact Hnode.
Qed.

(** X5. When a registered key has no node (its entry in [this.domNodes] is
    null or missing), the loop that calls every registered cancel closure
    throws. *)
Theorem cancelAll_throws_without_node (key : string) (w : World) :
  registryWf w ->
  Obj.get key (animations w) <> None ->
  (forall n, Obj.get key (domNodes w) <> Some (Some n)) ->
  returns (cancelAll w) = false.
Proof.
  intros Hwf Hreg Hnode. unfold cancelAll. rewrite returns_bind. unfold gets.
  apply forEach_invoke_throws with key; auto.
  now apply ObjFacts.get_in_keys.
Qed.

Lemma forEach_captureReal ks : forall (w : World) rp,
  realPositions w = Some rp ->
  forEach ks (fun key =>
    r <- snapshot key ;;
    modify (fun w =>
      set_realPositions
        (match realPositions w with
         | Some rp => Some (Obj.set key r rp)
         | None => None
         end) w)) w
  = Returned tt
      (set_realPositions
         (Some (snapshotsOf (domNodes w)
                  (getBoundingClientRect (surface w) (styles w)) ks rp))
         (set_log (log w ++ measureEvents (domNodes w) ks) w)).
Proof.
  induction ks as [|k ks IH]; intros w rp Hrp.
  - simpl. unfold ret. rewrite app_nil_r, <- Hrp. now destruct w.
  - rewrite measureEvents_cons. cbn [forEach].
    unfold bind at 1. unfold bind at 1. rewrite snapshot_run.
    unfold modify at 1. simpl. rewrite Hrp.
    erewrite IH by reflexivity. simpl. rewrite <- app_assoc. reflexivity.
Qed.

Lemma captureReal_run (w : World) :
  captureReal w
  = Returned tt
      (set_realPositions
         (Some (snapshotsOf (domNodes w)
                  (getBoundingClientRect (surface w) (styles w))
                  (childrenKeys w) Obj.empty))
         (set_log (log w ++ measureEvents (domNodes w) (childrenKeys w)) w)).
Proof.
  unfold captureReal. unfold bind at 1, modify at 1. unfold bind at 1, gets at 1.
  erewrite forEach_captureReal by reflexivity. reflexivity.
Qed.

(** With no real box the planner always emits a descriptor. *)
Lemma planKey_no_real first last : planKey first EmptyObject last <> None.
Proof.
  intros H. apply planKey_none in H. destruct H as [_ H].
  unfold herePos, resolve in H.
  destruct (offStage last) eqn:O; simpl in H; [discriminate|].
  destruct last; simpl in *; discriminate.
Qed.

Lemma calcAnimations_lookups ks sp rp ep : forall acc anims,
  calcAnimations ks sp rp ep acc = Some anims ->
  forall k, In k ks ->
    exists first real last,
      Obj.get k sp = Some first /\ Obj.get k rp = Some real /\
      Obj.get k ep = Some last.
Proof.
  induction ks as [|k0 ks IH]; intros acc anims H k Hin; [destruct Hin|].
  simpl in H.
  destruct (Obj.get k0 sp) as [f|] eqn:Ef; [|discriminate].
  destruct (Obj.get k0 rp) as [r|] eqn:Er; [|discriminate].
  destruct (Obj.get k0 ep) as [l|] eqn:El; [|discriminate].
  destruct Hin as [<-|Hin]; [exists f, r, l; auto|]. now apply (IH _ _ H).
Qed.

Lemma planAnimations_returned (w w' : World) anims rp :
  realPositions w = Some rp ->
  planAnimations w = Returned anims w' ->
  w' = w /\
  calcAnimations (childrenKeys w) (startingPositions w) rp (endingPositions w)
    Obj.empty = Some anims.
Proof.
  intros Hrp. unfold planAnimations, bind, gets. rewrite Hrp.
  destruct (calcAnimations _ _ _ _ _) as [an|]; [|discriminate].
  unfold ret. intros H. inversion H. auto.
Qed.

Lemma forEach_install_throws anims key ks : forall (w : World),
  In key ks ->
  (forall n, Obj.get key (domNodes w) <> Some (Some n)) ->
  returns
    (forEach ks (fun key =>
       modify (fun w => set_animations (Obj.set key (CancelFor key) (animations w)) w) ;;
       n <- nodeOf key ;;
       match Obj.get key anims with
       | Some d => setStyle n Transform (startTransform d)
       | None => throw
       end) w) = false.
Proof.
  induction ks as [|k0 ks IH]; intros w Hin Hnode; [destruct Hin|].
  cbn [forEach]. rewrite returns_bind.
  match goal with |- match ?b w with _ => _ end = _ => destruct (b w) as [[] w1|w1] eqn:E end;
    [|reflexivity].
  unfold bind at 1, modify at 1 in E.
  unfold bind at 1, nodeOf, bind at 1, gets at 1 in E. simpl in E.
  destruct (Obj.get k0 (domNodes w)) as [[n|]|] eqn:D; try discriminate.
  unfold ret at 1 in E.
  destruct (Obj.get k0 anims) as [d|]; [|discriminate].
  unfold setStyle, emit, bind, modify in E. inversion E. subst w1.
  apply IH; [|exact Hnode].
  destruct Hin as [->|Hin]; [|exact Hin]. exfalso. now apply (Hnode n).
Qed.

(** X6. An update with new props throws whenever a key of [this.children]
    has no node after the refresh: the real snapshot of such a key is the
    empty object, the planner then always emits a descriptor for it, and
    writing the start transform dereferences the missing node. *)
Theorem didUpdate_throws_on_child_without_node (w : World) (prevProps : Props)
    (key : string) :
  sameProps prevProps (props w) = false ->
  In key (childrenKeys w) ->
  resolveNode key w = None ->
  returns (componentDidUpdate prevProps w) = false.
Proof.
  intros Hp Hin Hnone.
  unfold componentDidUpdate. rewrite returns_bind. unfold gets at 1. rewrite Hp.
  rewrite returns_bind, updateDomNodes_run.
  set (w1 := set_domNodes _ w).
  set (P1 := fun w' : World =>
               In key (childrenKeys w') /\ Obj.get key (domNodes w') = Some None).
  assert (HP1 : P1 w1).
  { split; [exact Hin|]. unfold w1. simpl. rewrite refreshNodes_get.
    destruct (in_dec string_dec key (childrenKeys w)); [|contradiction].
    change (lookupNode (childRefs w) (surface w) key) with (resolveNode key w).
    now rewrite Hnone. }
  rewrite returns_bind.
  destruct (cancelAll w1) as [[] w2|w2] eqn:E2; [|reflexivity].
  assert (HP2 : P1 w2).
  { assert (P : preserves P1 cancelAll)
      by (apply preserves_cancelAll; intros; assumption).
    specialize (P w1 HP1). now rewrite E2 in P. }
  rewrite returns_bind, captureReal_run.
  set (w3 := set_realPositions _ _).
  set (P3 := fun w' : World =>
               P1 w' /\ exists rp, realPositions w' = Some rp /\
                                   Obj.get key rp = Some EmptyObject).
  assert (HP3 : P3 w3).
  { split; [exact HP2|]. eexists. split; [reflexivity|].
    rewrite snapshotsOf_get. destruct HP2 as [Hin2 Hd2].
    destruct (in_dec string_dec key (childrenKeys w2)); [|contradiction].
    unfold snapOf. now rewrite Hd2. }
  rewrite returns_bind.
  destruct (captureEndingHidden w3) as [[] w4|w4] eqn:E4; [|reflexivity].
  assert (HP4 : P3 w4).
  { assert (P : preserves P3 captureEndingHidden)
      by (apply preserves_captureEndingHidden; intros; assumption).
    specialize (P w3 HP3). now rewrite E4 in P. }
  destruct HP4 as ((Hin4 & Hd4) & rp & Hrp & Hkey).
  rewrite returns_bind.
  destruct (planAnimations w4) as [anims w5|w5] eqn:E5; [|reflexivity].
  destruct (planAnimations_returned w4 w5 anims rp Hrp E5) as [-> Hcalc].
  rewrite returns_bind.
  assert (Hk : In key (Obj.keys anims)).
  { apply ObjFacts.get_in_keys.
    destruct (calcAnimations_lookups _ _ _ _ _ _ Hcalc key Hin4)
      as (first & real & last & Hf & Hr & Hl).
    destruct (calcAnimations_get _ _ _ _ _ _ Hcalc key) as [_ Hget].
    rewrite (Hget Hin4 _ _ _ Hf Hr Hl).
    rewrite Hkey in Hr. inversion Hr. subst real.
    pose proof (planKey_no_real first last) as Hd.
    destruct (planKey first EmptyObject last); [discriminate | contradiction]. }
  assert (Hthrow : returns (installAnimations anims w4) = false).
  { unfold installAnimations. apply forEach_install_throws with key; [exact Hk|].
    intros n. rewrite Hd4. discriminate. }
  destruct (installAnimations anims w4); [discriminate | reflexivity].
Qed.

End Throws.

Lemma cancel_clears_node_and_entry_witness :
  exists w1,
    invokeRegistered "b"%string Stack.interrupting = Returned tt w1 /\
    styles w1 2 Transform = ""%string /\
    invokeRegistered "b"%string w1 = Returned tt w1.
Proof.
  assert (Hn : Obj.get "b"%string (domNodes Stack.interrupting) = Some (Some 2))
    by (vm_compute; reflexivity).
  assert (Hr : Obj.get "b"%string (animations Stack.interrupting) = Some (CancelFor "b"))
    by (rewrite interrupting_registry; reflexivity).
  destruct (@cancel_clears_node_and_entry Stack.host "b"%string 2
              Stack.interrupting Hr Hn)
    as (w1 & Hrun & Ht & _ & _ & _ & _ & _ & Hagain).
  exists w1. auto.
Defined.

Lemma unhooked_registry :
  animations Runs.unhooked = [("c", CancelFor "c"); ("b", CancelFor "b")]%string.
Proof. vm_compute. reflexivity. Defined.

Lemma unhooked_node : Obj.get "c"%string (domNodes Runs.unhooked) = Some None.
Proof. vm_compute. reflexivity. Defined.

Lemma cancelAll_throws_without_node_witness :
  returns (cancelAll Runs.unhooked) = false.
Proof.
  apply (@cancelAll_throws_without_node Stack.host "c"%string).
  - apply registryWf_entries. rewrite unhooked_registry.
    intros k c [H|[H|[]]]; inversion H; reflexivity.
  - rewrite unhooked_registry. simpl. discriminate.
  - intros n. rewrite unhooked_node. discriminate.
Defined.

Lemma refless_fields :
  sameProps (Stack.propsOf 1 [Stack.a; Stack.b]) (props Runs.refless) = false /\
  childrenKeys Runs.refless = ["a"; "c"; "b"]%string /\
  resolveNode "c"%string Runs.refless = None.
Proof. vm_compute. repeat split. Defined.

Lemma didUpdate_throws_on_child_without_node_witness :
  returns (componentDidUpdate (Stack.propsOf 1 [Stack.a; Stack.b]) Runs.refless)
  = false.
Proof.
  destruct refless_fields as (Hp & Hk & Hn).
  apply (@didUpdate_throws_on_child_without_node Stack.host Runs.refless
           (Stack.propsOf 1 [Stack.a; Stack.b]) "c"%string Hp); [|exact Hn].
  rewrite Hk. simpl. auto.
Defined.

(** ** The planner on entering, leaving and moving keys *)

Lemma resolve_measured snap l t w h :
  exists x y, resolve snap (DOMRect l t w h) = (JS.Num x, JS.Num y).
Proof.
  unfold resolve. destruct (offStage snap) eqn:O.
  - simpl. eauto.
  - destruct snap; [discriminate|]. simpl. eauto.
Qed.

(** X7. When the real snapshot is a measured box, both transforms of an
    emitted descriptor are translations by numbers: neither [NaN] nor
    [undefined] reaches the text of a transform, whatever the starting and
    ending snapshots are. *)
Theorem measured_real_gives_numeric_transforms (first last : Rect)
    (l t w h : Z) (d : Descriptor) :
  planKey first (DOMRect l t w h) last = Some d ->
  exists sx sy ex ey,
    startTransform d = translate (JS.Num sx) (JS.Num sy) /\
    endTransform d = translate (JS.Num ex) (JS.Num ey).
Proof.
  intros P. apply planKey_some in P. destruct P as [Ps Pe].
  destruct (resolve_measured first l t w h) as (x1 & y1 & E1).
  destruct (resolve_measured last l t w h) as (x2 & y2 & E2).
  rewrite E1 in Ps. rewrite E2 in Pe. simpl in Ps, Pe.
  exists (x1 - l)%Z, (y1 - t)%Z, (x2 - l)%Z, (y2 - t)%Z. auto.
Qed.

Lemma resolve_sized l t w h real :
  ~ (w = 0 /\ h = 0)%Z ->
  resolve (DOMRect l t w h) real = (JS.Num l, JS.Num t).
Proof.
  intros Hs. unfold resolve, offStage. simpl.
  destruct (Z.eqb_spec h 0), (Z.eqb_spec w 0); simpl; try reflexivity. tauto.
Qed.

Lemma resolve_zeroSized snap l t w h :
  zeroSized snap ->
  resolve snap (DOMRect l t w h) = (JS.Num (- w), JS.Num t).
Proof.
  intros Hz. apply offStage_zeroSized in Hz. unfold resolve. rewrite Hz. simpl.
  now replace (w * -1)%Z with (- w)%Z by lia.
Qed.

(** X8. An entering key (starting snapshot of zero size, ending snapshot
    equal to the measured real box): a descriptor is emitted unless the box
    already lies one width left of the origin; it starts translated by
    (-width - left, 0) and ends with the zero translation. *)
Theorem entering_key_slides_in (first : Rect) (l t w h : Z) :
  zeroSized first ->
  ~ (w = 0 /\ h = 0)%Z ->
  let real := DOMRect l t w h in
  (planKey first real real = None <-> l = (- w)%Z) /\
  (forall d, planKey first real real = Some d ->
     startTransform d = translate (JS.Num (- w - l)) (JS.Num 0) /\
     endTransform d = "translate(0px, 0px)"%string).
Proof.
  intros Hz Hs real. unfold real.
  pose proof (resolve_zeroSized first l t w h Hz) as R1.
  pose proof (resolve_sized l t w h (DOMRect l t w h) Hs) as R2.
  split.
  - rewrite planKey_none. unfold allEqual, herePos. rewrite R1, R2. simpl. split.
    + intros [H _]. inversion H. lia.
    + intros ->. replace (- - w)%Z with w by lia. auto.
  - intros d P. apply planKey_some in P. rewrite R1, R2 in P. simpl in P.
    destruct P as [-> ->]. rewrite !Z.sub_diag. split; reflexivity.
Qed.

(** X9. A leaving key (starting snapshot equal to the measured real box,
    ending snapshot of zero size because its node is hidden): a descriptor is
    emitted unless the box already lies one width left of the origin; it
    starts with the zero translation and ends translated by
    (-width - left, 0). *)
Theorem leaving_key_slides_out (last : Rect) (l t w h : Z) :
  zeroSized last ->
  ~ (w = 0 /\ h = 0)%Z ->
  let real := DOMRect l t w h in
  (planKey real real last = None <-> l = (- w)%Z) /\
  (forall d, planKey real real last = Some d ->
     startTransform d = "translate(0px, 0px)"%string /\
     endTransform d = translate (JS.Num (- w - l)) (JS.Num 0)).
Proof.
  intros Hz Hs real. unfold real.
  pose proof (resolve_zeroSized last l t w h Hz) as R1.
  pose proof (resolve_sized l t w h (DOMRect l t w h) Hs) as R2.
  split.
  - rewrite planKey_none. unfold allEqual, herePos. rewrite R1, R2. simpl. split.
    + intros [H _]. inversion H. lia.
    + intros ->. replace (- - w)%Z with w by lia. auto.
  - intros d P. apply planKey_some in P. rewrite R1, R2 in P. simpl in P.
    destruct P as [-> ->]. rewrite !Z.sub_diag. split; reflexivity.
Qed.

(** X10. A key that stays (all three snapshots measured and not of zero
    size, the ending one equal to the real one): a descriptor is emitted
    exactly when left or top changed between the starting and the real box;
    a change of width or height alone gives none; the start transform is the
    displacement back to the old place and the end transform is the zero
    translation. *)
Theorem moved_key_inverts_displacement (l0 t0 w0 h0 l t w h : Z) :
  ~ (w0 = 0 /\ h0 = 0)%Z ->
  ~ (w = 0 /\ h = 0)%Z ->
  let first := DOMRect l0 t0 w0 h0 in
  let real := DOMRect l t w h in
  (planKey first real real = None <-> l0 = l /\ t0 = t) /\
  (forall d, planKey first real real = Some d ->
     startTransform d = translate (JS.Num (l0 - l)) (JS.Num (t0 - t)) /\
     endTransform d = "translate(0px, 0px)"%string).
Proof.
  intros Hs0 Hs first real. unfold first, real.
  pose proof (resolve_sized l0 t0 w0 h0 (DOMRect l t w h) Hs0) as R1.
  pose proof (resolve_sized l t w h (DOMRect l t w h) Hs) as R2.
  split.
  - rewrite planKey_none. unfold allEqual, herePos. rewrite R1, R2. simpl. split.
    + intros [H _]. inversion H. auto.
    + intros [-> ->]. auto.
  - intros d P. apply planKey_some in P. rewrite R1, R2 in P. simpl in P.
    destruct P as [-> ->]. rewrite !Z.sub_diag. split; reflexivity.
Qed.

Lemma measured_real_gives_numeric_transforms_witness :
  exists sx sy ex ey,
    transform (fst ({| transform := "translate(-108px, 0px)" |},
                    {| transform := "translate(0px, 0px)" |}))
    = translate (JS.Num sx) (JS.Num sy) /\
    transform (snd ({| transform := "translate(-108px, 0px)" |},
                    {| transform := "translate(0px, 0px)" |}))
    = translate (JS.Num ex) (JS.Num ey).
Proof.
  exact (measured_real_gives_numeric_transforms EmptyObject
           (DOMRect 8 20 100 20) 8 20 100 20 _ eq_refl).
Defined.

Lemma entering_key_slides_in_witness :
  planKey EmptyObject (DOMRect 8 20 100 20) (DOMRect 8 20 100 20)
  = Some ({| transform := "translate(-108px, 0px)" |},
          {| transform := "translate(0px, 0px)" |}) /\
  startTransform ({| transform := "translate(-108px, 0px)" |},
                  {| transform := "translate(0px, 0px)" |})
  = translate (JS.Num (- 100 - 8)) (JS.Num 0).
Proof.
  split; [reflexivity|].
  destruct (entering_key_slides_in EmptyObject 8 20 100 20 (or_introl eq_refl))
    as [_ H]; [lia|].
  exact (proj1 (H _ eq_refl)).
Defined.

Lemma leaving_key_slides_out_witness :
  planKey (DOMRect 8 0 100 20) (DOMRect 8 0 100 20) (DOMRect 0 0 0 0)
  = Some ({| transform := "translate(0px, 0px)" |},
          {| transform := "translate(-108px, 0px)" |}) /\
  endTransform ({| transform := "translate(0px, 0px)" |},
                {| transform := "translate(-108px, 0px)" |})
  = translate (JS.Num (- 100 - 8)) (JS.Num 0).
Proof.
  split; [reflexivity|].
  destruct (leaving_key_slides_out (DOMRect 0 0 0 0) 8 0 100 20) as [_ H].
  - right. exists 0%Z, 0%Z. reflexivity.
  - lia.
  - exact (proj2 (H _ eq_refl)).
Defined.

Lemma moved_key_inverts_displacement_witness :
  planKey (DOMRect 8 20 100 20) (DOMRect 8 40 100 20) (DOMRect 8 40 100 20)
  = Some ({| transform := "translate(0px, -20px)" |},
          {| transform := "translate(0px, 0px)" |}) /\
  (planKey (DOMRect 8 20 100 20) (DOMRect 8 20 300 50) (DOMRect 8 20 300 50) = None).
Proof.
  split; [reflexivity|].
  destruct (moved_key_inverts_displacement 8 20 100 20 8 20 300 50) as [H _];
    [lia | lia |].
  apply H. split; reflexivity.
Defined.

(** ** The two frame callbacks *)

Section Frames.
Context {host : Host}.

Lemma set_styles_same_log_nil (w : World) :
  set_styles (styles w) (set_log (log w ++ []) w) = w.
Proof. rewrite app_nil_r. now destruct w. Qed.

Lemma forEach_arm ks : forall (w : World),
  haveNodes (domNodes w) ks ->
  forEach ks (fun key => n <- nodeOf key ;; setStyle n Transition transitionCss) w
  = Returned tt
      (set_styles (armedStyles (domNodes w) ks (styles w))
         (set_log (log w ++ armEvents (domNodes w) ks) w)).
Proof.
  induction ks as [|k ks IH]; intros w Hn.
  - simpl. unfold ret. now rewrite set_styles_same_log_nil.
  - destruct (Hn k (or_introl eq_refl)) as (n & Dk).
    cbn [forEach armEvents armedStyles]. rewrite Dk.
    unfold bind at 1. unfold bind at 1, nodeOf, bind at 1, gets at 1.
    rewrite Dk. unfold ret at 1.
    unfold setStyle, emit, bind at 1, modify at 1, modify at 1.
    rewrite IH by (intros k' Hk'; apply Hn; now right).
    simpl. rewrite <- app_assoc. reflexivity.
Qed.

Lemma armedStyles_spec dn ks : forall st n p,
  armedStyles dn ks st n p
  = if stylePropEqb p Transition && hides dn ks n then transitionCss else st n p.
Proof.
  induction ks as [|k ks IH]; intros st n p; simpl.
  - now rewrite andb_false_r.
  - unfold nodeIs. destruct (Obj.get k dn) as [[m|]|]; rewrite IH; simpl; auto.
    rewrite writeStyle_get, (Nat.eqb_sym m n).
    destruct (stylePropEqb p Transition), (hides dn ks n), (Nat.eqb n m); reflexivity.
Qed.

(** X11. The first frame callback, when every key of the planned animations
    has a node: it returns; it sets the transition of the node of each key
    to [transform 0.5s cubic-bezier(0,0,0.32,1)] and writes no other style;
    it requests exactly one further frame, for the second callback over the
    same animations; it adds no listener and leaves the registry alone. *)
Theorem arm_frame_sets_transitions (anims : Obj.t Descriptor) (w : World) :
  haveNodes (domNodes w) (Obj.keys anims) ->
  exists w',
    runCallback (ArmTransitions anims) w = Returned tt w' /\
    (forall n p,
       styles w' n p
       = if stylePropEqb p Transition && hides (domNodes w) (Obj.keys anims) n
         then transitionCss else styles w n p) /\
    frames w' = frames w ++ [RunTransitions anims] /\
    log w' = log w ++ armEvents (domNodes w) (Obj.keys anims)
                   ++ [FrameRequested (RunTransitions anims)] /\
    listeners w' = listeners w /\
    animations w' = animations w /\
    domNodes w' = domNodes w.
Proof.
  intros Hn. eexists. split.
  - unfold runCallback. unfold bind at 1. rewrite forEach_arm by exact Hn.
    unfold requestAnimationFrame, emit, bind, modify. reflexivity.
  - simpl. split; [|split; [|split]]; auto.
    + intros n p. apply armedStyles_spec.
    + now rewrite <- app_assoc.
Qed.

Lemma forEach_move anims ks : forall (w : World),
  haveNodes (domNodes w) ks ->
  (forall k, In k ks -> Obj.get k anims <> None) ->
  forEach ks (fun key =>
    n <- nodeOf key ;;
    match Obj.get key anims with
    | Some d => setStyle n Transform (endTransform d)
    | None => throw
    end ;;
    n' <- nodeOf key ;;
    addEventListener n' (OnTransitionEnd key)) w
  = Returned tt
      (set_listeners (listeners w ++ listenersFor (domNodes w) ks)
         (set_styles (movedStyles (domNodes w) anims ks (styles w))
            (set_log (log w ++ moveEvents (domNodes w) anims ks) w))).
Proof.
  induction ks as [|k ks IH]; intros w Hn Ha.
  - simpl. unfold ret. rewrite !app_nil_r. now destruct w.
  - destruct (Hn k (or_introl eq_refl)) as (n & Dk).
    destruct (Obj.get k anims) as [d|] eqn:Ak;
      [|exfalso; apply (Ha k (or_introl eq_refl)); exact Ak].
    cbn [forEach moveEvents movedStyles listenersFor]. rewrite Dk, Ak.
    unfold bind at 1. unfold bind at 1, nodeOf at 1, bind at 1, gets at 1.
    rewrite Dk. unfold ret at 1.
    unfold bind at 1, setStyle, emit, bind at 1, modify at 1, modify at 1.
    unfold bind at 1, nodeOf, bind at 1, gets at 1. cbn [domNodes set_styles set_log].
    rewrite Dk. unfold ret at 1.
    unfold addEventListener, emit, bind at 1, modify at 1, modify at 1.
    rewrite IH; [|intros k' Hk'; apply Hn; now right|intros k' Hk'; apply Ha; now right].
    simpl. rewrite <- !app_assoc. reflexivity.
Qed.

Lemma movedStyles_other dn anims ks : forall st n p,
  p <> Transform \/ hides dn ks n = false ->
  movedStyles dn anims ks st n p = st n p.
Proof.
  induction ks as [|k ks IH]; intros st n p H; simpl; [reflexivity|].
  assert (H' : p <> Transform \/ hides dn ks n = false).
  { destruct H as [H|H]; [now left|right]. simpl in H.
    now apply orb_false_iff in H. }
  destruct (Obj.get k dn) as [[m|]|] eqn:Dk; try now apply IH.
  destruct (Obj.get k anims) as [d|]; [|now apply IH].
  rewrite IH by exact H'. rewrite writeStyle_get.
  destruct H as [H|H].
  - destruct p; try (now rewrite andb_false_r). congruence.
  - simpl in H. apply orb_false_iff in H. destruct H as [H _].
    unfold nodeIs in H. rewrite Dk in H. rewrite (Nat.eqb_sym n m), H. reflexivity.
Qed.

Lemma movedStyles_key dn anims n d ks : forall st,
  (forall k, In k ks -> Obj.get k dn = Some (Some n) -> Obj.get k anims = Some d) ->
  hides dn ks n = true ->
  movedStyles dn anims ks st n Transform = endTransform d.
Proof.
  induction ks as [|k ks IH]; intros st Hk Hh; simpl in *; [discriminate|].
  assert (Hk' : forall k', In k' ks -> Obj.get k' dn = Some (Some n) ->
                           Obj.get k' anims = Some d) by (intros; apply Hk; auto).
  destruct (hides dn ks n) eqn:Hr.
  - destruct (Obj.get k dn) as [[m|]|]; try now apply IH.
    destruct (Obj.get k anims); now apply IH.
  - rewrite orb_false_r in Hh. apply nodeIs_true in Hh.
    rewrite Hh, (Hk k (or_introl eq_refl) Hh).
    rewrite movedStyles_other by (right; exact Hr).
    rewrite writeStyle_get, Nat.eqb_refl. reflexivity.
Qed.

(** X12. The second frame callback, when every key of the planned
    animations has a node: it returns; it adds one transitionend listener
    per key, in the order of the keys, on the node of the key, and removes
    none; it writes no style but the transform of those nodes, which (no two
    of the keys sharing a node) ends as the end transform of the key's
    descriptor; it requests no further frame and leaves the registry
    alone. *)
Theorem run_frame_moves_and_listens (anims : Obj.t Descriptor) (w : World) :
  haveNodes (domNodes w) (Obj.keys anims) ->
  exists w',
    runCallback (RunTransitions anims) w = Returned tt w' /\
    listeners w' = listeners w ++ listenersFor (domNodes w) (Obj.keys anims) /\
    log w' = log w ++ moveEvents (domNodes w) anims (Obj.keys anims) /\
    (forall n p, p <> Transform \/ hides (domNodes w) (Obj.keys anims) n = false ->
       styles w' n p = styles w n p) /\
    (distinctOn (domNodes w) (Obj.keys anims) ->
     forall k n d,
       Obj.get k (domNodes w) = Some (Some n) -> Obj.get k anims = Some d ->
       styles w' n Transform = endTransform d) /\
    frames w' = frames w /\
    animations w' = animations w /\
    domNodes w' = domNodes w.
Proof.
  intros Hn. eexists. split.
  - unfold runCallback. apply forEach_move; [exact Hn|]. intros k Hk. now apply ObjFacts.get_in_keys.
  - simpl. split; [|split; [|split; [|split]]]; auto.
    + intros n p H. now apply movedStyles_other.
    + intros Hd k n d Dk Ak.
      assert (Hin : In k (Obj.keys anims))
        by (apply ObjFacts.get_in_keys; congruence).
      apply movedStyles_key.
      * intros k' Hin' Dk'. now rewrite (Hd k' k n Hin' Hin Dk' Dk).
      * apply hides_true. eauto.
Qed.

Lemma forEach_throws_at (body : string -> M unit) key ks : forall (w : World),
  In key ks ->
  (forall k (w : World), (forall n, Obj.get key (domNodes w) <> Some (Some n)) ->
     forall n, Obj.get key (domNodes (worldOf (body k w))) <> Some (Some n)) ->
  (forall w : World, (forall n, Obj.get key (domNodes w) <> Some (Some n)) ->
     returns (body key w) = false) ->
  (forall n, Obj.get key (domNodes w) <> Some (Some n)) ->
  returns (forEach ks body w) = false.
Proof.
  induction ks as [|k ks IH]; intros w Hin Hkeep Hthrow Hnode; [destruct Hin|].
  cbn [forEach]. rewrite returns_bind.
  destruct (string_dec k key) as [->|Hne].
  - specialize (Hthrow w Hnode). destruct (body key w); [discriminate | reflexivity].
  - pose proof (Hkeep k w Hnode) as Hw1.
    destruct (body k w) as [[] w1|w1]; [|reflexivity].
    apply IH; [|exact Hkeep|exact Hthrow|exact Hw1].
    destruct Hin as [->|Hin]; [contradiction | exact Hin].
Qed.

(** X13. When a key of the planned animations has no node at the time a
    frame callback runs, the callback throws: the first one then requests no
    second frame, so the transitions of that update never start; the second
    one throws as well. *)
Theorem frame_callback_throws_without_node (anims : Obj.t Descriptor)
    (key : string) (w : World) :
  In key (Obj.keys anims) ->
  (forall n, Obj.get key (domNodes w) <> Some (Some n)) ->
  returns (runCallback (ArmTransitions anims) w) = false /\
  frames (worldOf (runCallback (ArmTransitions anims) w)) = frames w /\
  returns (runCallback (RunTransitions anims) w) = false.
Proof.
  intros Hin Hnode.
  assert (Harm : returns
    (forEach (Obj.keys anims)
       (fun key => n <- nodeOf key ;; setStyle n Transition transitionCss) w) = false).
  { apply (forEach_throws_at _ key); auto.
    - intros k w0 H0. unfold bind, nodeOf, gets, bind, setStyle, emit, modify, ret, throw.
      destruct (Obj.get k (domNodes w0)) as [[m|]|]; simpl; exact H0.
    - intros w0 H0. unfold bind at 1, nodeOf, bind, gets.
      destruct (Obj.get key (domNodes w0)) as [[m|]|] eqn:D; try reflexivity.
      exfalso. now apply (H0 m). }
  split; [|split].
  - unfold runCallback. rewrite returns_bind.
    destruct (forEach _ _ w); [discriminate | reflexivity].
  - unfold runCallback. unfold bind at 1.
    assert (P : preserves (fun w' => frames w' = frames w)
      (forEach (Obj.keys anims)
         (fun key => n <- nodeOf key ;; setStyle n Transition transitionCss))).
    { apply preserves_forEach. intros k. apply preserves_bind.
      - apply preserves_nodeOf.
      - intros n. apply preserves_setStyle; intros; assumption. }
    specialize (P w eq_refl).
    destruct (forEach _ _ w) as [[] w1|w1]; [discriminate | exact P].
  - unfold runCallback. apply (forEach_throws_at _ key); auto.
    + intros k w0 H0.
      unfold bind, nodeOf, gets, bind, setStyle, addEventListener, emit, modify,
        ret, throw.
      destruct (Obj.get k (domNodes w0)) as [[m|]|] eqn:D; simpl; try exact H0.
      destruct (Obj.get k anims); simpl; [rewrite D; simpl|]; exact H0.
    + intros w0 H0. unfold bind at 1. unfold bind at 1, nodeOf at 1, bind at 1, gets at 1.
      destruct (Obj.get key (domNodes w0)) as [[m|]|] eqn:D; try reflexivity.
      exfalso. now apply (H0 m).
Qed.

End Frames.

Lemma inserted_frames : frames Stack.inserted = [ArmTransitions Runs.plan].
Proof. vm_compute. reflexivity. Qed.

Lemma inserted_nodes :
  domNodes Stack.inserted = [("a", Some 1); ("c", Some 3); ("b", Some 2)]%string.
Proof. vm_compute. reflexivity. Qed.

Lemma armed_frames : frames Runs.armed = [RunTransitions Runs.plan].
Proof. vm_compute. reflexivity. Qed.

Lemma armed_nodes :
  domNodes Runs.armed = [("a", Some 1); ("c", Some 3); ("b", Some 2)]%string.
Proof. vm_compute. reflexivity. Qed.

Lemma unhooked_frames : frames Runs.unhooked = [ArmTransitions Runs.plan].
Proof. vm_compute. reflexivity. Qed.

Lemma plan_haveNodes :
  haveNodes [("a", Some 1); ("c", Some 3); ("b", Some 2)]%string (Obj.keys Runs.plan).
Proof. intros k [<-|[<-|[]]]; eexists; reflexivity. Qed.

Lemma plan_distinct :
  distinctOn [("a", Some 1); ("c", Some 3); ("b", Some 2)]%string (Obj.keys Runs.plan).
Proof.
  intros k1 k2 n [<-|[<-|[]]] [<-|[<-|[]]]; simpl; intros H1 H2; congruence.
Qed.

Lemma arm_frame_sets_transitions_witness :
  exists w',
    runCallback (ArmTransitions Runs.plan) Stack.inserted = Returned tt w' /\
    frames w' = frames Stack.inserted ++ [RunTransitions Runs.plan] /\
    styles w' 3 Transition = transitionCss /\
    styles w' 1 Transition = styles Stack.inserted 1 Transition.
Proof.
  assert (H : haveNodes (domNodes Stack.inserted) (Obj.keys Runs.plan))
    by (rewrite inserted_nodes; exact plan_haveNodes).
  destruct (@arm_frame_sets_transitions Stack.host Runs.plan Stack.inserted H)
    as (w' & R & S & F & _).
  exists w'. split; [exact R|]. split; [exact F|].
  rewrite !S, inserted_nodes. split; reflexivity.
Defined.

Lemma run_frame_moves_and_listens_witness :
  exists w',
    runCallback (RunTransitions Runs.plan) Runs.armed = Returned tt w' /\
    listeners w' = listeners Runs.armed
                   ++ [(3, OnTransitionEnd "c"); (2, OnTransitionEnd "b")]%string /\
    styles w' 2 Transform = "translate(0px, 0px)"%string /\
    frames w' = frames Runs.armed.
Proof.
  assert (H : haveNodes (domNodes Runs.armed) (Obj.keys Runs.plan))
    by (rewrite armed_nodes; exact plan_haveNodes).
  destruct (@run_frame_moves_and_listens Stack.host Runs.plan Runs.armed H)
    as (w' & R & L & _ & _ & T & F & _).
  exists w'. split; [exact R|]. split; [rewrite L, armed_nodes; reflexivity|].
  split; [|exact F].
  assert (D : distinctOn (domNodes Runs.armed) (Obj.keys Runs.plan))
    by (rewrite armed_nodes; exact plan_distinct).
  apply (T D "b"%string 2
           ({| transform := "translate(0px, -20px)" |},
            {| transform := "translate(0px, 0px)" |})).
  - rewrite armed_nodes. reflexivity.
  - reflexivity.
Defined.

Lemma frame_callback_throws_without_node_witness :
  returns (runCallback (ArmTransitions Runs.plan) Runs.unhooked) = false /\
  frames (worldOf (runCallback (ArmTransitions Runs.plan) Runs.unhooked))
  = frames Runs.unhooked /\
  returns (runCallback (RunTransitions Runs.plan) Runs.unhooked) = false.
Proof.
  apply (@frame_callback_throws_without_node Stack.host Runs.plan "c"%string).
  - simpl. auto.
  - intros n. rewrite unhooked_node. discriminate.
Defined.

(** ** Transition-end notifications, one at a time *)

Section Notifications.
Context {host : Host}.

Lemma invokeRegistered_idle key (w : World) :
  Obj.get key (animations w) = None -> invokeRegistered key w = Returned tt w.
Proof. intros H. unfold invokeRegistered, bind, gets. now rewrite H. Qed.

Lemma onTransitionEnd_idle key (w : World) lk :
  Obj.get key (animations w) = None ->
  leavingKeys w = Some lk -> Obj.get key lk <> Some true ->
  onTransitionEnd key w = Returned tt w.
Proof.
  intros Hreg Hlk Hk. unfold onTransitionEnd. unfold bind at 1.
  rewrite invokeRegistered_idle by exact Hreg.
  unfold bind at 1, gets at 1. rewrite Hlk.
  destruct (Obj.get key lk) as [[|]|]; try reflexivity. now destruct Hk.
Qed.

(** X14. A notification for a key that is not leaving, once
    componentWillReceiveProps has run: the listener returns and does what the
    cancel closure of the key does and nothing more. If the key is not
    registered the world is unchanged; if it is, the transition and the
    transform of its node are emptied and its entry removed. [setState] is
    not called and no mapping, reference or snapshot is touched. *)
Theorem transitionend_of_staying_key (key : string) (w : World) (lk : Obj.t bool) :
  registryWf w -> nodesForRegistered w ->
  leavingKeys w = Some lk -> Obj.get key lk = None ->
  exists w',
    onTransitionEnd key w = Returned tt w' /\
    (Obj.get key (animations w) = None -> w' = w) /\
    (forall n, Obj.get key (animations w) <> None ->
               Obj.get key (domNodes w) = Some (Some n) -> w' = cancelled key n w) /\
    setStateCalls (skipn (List.length (log w)) (log w')) = 0 /\
    store w' = store w /\ childRefs w' = childRefs w /\ domNodes w' = domNodes w.
Proof.
  intros Hwf Hn Hlk Hk.
  destruct (invokeRegistered_total key w Hwf Hn) as (w1 & H1).
  assert (E : onTransitionEnd key w = Returned tt w1).
  { unfold onTransitionEnd. unfold bind at 1. rewrite H1.
    unfold bind at 1, gets at 1.
    assert (Hlk1 : leavingKeys w1 = Some lk).
    { destruct (invokeRegistered_returned key w w1 Hwf H1)
        as [[_ ->] | (n & _ & _ & ->)]; exact Hlk. }
    rewrite Hlk1, Hk. reflexivity. }
  exists w1. split; [exact E|].
  destruct (invokeRegistered_returned key w w1 Hwf H1)
    as [[Hnone ->] | (n & Hreg & Hnode & ->)].
  - split; [reflexivity|]. split; [intros n Hreg; now destruct Hreg|].
    rewrite skipn_all. repeat split; reflexivity.
  - split; [intros Hnone; now destruct Hreg|].
    split; [intros m _ Hm; congruence|].
    simpl. rewrite skipn_app, skipn_all, Nat.sub_diag. simpl.
    repeat split; reflexivity.
Qed.

(** X15. A notification for a leaving key while other keys are still
    leaving: the listener returns; the key is deleted from the mapping that
    is both [this.children] and [this.state.children] (so from the state,
    without any [setState]), from the child refs, the node references, the
    starting and ending snapshots and the leaving keys; the real snapshot of
    the key is kept; the other keys of the mapping and the other registered
    closures are left as they were. *)
Theorem transitionend_purges_leaving_key (key : string) (w : World) (a : Addr)
    (lk : Obj.t bool) :
  listening w a lk ->
  Obj.get key lk = Some true ->
  Obj.keys (Obj.del key lk) <> [] ->
  exists w' l,
    onTransitionEnd key w = Returned tt w' /\
    Obj.get key (visibleChildren w') = None /\
    (forall k, k <> key ->
       Obj.get k (visibleChildren w') = Obj.get k (visibleChildren w)) /\
    Obj.get key (childRefs w') = None /\
    Obj.get key (domNodes w') = None /\
    Obj.get key (startingPositions w') = None /\
    Obj.get key (endingPositions w') = None /\
    leavingKeys w' = Some (Obj.del key lk) /\
    realPositions w' = realPositions w /\
    pendingState w' = pendingState w /\
    log w' = log w ++ l /\ setStateCalls l = 0 /\
    Obj.get key (animations w') = None /\
    (forall k, k <> key -> Obj.get k (animations w') = Obj.get k (animations w)).
Proof.
  intros Hlis Hk Hrest.
  pose proof Hlis as (Hwf & Hn & Hlk & Htrue & Hc & Hs & Ha).
  destruct (invokeRegistered_step key w Hwf Hn)
    as (w1 & l1 & H1 & Hfr1 & F1 & Hkey1 & Hoth1 & _).
  assert (Hreg1 : forall k, Obj.get k (animations w1) = None \/
                            Obj.get k (animations w1) = Obj.get k (animations w)).
  { intros k. destruct (string_dec k key) as [->|Hne]; [now left | right; auto]. }
  destruct (listening_cancelFrame w w1 l1 a lk Hlis Hfr1 Hreg1) as (Hlis1 & Hvis1 & _).
  pose proof Hlis1 as (_ & _ & Hlk1 & _ & Hc1 & _).
  destruct (listening_purged key w1 a lk Hlis1 Hkey1) as (_ & Hvisp & _).
  exists (purged key a lk w1), l1. split.
  - rewrite (onTransitionEnd_cases key w w1 a lk H1 Hlk1 Hc1), Hk.
    destruct (Obj.keys (Obj.del key lk)); [now destruct Hrest | reflexivity].
  - destruct Hfr1 as (an & st & ->). rewrite Hvisp, Hvis1. simpl.
    split; [apply ObjFacts.get_del_same|].
    split; [intros k Hne; now apply ObjFacts.get_del_other|].
    split; [apply ObjFacts.get_del_same|].
    split; [apply ObjFacts.get_del_same|].
    split; [apply ObjFacts.get_del_same|].
    split; [apply ObjFacts.get_del_same|].
    split; [reflexivity|]. split; [reflexivity|]. split; [reflexivity|].
    split; [reflexivity|].
    split; [now apply setStateCalls_cancel|].
    simpl in Hkey1, Hoth1. split; [exact Hkey1 | exact Hoth1].
Qed.

(** X16. Listeners are added at every update and never removed, so a node
    can notify the component more than once for the same key. In the state
    the listeners run in, the first notification for a key returns, and a
    second one for the same key right after it returns and changes
    nothing. *)
Theorem repeated_transitionend_is_ignored (key : string) (w : World) (a : Addr)
    (lk : Obj.t bool) :
  listening w a lk ->
  exists w',
    onTransitionEnd key w = Returned tt w' /\
    onTransitionEnd key w' = Returned tt w'.
Proof.
  intros Hlis.
  pose proof Hlis as (Hwf & Hn & Hlk & Htrue & Hc & Hs & Ha).
  destruct (invokeRegistered_step key w Hwf Hn)
    as (w1 & l1 & H1 & Hfr1 & F1 & Hkey1 & Hoth1 & _).
  assert (Hreg1 : forall k, Obj.get k (animations w1) = None \/
                            Obj.get k (animations w1) = Obj.get k (animations w)).
  { intros k. destruct (string_dec k key) as [->|Hne]; [now left | right; auto]. }
  destruct (listening_cancelFrame w w1 l1 a lk Hlis Hfr1 Hreg1) as (Hlis1 & _ & _).
  pose proof Hlis1 as (_ & _ & Hlk1 & _ & Hc1 & _).
  rewrite (onTransitionEnd_cases key w w1 a lk H1 Hlk1 Hc1).
  destruct (Obj.get key lk) as [[|]|] eqn:G.
  - destruct (listening_purged key w1 a lk Hlis1 Hkey1) as (Hlisp & _ & _).
    assert (Hgone : Obj.get key (Obj.del key lk) <> Some true)
      by (rewrite ObjFacts.get_del_same; discriminate).
    destruct (Obj.keys (Obj.del key lk)) as [|k0 ks0] eqn:K.
    + destruct (cancelAll_step _ a _ Hlisp) as (w3 & l3 & H3 & Hfr3 & _ & _ & Hgone3).
      destruct (listening_cancelFrame _ w3 l3 a _ Hlisp Hfr3 (fun k => or_introl (Hgone3 k)))
        as (Hlis3 & _ & _).
      pose proof Hlis3 as (_ & _ & Hlk3 & _).
      exists (stateSet w3). split.
      * unfold bind at 1. rewrite H3. reflexivity.
      * apply (onTransitionEnd_idle key (stateSet w3) (Obj.del key lk));
          [apply Hgone3 | exact Hlk3 | exact Hgone].
    + exists (purged key a lk w1). split; [reflexivity|].
      apply (onTransitionEnd_idle key _ (Obj.del key lk));
        [exact Hkey1 | reflexivity | exact Hgone].
  - exists w1. split; [reflexivity|].
    apply (onTransitionEnd_idle key w1 lk);
      [exact Hkey1 | exact Hlk1 | rewrite G; discriminate].
  - exists w1. split; [reflexivity|].
    apply (onTransitionEnd_idle key w1 lk);
      [exact Hkey1 | exact Hlk1 | rewrite G; discriminate].
Qed.

End Notifications.

Lemma transitionend_of_staying_key_witness :
  exists w',
    onTransitionEnd "b"%string Stack.leaving = Returned tt w' /\
    w' = cancelled "b"%string 2 Stack.leaving.
Proof.
  destruct leaving_listening as (Hwf & Hn & Hlk & _).
  destruct (@transitionend_of_staying_key Stack.host "b"%string Stack.leaving
              [("a", true); ("c", true)]%string Hwf Hn Hlk eq_refl)
    as (w' & R & _ & C & _).
  exists w'. split; [exact R|]. apply C.
  - rewrite leaving_registry. discriminate.
  - rewrite leaving_nodes. reflexivity.
Defined.

Lemma transitionend_purges_leaving_key_witness :
  exists w',
    onTransitionEnd "c"%string Stack.leaving = Returned tt w' /\
    Obj.get "c"%string (visibleChildren w') = None /\
    leavingKeys w' = Some [("a", true)]%string /\
    realPositions w' = realPositions Stack.leaving /\
    pendingState w' = pendingState Stack.leaving.
Proof.
  destruct (@transitionend_purges_leaving_key Stack.host "c"%string Stack.leaving 2
              [("a", true); ("c", true)]%string leaving_listening eq_refl)
    as (w' & l & R & V & _ & _ & _ & _ & _ & L & P & S & _).
  - discriminate.
  - exists w'. auto.
Defined.

Lemma repeated_transitionend_is_ignored_witness :
  exists w',
    onTransitionEnd "c"%string Stack.leaving = Returned tt w' /\
    onTransitionEnd "c"%string w' = Returned tt w'.
Proof.
  exact (@repeated_transitionend_is_ignored Stack.host "c"%string Stack.leaving 2
           [("a", true); ("c", true)]%string leaving_listening).
Defined.

(** ** What an update leaves registered and scheduled *)

Section Registers.
Context {host : Host}.

Lemma forEach_install_registry anims ks : forall (w w' : World),
  forEach ks (fun key =>
    modify (fun w => set_animations (Obj.set key (CancelFor key) (animations w)) w) ;;
    n <- nodeOf key ;;
    match Obj.get key anims with
    | Some d => setStyle n Transform (startTransform d)
    | None => throw
    end) w = Returned tt w' ->
  forall k, Obj.get k (animations w') <> None
            <-> In k ks \/ Obj.get k (animations w) <> None.
Proof.
  induction ks as [|key ks IH]; intros w w' H k; simpl in H.
  - inversion H. subst. simpl. tauto.
  - apply bind_inv in H. destruct H as ([] & w1 & H1 & H2).
    rewrite (IH w1 w' H2 k). clear H2 IH.
    unfold bind at 1, modify at 1 in H1.
    unfold bind at 1, nodeOf, bind at 1, gets at 1 in H1. simpl in H1.
    destruct (Obj.get key (domNodes w)) as [[n|]|] eqn:D; try discriminate.
    unfold ret at 1 in H1.
    destruct (Obj.get key anims) as [d|]; [|discriminate].
    unfold setStyle, emit, bind, modify in H1. inversion H1. subst w1. simpl.
    destruct (string_dec k key) as [->|Hne].
    + rewrite ObjFacts.get_set_same. split; [auto|]. intros _. right. discriminate.
    + rewrite ObjFacts.get_set_other by exact Hne. split.
      * intros [Hin|Hreg]; auto.
      * intros [[Heq|Hin]|Hreg]; auto; now destruct Hne.
Qed.

(** What an update that returns has registered and scheduled. *)
Lemma componentDidUpdate_plan (prevProps : Props) (w w' : World) :
  registryWf w ->
  sameProps prevProps (props w) = false ->
  componentDidUpdate prevProps w = Returned tt w' ->
  exists anims rp,
    realPositions w' = Some rp /\
    calcAnimations (childrenKeys w) (startingPositions w) rp (endingPositions w')
      Obj.empty = Some anims /\
    frames w' = frames w ++ [ArmTransitions anims] /\
    (forall k, Obj.get k (animations w') <> None <-> In k (Obj.keys anims)) /\
    listeners w' = listeners w /\
    pendingState w' = pendingState w.
Proof.
  intros Hwf Hp H.
  unfold componentDidUpdate in H. unfold bind at 1, gets at 1 in H. rewrite Hp in H.
  apply bind_inv in H. destruct H as ([] & w1 & H1 & H).
  rewrite updateDomNodes_run in H1. inversion H1 as [E1]. clear H1.
  apply bind_inv in H. destruct H as ([] & w2 & H2 & H).
  set (J := fun x : World =>
    startingPositions x = startingPositions w /\ childrenKeys x = childrenKeys w /\
    frames x = frames w /\ listeners x = listeners w /\
    pendingState x = pendingState w).
  assert (J1 : J w1) by (subst w1; repeat split).
  assert (Hwf1 : registryWf w1) by (subst w1; exact Hwf).
  assert (J2 : J w2).
  { assert (P : preserves J cancelAll)
      by (apply preserves_cancelAll; intros; assumption).
    specialize (P w1 J1). now rewrite H2 in P. }
  assert (R2 : forall k, Obj.get k (animations w2) = None).
  { unfold cancelAll, bind at 1, gets at 1 in H2.
    destruct (forEach_invoke_returned _ _ _ Hwf1 H2) as (l & _ & _ & Hin & Hout & _).
    intros k. destruct (in_dec string_dec k (Obj.keys (animations w1))) as [Hk|Hk].
    - now apply Hin.
    - rewrite (Hout k Hk). now apply ObjFacts.get_none_keys. }
  apply bind_inv in H. destruct H as ([] & w3 & H3 & H).
  rewrite captureReal_run in H3. inversion H3 as [E3]. clear H3.
  set (rp := snapshotsOf (domNodes w2)
               (getBoundingClientRect (surface w2) (styles w2))
               (childrenKeys w2) Obj.empty) in E3.
  set (K := fun x : World =>
    J x /\ realPositions x = Some rp /\ forall k, Obj.get k (animations x) = None).
  assert (K3 : K w3) by (subst w3; split; [exact J2 | split; [reflexivity | exact R2]]).
  apply bind_inv in H. destruct H as ([] & w4 & H4 & H).
  assert (K4 : K w4).
  { assert (P : preserves K captureEndingHidden)
      by (apply preserves_captureEndingHidden; intros; assumption).
    specialize (P w3 K3). now rewrite H4 in P. }
  apply bind_inv in H. destruct H as (anims & w5 & H5 & H).
  destruct K4 as (J4 & Hrp4 & R4).
  destruct (planAnimations_returned w4 w5 anims rp Hrp4 H5) as [-> Hcalc].
  apply bind_inv in H. destruct H as ([] & w6 & H6 & H).
  set (L := fun x : World =>
    J x /\ realPositions x = Some rp /\ endingPositions x = endingPositions w4).
  assert (L6 : L w6).
  { assert (P : preserves L (installAnimations anims))
      by (apply preserves_installAnimations; intros; assumption).
    specialize (P w4 (conj J4 (conj Hrp4 eq_refl))). now rewrite H6 in P. }
  pose proof (forEach_install_registry anims _ _ _ H6) as R6.
  unfold requestAnimationFrame, emit, bind, modify in H. inversion H as [E]. clear H.
  destruct L6 as ((Hs6 & Hk6 & Hf6 & Hl6 & Hps6) & Hrp6 & He6).
  destruct J4 as (Hs4 & Hk4 & _).
  rewrite Hk4, Hs4 in Hcalc.
  exists anims, rp. simpl.
  split; [exact Hrp6|]. split; [now rewrite He6|]. split; [now rewrite Hf6|].
  split; [|split; [exact Hl6 | exact Hps6]].
  intros k. rewrite (R6 k). split; [|auto].
  intros [Hin|Hreg]; [exact Hin|]. now destruct (Hreg (R4 k)).
Qed.

(** X17. An update with new props that returns, from a registry whose
    closures are those of their keys: the entries registered before are
    gone, and the registry holds exactly the keys of [this.children] for
    which the planner emits a descriptor on the starting snapshot taken by
    componentWillUpdate and the real and ending snapshots taken by this
    update; one frame is requested, for the first callback over those
    animations; no listener is added and no state is queued. *)
Theorem didUpdate_registers_the_plan (prevProps : Props) (w w' : World) :
  registryWf w ->
  sameProps prevProps (props w) = false ->
  componentDidUpdate prevProps w = Returned tt w' ->
  exists anims rp,
    realPositions w' = Some rp /\
    frames w' = frames w ++ [ArmTransitions anims] /\
    (forall k, Obj.get k (animations w') <> None <-> In k (Obj.keys anims)) /\
    (forall k, In k (Obj.keys anims) -> In k (childrenKeys w)) /\
    (forall k, In k (childrenKeys w) ->
       exists first real last,
         Obj.get k (startingPositions w) = Some first /\
         Obj.get k rp = Some real /\
         Obj.get k (endingPositions w') = Some last /\
         Obj.get k anims = planKey first real last) /\
    listeners w' = listeners w /\
    pendingState w' = pendingState w.
Proof.
  intros Hwf Hp H.
  destruct (componentDidUpdate_plan prevProps w w' Hwf Hp H)
    as (anims & rp & Hrp & Hcalc & F & R & L & P).
  exists anims, rp.
  split; [exact Hrp|]. split; [exact F|]. split; [exact R|].
  split; [|split; [|split; [exact L | exact P]]].
  - intros k Hk.
    destruct (in_dec string_dec k (childrenKeys w)) as [Hin|Hout]; [exact Hin|].
    destruct (calcAnimations_get _ _ _ _ _ _ Hcalc k) as [Hget _].
    apply ObjFacts.get_in_keys in Hk. rewrite (Hget Hout) in Hk.
    now destruct Hk.
  - intros k Hk.
    destruct (calcAnimations_lookups _ _ _ _ _ _ Hcalc k Hk)
      as (first & real & last & Hf & Hr & Hl).
    exists first, real, last.
    split; [exact Hf|]. split; [exact Hr|]. split; [exact Hl|].
    destruct (calcAnimations_get _ _ _ _ _ _ Hcalc k) as [_ Hget].
    rewrite (Hget Hk _ _ _ Hf Hr Hl). now destruct (planKey first real last).
Qed.

End Registers.

Lemma interrupting_update_run :
  componentDidUpdate (Stack.propsOf 2 [Stack.a; Stack.c; Stack.b]) Stack.interrupting
  = Returned tt Runs.interrupted.
Proof. vm_compute. reflexivity. Qed.

Lemma interrupting_props :
  sameProps (Stack.propsOf 2 [Stack.a; Stack.c; Stack.b]) (props Stack.interrupting)
  = false.
Proof. vm_compute. reflexivity. Qed.

Lemma didUpdate_registers_the_plan_witness :
  exists anims,
    frames Runs.interrupted = frames Stack.interrupting ++ [ArmTransitions anims] /\
    (forall k, Obj.get k (animations Runs.interrupted) <> None
               <-> In k (Obj.keys anims)) /\
    listeners Runs.interrupted = listeners Stack.interrupting.
Proof.
  destruct (@didUpdate_registers_the_plan Stack.host _ _ _
              interrupting_registryWf interrupting_props interrupting_update_run)
    as (anims & rp & _ & F & R & _ & _ & L & _).
  exists anims. split; [exact F|]. split; [exact R | exact L].
Defined.

(** ** Any run of notifications after an update *)

Section Batches.
Context {host : Host}.

Lemma leavingOrGone_nil (w : World) : leavingOrGone [] w.
Proof. intros k []. Qed.

Lemma fire_idle ks : forall (w : World) a lk,
  listening w a lk -> Obj.keys lk = [] ->
  exists w' l,
    fire ks w = Returned tt w' /\ log w' = log w ++ l /\
    setStateCalls l = 0 /\ listening w' a lk.
Proof.
  induction ks as [|key ks IH]; intros w a lk Hlis Hk.
  - exists w, []. simpl. rewrite app_nil_r. auto.
  - assert (Hnone : Obj.get key lk <> Some true).
    { intros G. assert (In key (Obj.keys lk))
        by (apply ObjFacts.get_in_keys; congruence).
      rewrite Hk in H. destruct H. }
    destruct (onTransitionEnd_step [] key w a lk Hlis (leavingOrGone_nil w))
      as (w1 & l1 & lk1 & H1 & E1 & Hlis1 & _ & _ & Hcase).
    assert (Hsame : lk1 = lk /\ setStateCalls l1 = 0).
    { destruct Hcase as [(_ & -> & S)|[(G & _)|(G & _)]]; auto; contradiction. }
    destruct Hsame as [-> S1].
    destruct (IH w1 a lk Hlis1 Hk) as (w2 & l2 & H2 & E2 & S2 & Hlis2).
    exists w2, (l1 ++ l2). cbn [fire]. unfold bind. rewrite H1.
    split; [exact H2|]. split; [now rewrite E2, E1, app_assoc|].
    split; [|exact Hlis2]. rewrite setStateCalls_app. lia.
Qed.

Lemma fire_once ks : forall (w : World) a lk,
  listening w a lk ->
  exists w' l lk',
    fire ks w = Returned tt w' /\ log w' = log w ++ l /\
    listening w' a lk' /\
    setStateCalls l <= 1 /\
    (setStateCalls l = 1 <-> Obj.keys lk <> [] /\ Obj.keys lk' = []).
Proof.
  induction ks as [|key ks IH]; intros w a lk Hlis.
  - exists w, [], lk. simpl. rewrite app_nil_r.
    split; [reflexivity|]. split; [reflexivity|]. split; [exact Hlis|].
    split; [unfold setStateCalls; simpl; lia|].
    unfold setStateCalls. simpl. split; [discriminate|]. intros [A B]. contradiction.
  - destruct (onTransitionEnd_step [] key w a lk Hlis (leavingOrGone_nil w))
      as (w1 & l1 & lk1 & H1 & E1 & Hlis1 & _ & _ & Hcase).
    assert (Hin : Obj.get key lk = Some true -> Obj.keys lk <> []).
    { intros G Hk. assert (In key (Obj.keys lk))
        by (apply ObjFacts.get_in_keys; congruence).
      rewrite Hk in H. destruct H. }
    cbn [fire]. unfold bind. rewrite H1.
    destruct Hcase as [(_ & -> & S1)|[(G & -> & Hrest & S1)|(G & -> & Hlast & S1 & _)]].
    + destruct (IH w1 a lk Hlis1) as (w2 & l2 & lk2 & H2 & E2 & Hlis2 & Hle & Hiff).
      exists w2, (l1 ++ l2), lk2.
      split; [exact H2|]. split; [now rewrite E2, E1, app_assoc|].
      split; [exact Hlis2|]. rewrite setStateCalls_app, S1. simpl. auto.
    + destruct (IH w1 a _ Hlis1) as (w2 & l2 & lk2 & H2 & E2 & Hlis2 & Hle & Hiff).
      exists w2, (l1 ++ l2), lk2.
      split; [exact H2|]. split; [now rewrite E2, E1, app_assoc|].
      split; [exact Hlis2|]. rewrite setStateCalls_app, S1. simpl.
      split; [exact Hle|]. rewrite Hiff. specialize (Hin G). tauto.
    + destruct (fire_idle ks w1 a _ Hlis1 Hlast) as (w2 & l2 & H2 & E2 & S2 & Hlis2).
      exists w2, (l1 ++ l2), (Obj.del key lk).
      split; [exact H2|]. split; [now rewrite E2, E1, app_assoc|].
      split; [exact Hlis2|]. rewrite setStateCalls_app, S1, S2. simpl.
      split; [lia|]. specialize (Hin G). tauto.
Qed.

(** X18. After a props update that returns (from a registry whose closures
    are those of their keys), any run of transition-end notifications, for
    any keys, in any order and with repetitions, returns; it calls
    [setState] at most once, and exactly once when the update left keys
    leaving and the run leaves none. *)
Theorem notifications_set_state_at_most_once (nextProps : Props) (sf : Surface)
    (refs : Obj.t (option Instance_)) (w w1 : World) (out : Rendered)
    (ks : list string) :
  registryWf w ->
  sameProps (props w) nextProps = false ->
  receiveProps nextProps sf refs w = Returned out w1 ->
  exists w2 l,
    fire ks w1 = Returned tt w2 /\
    log w2 = log w1 ++ l /\
    setStateCalls l <= 1 /\
    (setStateCalls l = 1 <-> leavingKeyList w1 <> [] /\ leavingKeyList w2 = []).
Proof.
  intros Hwf Hp H.
  pose proof (receiveProps_listening nextProps sf refs w w1 out Hwf Hp H) as Hlis.
  destruct (fire_once ks w1 _ _ Hlis) as (w2 & l & lk2 & H2 & E2 & Hlis2 & Hle & Hiff).
  exists w2, l. split; [exact H2|]. split; [exact E2|]. split; [exact Hle|].
  destruct Hlis as (_ & _ & Hlk1 & _). destruct Hlis2 as (_ & _ & Hlk2 & _).
  unfold leavingKeyList. rewrite Hlk1, Hlk2. exact Hiff.
Qed.

End Batches.

Lemma settled_update_run :
  exists out,
    receiveProps (host := Stack.host) (Stack.propsOf 3 [Stack.b]) [1; 3; 2]
      Stack.allRefs Stack.settled = Returned out Runs.removing.
Proof. vm_compute. eexists. reflexivity. Qed.

Lemma settled_props :
  sameProps (props Stack.settled) (Stack.propsOf 3 [Stack.b]) = false /\
  animations Stack.settled = [].
Proof. vm_compute. split; reflexivity. Qed.

Lemma settled_registryWf : registryWf Stack.settled.
Proof.
  apply registryWf_entries. rewrite (proj2 settled_props). intros k c [].
Qed.

Lemma notifications_set_state_at_most_once_witness :
  exists w2 l,
    fire ["a"; "b"; "a"; "c"; "c"]%string Runs.removing = Returned tt w2 /\
    log w2 = log Runs.removing ++ l /\ setStateCalls l <= 1.
Proof.
  destruct settled_update_run as (out & E).
  destruct (@notifications_set_state_at_most_once Stack.host _ _ _ _ _ out
              ["a"; "b"; "a"; "c"; "c"]%string settled_registryWf
              (proj1 settled_props) E)
    as (w2 & l & F & L & S & _).
  exists w2, l. split; [exact F|]. split; [exact L | exact S].
Defined.

(** ** More about render *)

Section RenderMore.
Context {host : Host}.

(** X19. A child with a callback ref: the clone made for its key is given
    the owner's callback chained with the component's tracking callback when
    the factory returns the child itself, and the tracking callback alone
    when the factory returns another element, so that a wrapping factory
    cuts the owner's callback off. *)
Theorem render_chains_owner_callback_unless_wrapped (w : World)
    (f : Element -> Element) (key : string) (child : Element) (g : RefFn) :
  Obj.get "childFactory"%string (fields (props w)) = Some (PChildFactory f) ->
  Obj.get key (visibleChildren w) = Some (Some child) ->
  el_ref child = RefCallback g ->
  let ref := if sameElement (f child) child
             then Chained g (TrackFn key) else TrackFn key in
  exists out w',
    render w = Returned out w' /\
    In {| c_source := f child; c_key := key; c_ref := ref |} (out_children out) /\
    (forall c, In c (out_children out) -> c_key c = key -> c_ref c = ref).
Proof.
  intros Hf Hget Href ref.
  assert (Hcb : isCallbackRef child = true) by (unfold isCallbackRef; now rewrite Href).
  assert (Hin : In key (Obj.keys (visibleChildren w)))
    by (apply ObjFacts.get_in_keys; congruence).
  assert (Hclone : clonedChild f key child
                   = {| c_source := f child; c_key := key; c_ref := ref |}).
  { unfold clonedChild, ref. rewrite Hcb, andb_true_r, Href. reflexivity. }
  eexists. eexists. split; [apply (render_run f w Hf)|]. simpl. split.
  - rewrite <- Hclone. now apply renderedChildren_complete.
  - intros c Hc Hk. apply renderedChildren_sound in Hc.
    destruct Hc as (child' & Hg & ->). simpl in Hk. subst key.
    rewrite Hget in Hg. inversion Hg. subst child'. now rewrite Hclone.
Qed.

Lemma renderedChildren_keys f (m : Obj.t Child) : forall ks,
  map c_key (renderedChildren f ks m) = filter (fun k => truthy (Obj.get k m)) ks.
Proof.
  induction ks as [|k ks IH]; simpl; [reflexivity|].
  destruct (Obj.get k m) as [[child|]|]; simpl; now rewrite IH.
Qed.

(** X20. With a factory in the props, render returns one clone per truthy
    entry of [this.state.children], in the order of the keys of that
    mapping, each under the key of its entry; falsy entries are skipped. *)
Theorem render_keeps_mapping_order (w : World) (f : Element -> Element) :
  Obj.get "childFactory"%string (fields (props w)) = Some (PChildFactory f) ->
  exists out w',
    render w = Returned out w' /\
    map c_key (out_children out)
    = filter (fun k => truthy (Obj.get k (visibleChildren w)))
        (Obj.keys (visibleChildren w)).
Proof.
  intros Hf. eexists. eexists. split; [apply (render_run f w Hf)|].
  simpl. apply renderedChildren_keys.
Qed.

Lemma renderWarnings_nil (m : Obj.t Child) : forall ks,
  (forall k child, In k ks -> Obj.get k m = Some (Some child) ->
                   isCallbackRef child = true) ->
  renderWarnings ks m = [].
Proof.
  induction ks as [|k ks IH]; intros H; simpl; [reflexivity|].
  assert (IH' : renderWarnings ks m = [])
    by (apply IH; intros k' c' Hin; apply H; now right).
  destruct (Obj.get k m) as [[child|]|] eqn:E; auto.
  now rewrite (H k child (or_introl eq_refl) E).
Qed.

(** X21. When no rendered child has a string ref, render reports nothing
    and leaves the component as it found it: refs, node references,
    snapshots, registry and log are those from before the call. *)
Theorem render_without_string_refs_changes_nothing (w : World)
    (f : Element -> Element) :
  Obj.get "childFactory"%string (fields (props w)) = Some (PChildFactory f) ->
  (forall key child, Obj.get key (visibleChildren w) = Some (Some child) ->
                     isCallbackRef child = true) ->
  exists out, render w = Returned out w.
Proof.
  intros Hf Hcb. eexists. rewrite (render_run f w Hf). simpl.
  rewrite renderWarnings_nil by (intros k c _; apply Hcb).
  rewrite app_nil_r, set_log_same. reflexivity.
Qed.

Lemma renderChildren_throws (m : Obj.t Child) key child : forall ks acc (w : World),
  (forall f, Obj.get "childFactory"%string (fields (props w)) <> Some (PChildFactory f)) ->
  In key ks -> Obj.get key m = Some (Some child) ->
  renderChildren ks m acc w = Thrown w.
Proof.
  induction ks as [|k ks IH]; intros acc w Hf Hin Hget; [destruct Hin|].
  simpl. destruct (Obj.get k m) as [[c|]|] eqn:E.
  - unfold bind at 1, renderChild, bind at 1, gets at 1.
    destruct (Obj.get "childFactory"%string (fields (props w))) as [[| f | |]|];
      try reflexivity.
    now destruct (Hf f).
  - apply IH; auto. destruct Hin as [->|Hin]; [congruence | exact Hin].
  - apply IH; auto. destruct Hin as [->|Hin]; [congruence | exact Hin].
Qed.

(** X22. When the [childFactory] of the props is not a function and the
    state mapping has a truthy child, render throws at the first such child,
    before any warning is reported: nothing is returned and the component is
    as it was. *)
Theorem render_throws_without_factory (w : World) (key : string) (child : Element) :
  (forall f, Obj.get "childFactory"%string (fields (props w))
             <> Some (PChildFactory f)) ->
  Obj.get key (visibleChildren w) = Some (Some child) ->
  render w = Thrown w.
Proof.
  intros Hf Hget. unfold render. unfold bind at 1, gets at 1.
  fold (visibleChildren w). unfold bind at 1.
  rewrite (renderChildren_throws (visibleChildren w) key child); auto.
  apply ObjFacts.get_in_keys. congruence.
Qed.

End RenderMore.

Lemma render_chains_owner_callback_unless_wrapped_witness :
  exists out w',
    render Stack.mounted = Returned out w' /\
    In {| c_source := Stack.b; c_key := "b"%string;
          c_ref := Chained (OwnerFn 7) (TrackFn "b"%string) |} (out_children out).
Proof.
  destruct (@render_chains_owner_callback_unless_wrapped Stack.host Stack.mounted
              (fun child => child) "b"%string Stack.b (OwnerFn 7)
              eq_refl eq_refl eq_refl) as (out & w' & R & I & _).
  exists out, w'. split; [exact R | exact I].
Defined.

Lemma render_keeps_mapping_order_witness :
  exists out w',
    render Stack.inserted = Returned out w' /\
    map c_key (out_children out) = ["a"; "c"; "b"]%string.
Proof.
  destruct (@render_keeps_mapping_order Stack.host Stack.inserted
              (fun child => child) eq_refl) as (out & w' & R & K).
  exists out, w'. split; [exact R|]. rewrite K. vm_compute. reflexivity.
Defined.

Lemma mounted_children :
  visibleChildren Stack.mounted = [("a", Some Stack.a); ("b", Some Stack.b)]%string.
Proof. vm_compute. reflexivity. Qed.

Lemma render_without_string_refs_changes_nothing_witness :
  exists out, render Stack.mounted = Returned out Stack.mounted.
Proof.
  apply (@render_without_string_refs_changes_nothing Stack.host Stack.mounted
           (fun child => child) eq_refl).
  intros key child. rewrite mounted_children. simpl.
  destruct (String.eqb key "a"); [intros H; inversion H; reflexivity|].
  destruct (String.eqb key "b"); [intros H; inversion H; reflexivity|].
  discriminate.
Defined.

Lemma render_throws_without_factory_witness :
  render Runs.factoryless = Thrown Runs.factoryless.
Proof.
  apply (@render_throws_without_factory Stack.host Runs.factoryless "a"%string Stack.a).
  - intros f. vm_compute. discriminate.
  - vm_compute. reflexivity.
Defined.

(** ** From an update to its listeners *)

Section AfterUpdate.
Context {host : Host}.

Lemma runCallback_arm anims (w : World) :
  haveNodes (domNodes w) (Obj.keys anims) ->
  runCallback (ArmTransitions anims) w
  = Returned tt
      (set_frames (frames w ++ [RunTransitions anims])
         (set_styles (armedStyles (domNodes w) (Obj.keys anims) (styles w))
            (set_log (log w ++ armEvents (domNodes w) (Obj.keys anims)
                            ++ [FrameRequested (RunTransitions anims)]) w))).
Proof.
  intros Hn. unfold runCallback. unfold bind at 1. rewrite forEach_arm by exact Hn.
  unfold requestAnimationFrame, emit, bind, modify. simpl.
  now rewrite <- app_assoc.
Qed.

Lemma runCallback_run anims (w : World) :
  haveNodes (domNodes w) (Obj.keys anims) ->
  runCallback (RunTransitions anims) w
  = Returned tt
      (set_listeners (listeners w ++ listenersFor (domNodes w) (Obj.keys anims))
         (set_styles (movedStyles (domNodes w) anims (Obj.keys anims) (styles w))
            (set_log (log w ++ moveEvents (domNodes w) anims (Obj.keys anims)) w))).
Proof.
  intros Hn. unfold runCallback. apply forEach_move; [exact Hn|].
  intros k Hk. now apply ObjFacts.get_in_keys.
Qed.

(** X23. An update with new props that returns, when no frame callback was
    pending before it, is followed by two frames that return: the first sets
    the transitions and the second writes the end transforms and adds, for
    each registered key and in the order of registration of the plan, one
    listener on the node of the key. After them no callback is pending, and
    the registry still holds exactly the keys of the plan. *)
Theorem update_frames_reach_the_listeners (prevProps : Props) (w w1 : World) :
  registryWf w ->
  sameProps prevProps (props w) = false ->
  frames w = [] ->
  componentDidUpdate prevProps w = Returned tt w1 ->
  exists anims w2 w3,
    frames w1 = [ArmTransitions anims] /\
    nextFrame w1 = Returned tt w2 /\
    frames w2 = [RunTransitions anims] /\
    nextFrame w2 = Returned tt w3 /\
    frames w3 = [] /\
    listeners w3 = listeners w ++ listenersFor (domNodes w1) (Obj.keys anims) /\
    List.length (listenersFor (domNodes w1) (Obj.keys anims))
    = List.length (Obj.keys anims) /\
    (forall k, Obj.get k (animations w3) <> None <-> In k (Obj.keys anims)).
Proof.
  intros Hwf Hp Hfr H.
  destruct (componentDidUpdate_plan prevProps w w1 Hwf Hp H)
    as (anims & rp & _ & _ & F & R & L & _).
  pose proof (componentDidUpdate_nodes prevProps w w1 Hp Hwf H) as N1.
  assert (Hn : haveNodes (domNodes w1) (Obj.keys anims)).
  { intros k Hk. apply N1. now apply R. }
  rewrite Hfr in F. simpl in F.
  exists anims. eexists. eexists.
  split; [exact F|]. split.
  { unfold nextFrame. unfold bind at 1, gets at 1. rewrite F.
    unfold bind at 1, modify at 1. cbn [runCallbacks]. unfold bind at 1.
    rewrite runCallback_arm by exact Hn. reflexivity. }
  split; [reflexivity|]. split.
  { unfold nextFrame. unfold bind at 1, gets at 1. cbn [frames set_frames app].
    unfold bind at 1, modify at 1. cbn [runCallbacks]. unfold bind at 1.
    rewrite runCallback_run by exact Hn. reflexivity. }
  simpl. split; [reflexivity|]. split; [now rewrite L|]. split; [|exact R].
  clear - Hn. induction (Obj.keys anims) as [|k ks IH]; [reflexivity|].
  simpl. destruct (Hn k (or_introl eq_refl)) as (n & ->). simpl.
  f_equal. apply IH. intros k' Hk'. apply Hn. now right.
Qed.

End AfterUpdate.

Lemma applied_update_run :
  componentDidUpdate (Stack.propsOf 2 [Stack.a; Stack.c; Stack.b]) Runs.applied
  = Returned tt Runs.removing.
Proof. vm_compute. reflexivity. Qed.

Lemma applied_fields :
  sameProps (Stack.propsOf 2 [Stack.a; Stack.c; Stack.b]) (props Runs.applied) = false /\
  frames Runs.applied = [] /\ animations Runs.applied = [].
Proof. vm_compute. repeat split. Qed.

Lemma update_frames_reach_the_listeners_witness :
  exists anims w2 w3,
    frames Runs.removing = [ArmTransitions anims] /\
    nextFrame Runs.removing = Returned tt w2 /\
    nextFrame w2 = Returned tt w3 /\
    frames w3 = [] /\
    listeners w3 = listeners Runs.applied
                   ++ listenersFor (domNodes Runs.removing) (Obj.keys anims).
Proof.
  destruct applied_fields as (Hp & Hf & Hreg).
  assert (Hwf : registryWf Runs.applied).
  { apply registryWf_entries. rewrite Hreg. intros k c []. }
  destruct (@update_frames_reach_the_listeners Stack.host _ _ _ Hwf Hp Hf
              applied_update_run)
    as (anims & w2 & w3 & F1 & N1 & _ & N2 & F3 & L & _).
  exists anims, w2, w3.
  split; [exact F1|]. split; [exact N1|]. split; [exact N2|]. split; [exact F3 | exact L].
Defined.

(** ** An update with the same props *)

Section SameProps.
Context {host : Host}.

Lemma measureEvents_complete dn k n : forall ks,
  In k ks -> Obj.get k dn = Some (Some n) -> In (Measured n) (measureEvents dn ks).
Proof.
  induction ks as [|k0 ks IH]; intros Hin Hd; [destruct Hin|].
  simpl. destruct Hin as [->|Hin].
  - rewrite Hd. now left.
  - destruct (Obj.get k0 dn) as [[m|]|]; [right|idtac|idtac]; now apply IH.
Qed.

(** C9, as the code has it. In an update whose previous props are the very
    object [this.props] is (the re-render that [setState] forces after the
    last leaving key is purged), componentDidUpdate returns at once. Over
    the whole update no node style is written, nothing is scheduled, no
    listener is added, and the real and ending snapshots and the registry
    are what they were. The starting snapshot is not left alone:
    componentWillUpdate of the same update discards it and captures it
    again, measuring the node of every key of [this.children]. *)
Theorem same_props_update_retakes_only_the_start (sf : Surface) (w : World) :
  (forall prevProps, sameProps prevProps (props w) = true ->
     componentDidUpdate prevProps w = Returned tt w) /\
  let w' := worldOf (rerender sf w) in
  exists l,
    log w' = log w ++ l /\
    Forall (fun e => (exists n, e = Measured n) \/ isWarning e) l /\
    (forall k n, In k (childrenKeys w) -> resolveNode k w = Some n ->
       In (Measured n) l) /\
    styles w' = styles w /\
    animations w' = animations w /\
    realPositions w' = realPositions w /\
    endingPositions w' = endingPositions w /\
    frames w' = frames w /\
    listeners w' = listeners w /\
    (forall k, In k (childrenKeys w) ->
       Obj.get k (startingPositions w')
       = Some (match resolveNode k w with
               | Some n => getBoundingClientRect (surface w) (styles w) n
               | None => EmptyObject
               end)) /\
    (forall k, ~ In k (childrenKeys w) -> Obj.get k (startingPositions w') = None).
Proof.
  split.
  { intros prevProps H. exact (proj1 (didUpdate_same_props_does_nothing w prevProps H)). }
  intros w'.
  pose (dn := refreshNodes (childRefs w) (surface w) (childrenKeys w) (domNodes w)).
  pose (w1 := set_startingPositions
                (snapshotsOf dn (getBoundingClientRect (surface w) (styles w))
                   (childrenKeys w) Obj.empty)
                (set_log (log w ++ measureEvents dn (childrenKeys w))
                   (set_domNodes dn w))).
  pose (w2 := match pendingState w1 with
              | Some c => set_pendingState None (set_stateChildren c w1)
              | None => w1
              end).
  assert (Hrun : rerender sf w
                 = match render w2 with
                   | Returned out w3 => Returned out (set_surface sf w3)
                   | Thrown w3 => Thrown w3
                   end).
  { rewrite rerender_skips_didUpdate. unfold bind at 1.
    rewrite componentWillUpdate_run. reflexivity. }
  assert (F2 : log w2 = log w1 /\ styles w2 = styles w /\ animations w2 = animations w /\
               realPositions w2 = realPositions w /\
               endingPositions w2 = endingPositions w /\
               frames w2 = frames w /\ listeners w2 = listeners w /\
               startingPositions w2 = startingPositions w1).
  { unfold w2. destruct (pendingState w1); repeat split. }
  destruct F2 as (Hl2 & Hs2 & Ha2 & Hr2 & He2 & Hf2 & Hli2 & Hst2).
  clearbody w2.
  destruct (render_frame w2) as (lr & Hlr & Er).
  assert (Hw3 : w' = set_surface sf (set_log (log w2 ++ lr) w2)
                \/ w' = set_log (log w2 ++ lr) w2).
  { unfold w'. rewrite Hrun.
    destruct (render w2) as [out w3|w3]; simpl in Er; subst w3.
    - left. reflexivity.
    - right. reflexivity. }
  clearbody w'. clear Hrun.
  exists (measureEvents dn (childrenKeys w) ++ lr).
  assert (Hst : forall k,
            Obj.get k (startingPositions w1)
            = if in_dec string_dec k (childrenKeys w)
              then Some (match resolveNode k w with
                         | Some n => getBoundingClientRect (surface w) (styles w) n
                         | None => EmptyObject
                         end)
              else None).
  { intros k. unfold w1. simpl. rewrite snapshotsOf_get.
    destruct (in_dec string_dec k (childrenKeys w)) as [Hin|Hout]; [|reflexivity].
    unfold snapOf, dn. rewrite refreshNodes_get.
    destruct (in_dec string_dec k (childrenKeys w)); [|contradiction].
    change (lookupNode (childRefs w) (surface w) k) with (resolveNode k w).
    destruct (resolveNode k w); reflexivity. }
  assert (Hm : forall k n, In k (childrenKeys w) -> resolveNode k w = Some n ->
                 In (Measured n) (measureEvents dn (childrenKeys w))).
  { intros k n Hin Hn.
    assert (Hd : Obj.get k dn = Some (Some n)).
    { unfold dn. rewrite refreshNodes_get.
      destruct (in_dec string_dec k (childrenKeys w)); [|contradiction].
      change (lookupNode (childRefs w) (surface w) k) with (resolveNode k w).
      now rewrite Hn. }
    now apply measureEvents_complete with k. }
  assert (Hq : Forall (fun e => (exists n, e = Measured n) \/ isWarning e)
                 (measureEvents dn (childrenKeys w) ++ lr)).
  { apply Forall_app. split.
    - apply Forall_forall. intros e He. left. now apply measureEvents_spec in He.
    - apply Forall_forall. intros e He. right.
      rewrite Forall_forall in Hlr. now apply Hlr. }
  destruct Hw3 as [-> | ->]; simpl; rewrite Hl2, Hs2, Ha2, Hr2, He2, Hf2, Hli2, Hst2;
    (split; [unfold w1; simpl; now rewrite <- app_assoc|]);
    (split; [exact Hq|]);
    (split; [intros k n Hin Hn; apply in_or_app; left; now apply (Hm k n)|]);
    repeat (split; [reflexivity|]);
    (split; intros k Hk; rewrite Hst;
       destruct (in_dec string_dec k (childrenKeys w)); try reflexivity; contradiction).
Qed.

End SameProps.

Lemma settling_fields :
  childrenKeys Runs.settling = ["b"]%string /\
  resolveNode "b"%string Runs.settling = Some 2 /\
  pendingState Runs.settling = Some (Some 2).
Proof. vm_compute. repeat split. Qed.

Lemma same_props_update_retakes_only_the_start_witness :
  componentDidUpdate (props Runs.settling) Runs.settling = Returned tt Runs.settling /\
  exists l,
    log (worldOf (rerender (host := Stack.host) [2] Runs.settling)) = log Runs.settling ++ l /\
    In (Measured 2) l /\
    styles (worldOf (rerender (host := Stack.host) [2] Runs.settling)) = styles Runs.settling /\
    animations (worldOf (rerender (host := Stack.host) [2] Runs.settling)) = animations Runs.settling.
Proof.
  destruct (@same_props_update_retakes_only_the_start Stack.host [2] Runs.settling)
    as [Hdid (l & Hlog & _ & Hm & Hs & Ha & _)].
  split.
  - apply Hdid. unfold sameProps. apply Nat.eqb_refl.
  - exists l. split; [exact Hlog|]. split; [|split; [exact Hs | exact Ha]].
    destruct settling_fields as (Hk & Hn & _).
    apply (Hm "b"%string 2); [rewrite Hk; now left | exact Hn].
Defined.

(** C9 as stated fails. In the re-render forced after the last leaving key
    has settled, the node of [b] is measured again for the starting
    snapshot; and in an update of the insertion with the same props, the
    starting snapshot (taken before [c] had a node) is replaced by what the
    nodes measure now. *)
Lemma same_props_update_retakes_the_start :
  skipn (List.length (log Runs.settling)) (log (worldOf (rerender (host := Stack.host) [2] Runs.settling)))
  = [Measured 2] /\
  startingPositions Stack.inserted
  = [ ("a", DOMRect 8 0 100 20); ("c", EmptyObject);
      ("b", DOMRect 8 20 100 20) ]%string /\
  startingPositions (worldOf (rerender (host := Stack.host) [1; 3; 2] Stack.inserted))
  = [ ("a", DOMRect 8 0 100 20); ("c", DOMRect 8 20 100 20);
      ("b", DOMRect 8 40 100 20) ]%string.
Proof. vm_compute. repeat split. Qed.
